(** * Unified Health Record Hub: audit trail, key lifecycle and AES service

    A shallow embedding of
      - [src/backend/models/AuditLog.js] (class [AuditLog]),
      - [keyManagement.js] (class [KeyManagementService]) and [aesService.js]
        (class [AesService], chunked AES-256-GCM), both in
        [src/unnamed/part_016],
      - [src/backend/aesService.js] (class [AesService], AES-256-CBC),
      - [src/backend/keyManagement.js] (the in-memory key store) and
      - the PHI helpers of [src/backend/config/database.js],
    together with the properties of the compliance specification that can be
    settled on that code.

    JavaScript values are embedded dynamically ([Js.JsVal]) wherever the
    source relies on property lookup of objects it did not build itself;
    asynchronous methods become computations in a state-and-exception monad
    over an explicit world that also holds the behaviour of the external
    collaborators (database clock, anchor ledger, FHIR server, key vault). *)

From Stdlib Require Import ZArith List String Ascii Bool Lia DecimalString.
From Stdlib Require Import Sorted Permutation.
From stdpp Require Import gmap strings list fin_maps.
Import ListNotations.

#[local] Set Warnings "-register-all".
Local Open Scope string_scope.
Local Open Scope Z_scope.

(* ===================================================================== *)
(** * Part I: the model                                                    *)
(* ===================================================================== *)

(** ** JavaScript values, exceptions and effects *)

Module Js.

(** The double quote character, for JSON output. *)
Definition dquote : string := String (ascii_of_nat 34) EmptyString.
Definition backslash : string := String (ascii_of_nat 92) EmptyString.

(** The values the modelled code handles.  Numbers are the integers, a
    [Buffer] is its bytes. *)
Inductive JsVal : Type :=
| JUndefined
| JNull
| JBool (b : bool)
| JNum (n : Z)
| JStr (s : string)
| JBuf (bytes : list Z)
| JArr (xs : list JsVal)
| JObj (props : list (string * JsVal)).

(** What a [throw] carries.  [Error] and [TypeError] are the language's own;
    a failure of an external collaborator is tagged with the collaborator. *)
Inductive Exn : Type :=
| Error (msg : string)
| TypeError (msg : string)
| DatabaseError (msg : string)
| AnchorError (msg : string)
| FhirError (msg : string)
| VaultError (msg : string)
| AuditError (msg : string)
| CipherError (msg : string)
| SocketError (msg : string).

Inductive Outcome (A : Type) : Type :=
| Return (a : A)
| Throw (e : Exn).
Arguments Return {A} a.
Arguments Throw {A} e.

(** An [async] method over a world [W]: it ends with a value or an exception
    and leaves a world behind either way. *)
Definition Eff (W A : Type) : Type := W -> Outcome A * W.

Definition ret {W A} (a : A) : Eff W A := fun w => (Return a, w).
Definition throw {W A} (e : Exn) : Eff W A := fun w => (Throw e, w).
Definition bind {W A B} (m : Eff W A) (k : A -> Eff W B) : Eff W B :=
  fun w => match m w with
           | (Return a, w') => k a w'
           | (Throw e, w') => (Throw e, w')
           end.
Definition gets {W A} (f : W -> A) : Eff W A := fun w => (Return (f w), w).
Definition modify {W} (f : W -> W) : Eff W unit := fun w => (Return tt, f w).
(** A pure step that may throw. *)
Definition lift {W A} (o : Outcome A) : Eff W A := fun w => (o, w).

(** What an external collaborator does with a request: it answers, or it
    fails with a message. *)
Inductive Ext (A : Type) : Type :=
| Answer (a : A)
| Unavailable (msg : string).
Arguments Answer {A} a.
Arguments Unavailable {A} msg.

(** Exceptions only, for the pure helpers. *)
Definition obind {A B} (o : Outcome A) (k : A -> Outcome B) : Outcome B :=
  match o with Return a => k a | Throw e => Throw e end.

(** An assignment [x = v] to a binding declared with [const]: the right-hand
    side has been evaluated, the assignment itself throws. *)
Definition assign_const {A} (x : string) (v : A) : Outcome A :=
  Throw (TypeError "Assignment to constant variable.").

(** *** Coercions of the language *)

Definition truthy (v : JsVal) : bool :=
  match v with
  | JUndefined | JNull => false
  | JBool b => b
  | JNum n => negb (n =? 0)
  | JStr s => negb (String.eqb s "")
  | JBuf _ | JArr _ | JObj _ => true
  end.

Definition dec (n : Z) : string := NilZero.string_of_int (Z.to_int n).

Definition join (sep : string) (parts : list string) : string :=
  match parts with
  | [] => ""
  | p :: ps => fold_left (fun acc q => acc +:+ sep +:+ q) ps p
  end.

(** [String(v)], as a template literal applies it. *)
Fixpoint to_string (v : JsVal) : string :=
  match v with
  | JUndefined => "undefined"
  | JNull => "null"
  | JBool true => "true"
  | JBool false => "false"
  | JNum n => dec n
  | JStr s => s
  | JBuf _ => "[object Buffer]"
  | JArr xs =>
      join "," (List.map (fun x => match x with
                                   | JUndefined | JNull => ""
                                   | _ => to_string x
                                   end) xs)
  | JObj _ => "[object Object]"
  end.

(** [a === b]: primitives by value, objects by identity.  Two objects that
    reach the modelled code along different paths are never the same
    object. *)
Definition strict_eq (a b : JsVal) : bool :=
  match a, b with
  | JUndefined, JUndefined => true
  | JNull, JNull => true
  | JBool x, JBool y => Bool.eqb x y
  | JNum x, JNum y => x =? y
  | JStr x, JStr y => String.eqb x y
  | _, _ => false
  end.

(** *** Objects *)

Fixpoint assoc (k : string) (props : list (string * JsVal)) : JsVal :=
  match props with
  | [] => JUndefined
  | (k', v) :: rest => if String.eqb k k' then v else assoc k rest
  end.

(** [o[k]] where [o] is known to be neither [null] nor [undefined]. *)
Definition prop (o : JsVal) (k : string) : JsVal :=
  match o with
  | JObj props => assoc k props
  | JStr s => if String.eqb k "length" then JNum (Z.of_nat (String.length s)) else JUndefined
  | JBuf b => if String.eqb k "length" then JNum (Z.of_nat (List.length b)) else JUndefined
  | JArr xs => if String.eqb k "length" then JNum (Z.of_nat (List.length xs)) else JUndefined
  | _ => JUndefined
  end.

(** [o.k]: reading a property of [null] or [undefined] throws. *)
Definition get (o : JsVal) (k : string) : Outcome JsVal :=
  match o with
  | JUndefined =>
      Throw (TypeError ("Cannot read properties of undefined (reading '" +:+ k +:+ "')"))
  | JNull =>
      Throw (TypeError ("Cannot read properties of null (reading '" +:+ k +:+ "')"))
  | _ => Return (prop o k)
  end.

(** [o?.k] *)
Definition get_opt (o : JsVal) (k : string) : JsVal :=
  match o with
  | JUndefined | JNull => JUndefined
  | _ => prop o k
  end.

(** [a[i]] *)
Definition index (a : JsVal) (i : nat) : Outcome JsVal :=
  match a with
  | JUndefined => Throw (TypeError ("Cannot read properties of undefined (reading '" +:+ dec (Z.of_nat i) +:+ "')"))
  | JNull => Throw (TypeError ("Cannot read properties of null (reading '" +:+ dec (Z.of_nat i) +:+ "')"))
  | JArr xs => Return (nth i xs JUndefined)
  | _ => Return JUndefined
  end.

(** [a.find(e => e.url === u)] *)
Fixpoint find_url (u : string) (xs : list JsVal) : Outcome JsVal :=
  match xs with
  | [] => Return JUndefined
  | x :: rest =>
      obind (get x "url") (fun v =>
        if strict_eq v (JStr u) then Return x else find_url u rest)
  end.

Definition find_by_url (a : JsVal) (u : string) : Outcome JsVal :=
  match a with
  | JArr xs => find_url u xs
  | JUndefined => Throw (TypeError "Cannot read properties of undefined (reading 'find')")
  | JNull => Throw (TypeError "Cannot read properties of null (reading 'find')")
  | _ => Throw (TypeError "find is not a function")
  end.

(** [a.map(f)] *)
Fixpoint traverse (f : JsVal -> Outcome JsVal) (xs : list JsVal) : Outcome (list JsVal) :=
  match xs with
  | [] => Return []
  | x :: rest =>
      obind (f x) (fun y => obind (traverse f rest) (fun ys => Return (y :: ys)))
  end.

Definition map_array (a : JsVal) (f : JsVal -> Outcome JsVal) : Outcome JsVal :=
  match a with
  | JArr xs => obind (traverse f xs) (fun ys => Return (JArr ys))
  | JUndefined => Throw (TypeError "Cannot read properties of undefined (reading 'map')")
  | JNull => Throw (TypeError "Cannot read properties of null (reading 'map')")
  | _ => Throw (TypeError "map is not a function")
  end.

(** [s.split(sep)] for a one-character separator. *)
Fixpoint split_from (sep : ascii) (piece : string) (s : string) : list string :=
  match s with
  | EmptyString => [piece]
  | String c rest =>
      if Ascii.eqb c sep then piece :: split_from sep "" rest
      else split_from sep (piece +:+ String c EmptyString) rest
  end.

Definition split (sep : ascii) (s : string) : list string := split_from sep "" s.

(** [Object.entries(o)] for the values a parsed JSON message can hold. *)
Definition entries (o : JsVal) : list (string * JsVal) :=
  match o with
  | JObj props => props
  | JArr xs => imap (fun i x => (dec (Z.of_nat i), x)) xs
  | JStr s =>
      imap (fun i c => (dec (Z.of_nat i), JStr (String c EmptyString)))
           (list_ascii_of_string s)
  | _ => []
  end.

(** [o[k] = v] on the properties of an object: an existing key keeps its
    place. *)
Fixpoint assign (k : string) (v : JsVal) (props : list (string * JsVal))
  : list (string * JsVal) :=
  match props with
  | [] => [(k, v)]
  | (k', v') :: rest =>
      if String.eqb k k' then (k, v) :: rest else (k', v') :: assign k v rest
  end.

(** [{ ...props, ...o }] *)
Definition spread (props : list (string * JsVal)) (o : JsVal) : list (string * JsVal) :=
  fold_left (fun acc kv => assign (fst kv) (snd kv) acc) (entries o) props.

(** *** JSON.stringify *)

Definition hex_digit (n : Z) : string :=
  String (ascii_of_nat (Z.to_nat (if n <? 10 then 48 + n else 87 + n))) EmptyString.

Definition escape_char (c : ascii) : string :=
  let n := Z.of_nat (nat_of_ascii c) in
  if n =? 34 then backslash +:+ dquote
  else if n =? 92 then backslash +:+ backslash
  else if n =? 8 then backslash +:+ "b"
  else if n =? 9 then backslash +:+ "t"
  else if n =? 10 then backslash +:+ "n"
  else if n =? 12 then backslash +:+ "f"
  else if n =? 13 then backslash +:+ "r"
  else if n <? 32 then backslash +:+ "u00" +:+ hex_digit (n / 16) +:+ hex_digit (n mod 16)
  else String c EmptyString.

Fixpoint escape (s : string) : string :=
  match s with
  | EmptyString => ""
  | String c rest => escape_char c +:+ escape rest
  end.

Definition quote (s : string) : string := dquote +:+ escape s +:+ dquote.

(** [JSON.stringify(v)]; [None] is the [undefined] it answers for a value
    without a JSON form.  A [Buffer] serialises through its [toJSON]. *)
Fixpoint stringify (v : JsVal) : option string :=
  match v with
  | JUndefined => None
  | JNull => Some "null"
  | JBool true => Some "true"
  | JBool false => Some "false"
  | JNum n => Some (dec n)
  | JStr s => Some (quote s)
  | JBuf b =>
      Some ("{" +:+ quote "type" +:+ ":" +:+ quote "Buffer" +:+ "," +:+ quote "data" +:+ ":["
            +:+ join "," (List.map dec b) +:+ "]}")
  | JArr xs =>
      Some ("[" +:+ join "," (List.map (fun x => match stringify x with
                                                   | Some s => s
                                                   | None => "null"
                                                   end) xs) +:+ "]")
  | JObj props =>
      Some ("{" +:+ join ","
              (flat_map (fun kv => match stringify (snd kv) with
                                   | Some s => [quote (fst kv) +:+ ":" +:+ s]
                                   | None => []
                                   end) props) +:+ "}")
  end.

(** *** Buffers: [toString(encoding)] and [Buffer.from(text, encoding)] *)

Definition bytes_of_string (s : string) : list Z :=
  List.map (fun c => Z.of_nat (nat_of_ascii c)) (list_ascii_of_string s).

Definition string_of_bytes (bs : list Z) : string :=
  string_of_list_ascii (List.map (fun b => ascii_of_nat (Z.to_nat b)) bs).

Definition hex_encode (bs : list Z) : string :=
  String.concat "" (List.map (fun b => hex_digit (b / 16) +:+ hex_digit (b mod 16)) bs).

Definition hex_value (c : ascii) : option Z :=
  let n := Z.of_nat (nat_of_ascii c) in
  if (48 <=? n) && (n <=? 57) then Some (n - 48)
  else if (97 <=? n) && (n <=? 102) then Some (n - 87)
  else if (65 <=? n) && (n <=? 70) then Some (n - 55)
  else None.

(** Decoding stops at the first pair that is not two hex digits. *)
Fixpoint hex_decode (s : string) : list Z :=
  match s with
  | String a (String b rest) =>
      match hex_value a, hex_value b with
      | Some x, Some y => (16 * x + y) :: hex_decode rest
      | _, _ => []
      end
  | _ => []
  end.

Definition base64_alphabet : string :=
  "ABCDEFGHIJKLMNOPQRSTUVWXYZabcdefghijklmnopqrstuvwxyz0123456789+/".

Definition base64_digit (n : Z) : string :=
  match String.get (Z.to_nat n) base64_alphabet with
  | Some c => String c EmptyString
  | None => ""
  end.

Fixpoint base64_encode (bs : list Z) : string :=
  match bs with
  | [] => ""
  | [a] => base64_digit (a / 4) +:+ base64_digit (a mod 4 * 16) +:+ "=="
  | [a; b] =>
      base64_digit (a / 4) +:+ base64_digit (a mod 4 * 16 + b / 16)
      +:+ base64_digit (b mod 16 * 4) +:+ "="
  | a :: b :: c :: rest =>
      base64_digit (a / 4) +:+ base64_digit (a mod 4 * 16 + b / 16)
      +:+ base64_digit (b mod 16 * 4 + c / 64) +:+ base64_digit (c mod 64)
      +:+ base64_encode rest
  end.

Definition base64_value (c : ascii) : option Z :=
  let n := Z.of_nat (nat_of_ascii c) in
  if (65 <=? n) && (n <=? 90) then Some (n - 65)
  else if (97 <=? n) && (n <=? 122) then Some (n - 71)
  else if (48 <=? n) && (n <=? 57) then Some (n + 4)
  else if (n =? 43) || (n =? 45) then Some 62
  else if (n =? 47) || (n =? 95) then Some 63
  else None.

(** The sextets of a text up to its padding; other characters are skipped. *)
Fixpoint sextets (s : string) : list Z :=
  match s with
  | EmptyString => []
  | String c rest =>
      if Ascii.eqb c "="%char then []
      else match base64_value c with
           | Some v => v :: sextets rest
           | None => sextets rest
           end
  end.

Fixpoint bytes_of_sextets (vs : list Z) : list Z :=
  match vs with
  | a :: b :: c :: d :: rest =>
      (a * 4 + b / 16) :: (b mod 16 * 16 + c / 4) :: (c mod 4 * 64 + d)
      :: bytes_of_sextets rest
  | [a; b; c] => [a * 4 + b / 16; b mod 16 * 16 + c / 4]
  | [a; b] => [a * 4 + b / 16]
  | _ => []
  end.

Definition base64_decode (s : string) : list Z := bytes_of_sextets (sextets s).

(** [buffer.toString(encoding)] for the two encodings the services name;
    any other encoding name is taken as unknown. *)
Definition encode (encoding : string) (bs : list Z) : Outcome string :=
  if String.eqb encoding "hex" then Return (hex_encode bs)
  else if String.eqb encoding "base64" then Return (base64_encode bs)
  else Throw (TypeError ("Unknown encoding: " +:+ encoding)).

(** [Buffer.from(text, encoding)] *)
Definition decode (encoding : string) (text : string) : Outcome (list Z) :=
  if String.eqb encoding "hex" then Return (hex_decode text)
  else if String.eqb encoding "base64" then Return (base64_decode text)
  else Throw (TypeError ("Unknown encoding: " +:+ encoding)).

(** *** Dates (UTC) *)

(** Days since 1970-01-01 to (year, month, day) in the proleptic Gregorian
    calendar. *)
Definition civil_from_days (days : Z) : Z * Z * Z :=
  let z := days + 719468 in
  let era := z / 146097 in
  let doe := z - era * 146097 in
  let yoe := (doe - doe / 1460 + doe / 36524 - doe / 146096) / 365 in
  let y := yoe + era * 400 in
  let doy := doe - (365 * yoe + yoe / 4 - yoe / 100) in
  let mp := (5 * doy + 2) / 153 in
  let d := doy - (153 * mp + 2) / 5 + 1 in
  let m := if mp <? 10 then mp + 3 else mp - 9 in
  (if m <=? 2 then y + 1 else y, m, d).

Definition pad (width : nat) (n : Z) : string :=
  let s := dec n in
  String.concat "" (repeat "0" (width - String.length s)%nat) +:+ s.

Definition day_name (n : Z) : string :=
  nth (Z.to_nat n) ["Sun"; "Mon"; "Tue"; "Wed"; "Thu"; "Fri"; "Sat"] "".
Definition month_name (n : Z) : string :=
  nth (Z.to_nat (n - 1))
      ["Jan"; "Feb"; "Mar"; "Apr"; "May"; "Jun"; "Jul"; "Aug"; "Sep"; "Oct"; "Nov"; "Dec"] "".

(** [String(new Date(ms))] for a process running in UTC, four-digit years. *)
Definition date_to_string (ms : Z) : string :=
  let days := ms / 86400000 in
  let rest := ms mod 86400000 in
  let '(y, m, d) := civil_from_days days in
  day_name ((days + 4) mod 7) +:+ " " +:+ month_name m +:+ " " +:+ pad 2 d +:+ " " +:+ pad 4 y
  +:+ " " +:+ pad 2 (rest / 3600000) +:+ ":" +:+ pad 2 (rest / 60000 mod 60) +:+ ":"
  +:+ pad 2 (rest / 1000 mod 60) +:+ " GMT+0000 (Coordinated Universal Time)".

(** [new Date(ms).toISOString()], four-digit years. *)
Definition to_iso_string (ms : Z) : string :=
  let days := ms / 86400000 in
  let rest := ms mod 86400000 in
  let '(y, m, d) := civil_from_days days in
  pad 4 y +:+ "-" +:+ pad 2 m +:+ "-" +:+ pad 2 d +:+ "T" +:+ pad 2 (rest / 3600000) +:+ ":"
  +:+ pad 2 (rest / 60000 mod 60) +:+ ":" +:+ pad 2 (rest / 1000 mod 60) +:+ "."
  +:+ pad 3 (rest mod 1000) +:+ "Z".

End Js.

(** ** Bytes *)

Module Bytes.

(** What a [Buffer] holds. *)
Definition byte (b : Z) : Prop := 0 <= b < 256.
Definition bytes (bs : list Z) : Prop := List.Forall byte bs.

Definition is_byte (b : Z) : bool := (0 <=? b) && (b <? 256).

(** The 256 of them. *)
Definition all_bytes : list Z := List.map Z.of_nat (seq 0 256).


End Bytes.

(** ** [crypto.createHash('sha256')] *)

Module Sha256.

Definition w32 (x : Z) : Z := x mod 4294967296.
Definition rotr (n x : Z) : Z := Z.lor (Z.shiftr x n) (w32 (Z.shiftl x (32 - n))).
Definition xor3 (a b c : Z) : Z := Z.lxor (Z.lxor a b) c.
Definition Ch (x y z : Z) : Z := Z.lxor (Z.land x y) (Z.land (Z.lxor x 4294967295) z).
Definition Maj (x y z : Z) : Z := xor3 (Z.land x y) (Z.land x z) (Z.land y z).
Definition bsig0 (x : Z) : Z := xor3 (rotr 2 x) (rotr 13 x) (rotr 22 x).
Definition bsig1 (x : Z) : Z := xor3 (rotr 6 x) (rotr 11 x) (rotr 25 x).
Definition ssig0 (x : Z) : Z := xor3 (rotr 7 x) (rotr 18 x) (Z.shiftr x 3).
Definition ssig1 (x : Z) : Z := xor3 (rotr 17 x) (rotr 19 x) (Z.shiftr x 10).

Definition K : list Z :=
  [1116352408; 1899447441; 3049323471; 3921009573; 961987163; 1508970993; 2453635748;
   2870763221; 3624381080; 310598401; 607225278; 1426881987; 1925078388; 2162078206;
   2614888103; 3248222580; 3835390401; 4022224774; 264347078; 604807628; 770255983;
   1249150122; 1555081692; 1996064986; 2554220882; 2821834349; 2952996808; 3210313671;
   3336571891; 3584528711; 113926993; 338241895; 666307205; 773529912; 1294757372;
   1396182291; 1695183700; 1986661051; 2177026350; 2456956037; 2730485921; 2820302411;
   3259730800; 3345764771; 3516065817; 3600352804; 4094571909; 275423344; 430227734;
   506948616; 659060556; 883997877; 958139571; 1322822218; 1537002063; 1747873779;
   1955562222; 2024104815; 2227730452; 2361852424; 2428436474; 2756734187; 3204031479;
   3329325298].

Definition H0 : list Z :=
  [1779033703; 3144134277; 1013904242; 2773480762; 1359893119; 2600822924; 528734635;
   1541459225].

(** Big-endian bytes of [x], [n] of them. *)
Fixpoint be_bytes (n : nat) (x : Z) : list Z :=
  match n with
  | O => []
  | S n' => be_bytes n' (x / 256) ++ [x mod 256]
  end.

Definition padding (msg : list Z) : list Z :=
  let len := Z.of_nat (List.length msg) in
  let zeros := Z.to_nat ((55 - len) mod 64) in
  msg ++ [128] ++ repeat 0 zeros ++ be_bytes 8 (8 * len).

Fixpoint words (n : nat) (bs : list Z) : list Z :=
  match n, bs with
  | S n', a :: b :: c :: d :: rest =>
      (((a * 256 + b) * 256 + c) * 256 + d) :: words n' rest
  | _, _ => []
  end.

(** The message schedule, newest word first. *)
Fixpoint schedule (n : nat) (rev_w : list Z) : list Z :=
  match n with
  | O => rev_w
  | S n' =>
      let w := w32 (ssig1 (nth 1 rev_w 0) + nth 6 rev_w 0
                    + ssig0 (nth 14 rev_w 0) + nth 15 rev_w 0) in
      schedule n' (w :: rev_w)
  end.

Definition round (st : list Z) (kw : Z * Z) : list Z :=
  match st with
  | [a; b; c; d; e; f; g; h] =>
      let t1 := h + bsig1 e + Ch e f g + fst kw + snd kw in
      let t2 := bsig0 a + Maj a b c in
      [w32 (t1 + t2); a; b; c; w32 (d + t1); e; f; g]
  | _ => st
  end.

Definition compress (h : list Z) (block : list Z) : list Z :=
  let w := List.rev (schedule 48 (List.rev (words 16 block))) in
  let st := fold_left round (combine K w) h in
  List.map (fun p => w32 (fst p + snd p)) (combine h st).

Fixpoint blocks (n : nat) (h : list Z) (bs : list Z) : list Z :=
  match n with
  | O => h
  | S n' =>
      match bs with
      | [] => h
      | _ => blocks n' (compress h (firstn 64 bs)) (skipn 64 bs)
      end
  end.

Definition digest (msg : list Z) : list Z :=
  let p := padding msg in
  flat_map (be_bytes 4) (blocks (List.length p) H0 p).

(** [crypto.createHash('sha256').update(s).digest('hex')] *)
Definition sha256_hex (s : string) : string :=
  Js.hex_encode (digest (Js.bytes_of_string s)).

End Sha256.

(** ** The AES-256 block cipher (FIPS 197), as [crypto] runs it *)

Module Aes256.

Definition sbox : list Z :=
  [
   99; 124; 119; 123; 242; 107; 111; 197; 48; 1; 103; 43; 254; 215; 171; 118;
   202; 130; 201; 125; 250; 89; 71; 240; 173; 212; 162; 175; 156; 164; 114; 192;
   183; 253; 147; 38; 54; 63; 247; 204; 52; 165; 229; 241; 113; 216; 49; 21;
   4; 199; 35; 195; 24; 150; 5; 154; 7; 18; 128; 226; 235; 39; 178; 117;
   9; 131; 44; 26; 27; 110; 90; 160; 82; 59; 214; 179; 41; 227; 47; 132;
   83; 209; 0; 237; 32; 252; 177; 91; 106; 203; 190; 57; 74; 76; 88; 207;
   208; 239; 170; 251; 67; 77; 51; 133; 69; 249; 2; 127; 80; 60; 159; 168;
   81; 163; 64; 143; 146; 157; 56; 245; 188; 182; 218; 33; 16; 255; 243; 210;
   205; 12; 19; 236; 95; 151; 68; 23; 196; 167; 126; 61; 100; 93; 25; 115;
   96; 129; 79; 220; 34; 42; 144; 136; 70; 238; 184; 20; 222; 94; 11; 219;
   224; 50; 58; 10; 73; 6; 36; 92; 194; 211; 172; 98; 145; 149; 228; 121;
   231; 200; 55; 109; 141; 213; 78; 169; 108; 86; 244; 234; 101; 122; 174; 8;
   186; 120; 37; 46; 28; 166; 180; 198; 232; 221; 116; 31; 75; 189; 139; 138;
   112; 62; 181; 102; 72; 3; 246; 14; 97; 53; 87; 185; 134; 193; 29; 158;
   225; 248; 152; 17; 105; 217; 142; 148; 155; 30; 135; 233; 206; 85; 40; 223;
   140; 161; 137; 13; 191; 230; 66; 104; 65; 153; 45; 15; 176; 84; 187; 22
  ].

Definition inv_sbox : list Z :=
  [
   82; 9; 106; 213; 48; 54; 165; 56; 191; 64; 163; 158; 129; 243; 215; 251;
   124; 227; 57; 130; 155; 47; 255; 135; 52; 142; 67; 68; 196; 222; 233; 203;
   84; 123; 148; 50; 166; 194; 35; 61; 238; 76; 149; 11; 66; 250; 195; 78;
   8; 46; 161; 102; 40; 217; 36; 178; 118; 91; 162; 73; 109; 139; 209; 37;
   114; 248; 246; 100; 134; 104; 152; 22; 212; 164; 92; 204; 93; 101; 182; 146;
   108; 112; 72; 80; 253; 237; 185; 218; 94; 21; 70; 87; 167; 141; 157; 132;
   144; 216; 171; 0; 140; 188; 211; 10; 247; 228; 88; 5; 184; 179; 69; 6;
   208; 44; 30; 143; 202; 63; 15; 2; 193; 175; 189; 3; 1; 19; 138; 107;
   58; 145; 17; 65; 79; 103; 220; 234; 151; 242; 207; 206; 240; 180; 230; 115;
   150; 172; 116; 34; 231; 173; 53; 133; 226; 249; 55; 232; 28; 117; 223; 110;
   71; 241; 26; 113; 29; 41; 197; 137; 111; 183; 98; 14; 170; 24; 190; 27;
   252; 86; 62; 75; 198; 210; 121; 32; 154; 219; 192; 254; 120; 205; 90; 244;
   31; 221; 168; 51; 136; 7; 199; 49; 177; 18; 16; 89; 39; 128; 236; 95;
   96; 81; 127; 169; 25; 181; 74; 13; 45; 229; 122; 159; 147; 201; 156; 239;
   160; 224; 59; 77; 174; 42; 245; 176; 200; 235; 187; 60; 131; 83; 153; 97;
   23; 43; 4; 126; 186; 119; 214; 38; 225; 105; 20; 99; 85; 33; 12; 125
  ].

Definition sub_bytes (state : list Z) : list Z :=
  List.map (fun b => nth (Z.to_nat b) sbox 0) state.
Definition inv_sub_bytes (state : list Z) : list Z :=
  List.map (fun b => nth (Z.to_nat b) inv_sbox 0) state.

Definition xor_bytes (a b : list Z) : list Z :=
  List.map (fun p => Z.lxor (fst p) (snd p)) (combine a b).

(** Multiplication in GF(2^8) modulo x^8 + x^4 + x^3 + x + 1. *)
Definition xtime (b : Z) : Z :=
  if b * 2 <? 256 then b * 2 else Z.lxor (b * 2 - 256) 27.

Fixpoint gmul_bits (bits : nat) (a b : Z) : Z :=
  match bits with
  | O => 0
  | S bits' => Z.lxor (if Z.odd b then a else 0) (gmul_bits bits' (xtime a) (b / 2))
  end.

Definition gmul (a b : Z) : Z := gmul_bits 8 a b.

(** The state holds its columns one after the other; row [r] of column [c]
    is byte [r + 4c]. *)
Definition shift_rows (state : list Z) : list Z :=
  List.map (fun i => nth (i mod 4 + 4 * ((i / 4 + i mod 4) mod 4)) state 0) (seq 0 16).

Definition inv_shift_rows (state : list Z) : list Z :=
  List.map (fun i => nth (i mod 4 + 4 * ((i / 4 + 4 - i mod 4) mod 4)) state 0) (seq 0 16).

Fixpoint mix_columns (state : list Z) : list Z :=
  match state with
  | a :: b :: c :: d :: rest =>
      Z.lxor (Z.lxor (gmul a 2) (gmul b 3)) (Z.lxor c d)
      :: Z.lxor (Z.lxor a (gmul b 2)) (Z.lxor (gmul c 3) d)
      :: Z.lxor (Z.lxor a b) (Z.lxor (gmul c 2) (gmul d 3))
      :: Z.lxor (Z.lxor (gmul a 3) b) (Z.lxor c (gmul d 2))
      :: mix_columns rest
  | _ => []
  end.

Fixpoint inv_mix_columns (state : list Z) : list Z :=
  match state with
  | a :: b :: c :: d :: rest =>
      Z.lxor (Z.lxor (gmul a 14) (gmul b 11)) (Z.lxor (gmul c 13) (gmul d 9))
      :: Z.lxor (Z.lxor (gmul a 9) (gmul b 14)) (Z.lxor (gmul c 11) (gmul d 13))
      :: Z.lxor (Z.lxor (gmul a 13) (gmul b 9)) (Z.lxor (gmul c 14) (gmul d 11))
      :: Z.lxor (Z.lxor (gmul a 11) (gmul b 13)) (Z.lxor (gmul c 9) (gmul d 14))
      :: inv_mix_columns rest
  | _ => []
  end.

(** The key schedule: [words] more words, the newest first; word [i] is
    derived from words [i-1] and [i-8]. *)
Fixpoint expand (words : nat) (i : nat) (rev_w : list (list Z)) : list (list Z) :=
  match words with
  | O => rev_w
  | S words' =>
      let previous := nth 0 rev_w [] in
      let temp :=
        if (i mod 8 =? 0)%nat then
          xor_bytes (sub_bytes (skipn 1 previous ++ firstn 1 previous))
                    [nth (i / 8 - 1) [1; 2; 4; 8; 16; 32; 64] 0; 0; 0; 0]
        else if (i mod 8 =? 4)%nat then sub_bytes previous
        else previous in
      expand words' (S i) (xor_bytes (nth 7 rev_w []) temp :: rev_w)
  end.

Fixpoint words_of (n : nat) (bytes : list Z) : list (list Z) :=
  match n with
  | O => []
  | S n' => firstn 4 bytes :: words_of n' (skipn 4 bytes)
  end.

Fixpoint round_keys_of (n : nat) (schedule : list (list Z)) : list (list Z) :=
  match n with
  | O => []
  | S n' => List.concat (firstn 4 schedule) :: round_keys_of n' (skipn 4 schedule)
  end.

(** The fifteen round keys of a 32-byte key. *)
Definition round_keys (key : list Z) : list (list Z) :=
  round_keys_of 15 (List.rev (expand 52 8 (List.rev (words_of 8 key)))).

Definition encrypt_block (key block : list Z) : list Z :=
  match round_keys key with
  | first :: rest =>
      let middle := firstn 13 rest in
      let last := nth 13 rest [] in
      let state :=
        fold_left (fun st rk => xor_bytes (mix_columns (shift_rows (sub_bytes st))) rk)
                  middle (xor_bytes block first) in
      xor_bytes (shift_rows (sub_bytes state)) last
  | [] => block
  end.

Definition decrypt_block (key block : list Z) : list Z :=
  match round_keys key with
  | first :: rest =>
      let middle := List.rev (firstn 13 rest) in
      let last := nth 13 rest [] in
      let state :=
        fold_left (fun st rk =>
                     inv_mix_columns (xor_bytes (inv_sub_bytes (inv_shift_rows st)) rk))
                  middle (xor_bytes block last) in
      xor_bytes (inv_sub_bytes (inv_shift_rows state)) first
  | [] => block
  end.


(** The state of the cipher is sixteen bytes, a word of the key schedule
    four. *)
Definition state (st : list Z) : Prop := List.length st = 16%nat /\ Bytes.bytes st.
Definition word (w : list Z) : Prop := List.length w = 4%nat /\ Bytes.bytes w.

(** A round of [encrypt_block] and a round of [decrypt_block]. *)
Definition round (st rk : list Z) : list Z :=
  xor_bytes (mix_columns (shift_rows (sub_bytes st))) rk.

Definition inv_round (st rk : list Z) : list Z :=
  inv_mix_columns (xor_bytes (inv_sub_bytes (inv_shift_rows st)) rk).

End Aes256.

(** ** PHI indicators ([config/database.js], lines 106-121) *)

Module PhiUtils.
Import Js.

Definition lower (c : ascii) : ascii :=
  let n := nat_of_ascii c in
  if ((65 <=? n) && (n <=? 90))%nat then ascii_of_nat (n + 32) else c.

Fixpoint toLowerCase (s : string) : string :=
  match s with
  | EmptyString => EmptyString
  | String c rest => String (lower c) (toLowerCase rest)
  end.

Definition phiColumns : list string :=
  ["ssn"; "mrn"; "phone"; "address"; "birth_date"; "email"; "insurance_id"].

Definition isPHIColumn (columnName : string) : bool :=
  existsb (String.eqb (toLowerCase columnName)) phiColumns.

(** The replacer of [maskPHI], on the value rather than on its JSON text:
    whatever stands under a PHI key is redacted. *)
Fixpoint redact (v : JsVal) : JsVal :=
  match v with
  | JObj props =>
      JObj (List.map (fun kv => (fst kv,
                                 if isPHIColumn (fst kv) then JStr "**REDACTED**"
                                 else redact (snd kv))) props)
  | JArr xs => JArr (List.map redact xs)
  | _ => v
  end.

(** *** [maskPHI] (lines 114-121) *)

(** [\d] *)
Definition is_digit (c : ascii) : bool :=
  let n := nat_of_ascii c in ((48 <=? n) && (n <=? 57))%nat.

Definition is_dash (c : ascii) : bool := Ascii.eqb c "-".

(** [/\d{3}-\d{2}-\d{4}/], one test per character. *)
Definition ssn_pattern : list (ascii -> bool) :=
  [is_digit; is_digit; is_digit; is_dash; is_digit; is_digit; is_dash;
   is_digit; is_digit; is_digit; is_digit].

(** A match of the pattern at the head of the text: what follows it. *)
Fixpoint match_here (pattern : list (ascii -> bool)) (s : string) : option string :=
  match pattern with
  | [] => Some s
  | p :: ps =>
      match s with
      | String c rest => if p c then match_here ps rest else None
      | EmptyString => None
      end
  end.

(** [pattern.test(s)]: a match somewhere in the text. *)
Fixpoint test (pattern : list (ascii -> bool)) (s : string) : bool :=
  match match_here pattern s with
  | Some _ => true
  | None =>
      match s with
      | String _ rest => test pattern rest
      | EmptyString => false
      end
  end.

(** [s.replace(/\d{3}-\d{2}-\d{4}/g, '***-**-****')]: the matches from left
    to right, each search starting where the last match ended.  Every
    step takes a character or more, so the length of the text is fuel
    enough. *)
Fixpoint replace_ssn (fuel : nat) (s : string) : string :=
  match fuel with
  | O => s
  | S fuel' =>
      match match_here ssn_pattern s with
      | Some rest => "***-**-****" +:+ replace_ssn fuel' rest
      | None =>
          match s with
          | String c rest => String c (replace_ssn fuel' rest)
          | EmptyString => EmptyString
          end
      end
  end.

(** [maskPHI]; [None] is the [undefined] that [JSON.stringify] answers. *)
Definition maskPHI (input : JsVal) : option string :=
  match input with
  | JStr text => Some (replace_ssn (String.length text) text)
  | _ => stringify (redact input)
  end.

(** No property is named like a PHI column, at any depth. *)
Fixpoint no_phi_names (v : JsVal) : bool :=
  match v with
  | JObj props =>
      forallb (fun kv => negb (isPHIColumn (fst kv)) && no_phi_names (snd kv)) props
  | JArr xs => forallb no_phi_names xs
  | _ => true
  end.

End PhiUtils.

(** ** [AuditLog.js]: the audit trail *)

Module AuditLog.
Import Js.

(** A row of the [LogEntry] model (lines 14-27).  The columns filled from the
    caller's metadata keep the value they were handed. *)
Record LogEntry : Type := {
  id : string;              (* UUID, primary key, default UUIDV4 *)
  timestamp : Z;            (* DATE(6), default CURRENT_TIMESTAMP(6); ms since epoch *)
  userId : string;
  action : string;
  resourceType : JsVal;
  resourceId : JsVal;
  ipAddress : JsVal;
  userAgent : JsVal;
  queryParams : JsVal;      (* JSONB *)
  dataHash : JsVal;         (* SHA-256 hex, or null *)
  blockchainTxId : JsVal;   (* string, or null *)
  verified : bool           (* default false *)
}.

(** A connected monitoring client ([this.wss.clients]). *)
Record WsClient : Type := {
  readyState : Z;                  (* WebSocket.OPEN is 1 *)
  filters : JsVal;                 (* undefined until the client subscribes *)
  send : string -> option string   (* [Some msg]: the socket throws *)
}.

(** The request [submitAuditBatch] receives (lines 74-78). *)
Record Submission : Type := {
  hospitalId : JsVal;
  merkleRoot : JsVal;
  entries : list string
}.

Record World : Type := {
  rows : list LogEntry;                        (* the table, in insertion order *)
  db_now : Z;                                  (* the database's CURRENT_TIMESTAMP *)
  app_now : Z;                                 (* Date.now() *)
  uuidv4 : nat -> string;                      (* the UUIDV4 generator's draws *)
  uuid_drawn : nat;
  BLOCKCHAIN_AUDIT : JsVal;                    (* process.env *)
  HOSPITAL_ID : JsVal;
  clients : list WsClient;
  submitAuditBatch : Submission -> Ext JsVal;  (* the anchor: answers [tx.hash] *)
  verifyTransaction : JsVal -> string -> Ext bool;
  submitted : list Submission;                 (* requests the anchor received *)
  delivered : list (nat * string)              (* frames handed to a client *)
}.

Definition with_rows (f : list LogEntry -> list LogEntry) (w : World) : World :=
  {| rows := f (rows w); db_now := db_now w; app_now := app_now w; uuidv4 := uuidv4 w;
     uuid_drawn := uuid_drawn w; BLOCKCHAIN_AUDIT := BLOCKCHAIN_AUDIT w;
     HOSPITAL_ID := HOSPITAL_ID w; clients := clients w;
     submitAuditBatch := submitAuditBatch w; verifyTransaction := verifyTransaction w;
     submitted := submitted w; delivered := delivered w |}.

Definition draw_uuid : Eff World string :=
  fun w => (Return (uuidv4 w (uuid_drawn w)),
            {| rows := rows w; db_now := db_now w; app_now := app_now w; uuidv4 := uuidv4 w;
               uuid_drawn := S (uuid_drawn w); BLOCKCHAIN_AUDIT := BLOCKCHAIN_AUDIT w;
               HOSPITAL_ID := HOSPITAL_ID w; clients := clients w;
               submitAuditBatch := submitAuditBatch w;
               verifyTransaction := verifyTransaction w;
               submitted := submitted w; delivered := delivered w |}).

Definition record_submission (s : Submission) (w : World) : World :=
  {| rows := rows w; db_now := db_now w; app_now := app_now w; uuidv4 := uuidv4 w;
     uuid_drawn := uuid_drawn w; BLOCKCHAIN_AUDIT := BLOCKCHAIN_AUDIT w;
     HOSPITAL_ID := HOSPITAL_ID w; clients := clients w;
     submitAuditBatch := submitAuditBatch w; verifyTransaction := verifyTransaction w;
     submitted := submitted w ++ [s]; delivered := delivered w |}.

Definition record_delivery (i : nat) (frame : string) (w : World) : World :=
  {| rows := rows w; db_now := db_now w; app_now := app_now w; uuidv4 := uuidv4 w;
     uuid_drawn := uuid_drawn w; BLOCKCHAIN_AUDIT := BLOCKCHAIN_AUDIT w;
     HOSPITAL_ID := HOSPITAL_ID w; clients := clients w;
     submitAuditBatch := submitAuditBatch w; verifyTransaction := verifyTransaction w;
     submitted := submitted w; delivered := delivered w ++ [(i, frame)] |}.

(** *** Utility methods (lines 153-176) *)

Definition _hashData (data : JsVal) : Outcome string :=
  match stringify data with
  | Some json => Return (Sha256.sha256_hex json)
  | None => Throw (TypeError "The data argument must be of type string")
  end.

Definition _hashEntry (entry : LogEntry) : string :=
  Sha256.sha256_hex
    (userId entry +:+ "|" +:+ action entry +:+ "|" +:+ to_string (resourceType entry)
     +:+ "|" +:+ date_to_string (timestamp entry)).

(** The [for] loop of [_calculateMerkleRoot]: one level of the tree.
    [hashes[i+1] || hashes[i]] takes the left hash again when the right one
    is missing (or empty). *)
Fixpoint newLevel (hashes : list string) : list string :=
  match hashes with
  | [] => []
  | [h] => [Sha256.sha256_hex (h +:+ h)]
  | h :: h' :: rest =>
      Sha256.sha256_hex (h +:+ (if String.eqb h' "" then h else h')) :: newLevel rest
  end.

(** The [while] loop.  [hashes] is declared [const] (line 166), so the
    assignment that ends the first pass (line 173) throws. *)
Fixpoint merkle_loop (fuel : nat) (hashes : list string) {struct fuel}
  : Outcome (list string) :=
  if (1 <? List.length hashes)%nat then
    match fuel with
    | O => Return hashes
    | S fuel' =>
        obind (assign_const "hashes" (newLevel hashes))
              (fun hashes' => merkle_loop fuel' hashes')
    end
  else Return hashes.

Definition _calculateMerkleRoot (batch : list LogEntry) : Outcome JsVal :=
  let hashes := List.map _hashEntry batch in
  obind (merkle_loop (List.length hashes) hashes) (fun hashes =>
    Return (match hashes with
            | h :: _ => JStr h
            | [] => JUndefined
            end)).

(** *** Queries *)

Fixpoint insert_by_timestamp (e : LogEntry) (l : list LogEntry) : list LogEntry :=
  match l with
  | [] => [e]
  | x :: rest =>
      if timestamp e <=? timestamp x then e :: l else x :: insert_by_timestamp e rest
  end.

(** [order: [['timestamp', 'ASC']]]; rows with equal timestamps keep their
    insertion order. *)
Definition order_by_timestamp (l : list LogEntry) : list LogEntry :=
  fold_right insert_by_timestamp [] l.

(** [_getUnverifiedBatch] (lines 178-184) *)
Definition _getUnverifiedBatch (w : World) : list LogEntry :=
  firstn 100 (order_by_timestamp (List.filter (fun e => negb (verified e)) (rows w))).

Definition findByPk (entryId : string) (w : World) : option LogEntry :=
  List.find (fun e => String.eqb (id e) entryId) (rows w).

(** [LogEntry.update({ blockchainTxId, verified: true }, { where: { id: ids } })];
    an [undefined] value leaves its column alone. *)
Definition mark_verified (tx_hash : JsVal) (ids : list string) (e : LogEntry) : LogEntry :=
  if existsb (String.eqb (id e)) ids then
    {| id := id e; timestamp := timestamp e; userId := userId e; action := action e;
       resourceType := resourceType e; resourceId := resourceId e;
       ipAddress := ipAddress e; userAgent := userAgent e; queryParams := queryParams e;
       dataHash := dataHash e;
       blockchainTxId := match tx_hash with
                         | JUndefined => blockchainTxId e
                         | _ => tx_hash
                         end;
       verified := true |}
  else e.

(** *** Blockchain anchoring (lines 69-86) *)

Definition blockchain_submitAuditBatch (s : Submission) : Eff World JsVal :=
  fun w =>
    let w' := record_submission s w in
    match submitAuditBatch w s with
    | Answer tx_hash => (Return tx_hash, w')
    | Unavailable msg => (Throw (AnchorError msg), w')
    end.

(** The threshold test of line 72. *)
Definition batch_due (now : Z) (batch : list LogEntry) : bool :=
  (5 <=? List.length batch)%nat
  || match batch with
     | first :: _ => 600000 <? now - timestamp first
     | [] => false
     end.

Definition _anchorToBlockchain (entry : LogEntry) : Eff World unit :=
  bind (gets BLOCKCHAIN_AUDIT) (fun flag =>
  if strict_eq flag (JStr "true") then
    bind (gets _getUnverifiedBatch) (fun batch =>
    bind (gets app_now) (fun now =>
    if batch_due now batch then
      bind (lift (_calculateMerkleRoot batch)) (fun root =>
      bind (gets HOSPITAL_ID) (fun hospital =>
      bind (blockchain_submitAuditBatch
              {| hospitalId := hospital; merkleRoot := root;
                 entries := List.map id batch |}) (fun tx_hash =>
      modify (with_rows (List.map (mark_verified tx_hash (List.map id batch)))))))
    else ret tt))
  else ret tt).

(** *** [LogEntry.create] with its [afterCreate] hook (lines 33-37) *)

Definition actions : list string := ["READ"; "WRITE"; "DELETE"; "PREDICT"; "LOGIN"; "EXPORT"].

(** The ENUM column accepts one of its values. *)
Definition valid_action (a : string) : bool := existsb (String.eqb a) actions.

(** What a column holds for a value handed to [create]: [undefined] is
    stored as NULL. *)
Definition stored (v : JsVal) : JsVal :=
  match v with
  | JUndefined => JNull
  | _ => v
  end.

Record Values : Type := {
  v_userId : string;
  v_action : string;
  v_resourceType : JsVal;
  v_resourceId : JsVal;
  v_ipAddress : JsVal;
  v_userAgent : JsVal;
  v_queryParams : JsVal;
  v_dataHash : JsVal
}.

Definition new_entry (v : Values) (uuid : string) (now : Z) : LogEntry :=
  {| id := uuid; timestamp := now; userId := v_userId v; action := v_action v;
     resourceType := stored (v_resourceType v); resourceId := stored (v_resourceId v);
     ipAddress := stored (v_ipAddress v); userAgent := stored (v_userAgent v);
     queryParams := stored (v_queryParams v); dataHash := stored (v_dataHash v);
     blockchainTxId := JNull; verified := false |}.

(** The row is inserted before the hook runs; a hook that throws makes
    [create] throw and leaves the row in the table. *)
Definition LogEntry_create (v : Values) : Eff World LogEntry :=
  bind draw_uuid (fun uuid =>
  bind (gets db_now) (fun now =>
  bind (gets rows) (fun table =>
  if negb (valid_action (v_action v)) then
    throw (DatabaseError "invalid input value for enum")
  else if existsb (fun e => String.eqb (id e) uuid) table then
    throw (DatabaseError "duplicate key value violates unique constraint")
  else
    let entry := new_entry v uuid now in
    bind (modify (with_rows (fun table => (table ++ [entry])%list))) (fun _ =>
    bind (_anchorToBlockchain entry) (fun _ =>
    ret entry))))).

(** *** Real-time monitoring (lines 100-113) *)

(** [entry[key]] on a model instance: its attributes; the timestamp is a
    [Date] object. *)
Definition entry_get (entry : LogEntry) (key : string) : JsVal :=
  if String.eqb key "id" then JStr (id entry)
  else if String.eqb key "timestamp" then JObj []
  else if String.eqb key "userId" then JStr (userId entry)
  else if String.eqb key "action" then JStr (action entry)
  else if String.eqb key "resourceType" then resourceType entry
  else if String.eqb key "resourceId" then resourceId entry
  else if String.eqb key "ipAddress" then ipAddress entry
  else if String.eqb key "userAgent" then userAgent entry
  else if String.eqb key "queryParams" then queryParams entry
  else if String.eqb key "dataHash" then dataHash entry
  else if String.eqb key "blockchainTxId" then blockchainTxId entry
  else if String.eqb key "verified" then JBool (verified entry)
  else JUndefined.

(** The instance's [toJSON]. *)
Definition entry_json (entry : LogEntry) : JsVal :=
  JObj [("id", JStr (id entry)); ("timestamp", JStr (to_iso_string (timestamp entry)));
        ("userId", JStr (userId entry)); ("action", JStr (action entry));
        ("resourceType", resourceType entry); ("resourceId", resourceId entry);
        ("ipAddress", ipAddress entry); ("userAgent", userAgent entry);
        ("queryParams", queryParams entry); ("dataHash", dataHash entry);
        ("blockchainTxId", blockchainTxId entry); ("verified", JBool (verified entry))].

Definition _matchesFilters (entry : LogEntry) (filters : JsVal) : bool :=
  forallb (fun kv =>
             strict_eq (entry_get entry (fst kv)) (snd kv)
             || match snd kv with
                | JArr values => existsb (strict_eq (entry_get entry (fst kv))) values
                | _ => false
                end)
          (Js.entries filters).

Definition frame (eventType : string) (data : LogEntry) : string :=
  match stringify (JObj [("eventType", JStr eventType); ("data", entry_json data)]) with
  | Some s => s
  | None => ""
  end.

(** [this.wss.clients.forEach(...)], from client number [i] on. *)
Fixpoint notify_from (i : nat) (cs : list WsClient) (eventType : string) (data : LogEntry)
  : Eff World unit :=
  match cs with
  | [] => ret tt
  | client :: rest =>
      if (readyState client =? 1)
         && (negb (truthy (filters client)) || _matchesFilters data (filters client))
      then
        match send client (frame eventType data) with
        | Some msg => throw (SocketError msg)
        | None =>
            bind (modify (record_delivery i (frame eventType data))) (fun _ =>
            notify_from (S i) rest eventType data)
        end
      else notify_from (S i) rest eventType data
  end.

Definition _notifyClients (eventType : string) (data : LogEntry) : Eff World unit :=
  bind (gets clients) (fun cs => notify_from 0 cs eventType data).

(** *** Core logging method (lines 52-66) *)

(** The default parameter [metadata = {}]. *)
Definition or_empty (metadata : JsVal) : JsVal :=
  match metadata with
  | JUndefined => JObj []
  | _ => metadata
  end.

Definition log (userId action : string) (metadata : JsVal) : Eff World LogEntry :=
  let metadata := or_empty metadata in
  bind (lift (get metadata "resourceType")) (fun resourceType =>
  bind (lift (get metadata "resourceId")) (fun resourceId =>
  bind (lift (get metadata "ip")) (fun ip =>
  bind (lift (get metadata "userAgent")) (fun userAgent =>
  bind (lift (get metadata "query")) (fun query =>
  bind (lift (get metadata "data")) (fun data =>
  bind (if truthy data
        then bind (lift (_hashData data)) (fun h => ret (JStr h))
        else ret JNull) (fun dataHash =>
  bind (LogEntry_create
          {| v_userId := userId; v_action := action; v_resourceType := resourceType;
             v_resourceId := resourceId; v_ipAddress := ip; v_userAgent := userAgent;
             v_queryParams := query; v_dataHash := dataHash |}) (fun entry =>
  bind (_notifyClients "NEW_ENTRY" entry) (fun _ =>
  ret entry))))))))).

(** The world in which the [afterCreate] hook of a new row [e] runs. *)
Definition inserted (e : LogEntry) (w : World) : World :=
  with_rows (fun table => (table ++ [e])%list) (snd (draw_uuid w)).

(** The test of lines 70 and 72: the batcher will go to the anchor. *)
Definition anchoring_due (w : World) : bool :=
  strict_eq (BLOCKCHAIN_AUDIT w) (JStr "true")
  && batch_due (app_now w) (_getUnverifiedBatch w).

(** What [log] stores for [metadata.data]: its digest, or null. *)
Definition data_digest (data : JsVal) : JsVal :=
  if truthy data then
    match stringify data with
    | Some json => JStr (Sha256.sha256_hex json)
    | None => JNull
    end
  else JNull.

(** The values [log] hands to [create]. *)
Definition values_of (userId action : string) (metadata : JsVal) : Values :=
  let metadata := or_empty metadata in
  {| v_userId := userId; v_action := action;
     v_resourceType := prop metadata "resourceType";
     v_resourceId := prop metadata "resourceId";
     v_ipAddress := prop metadata "ip";
     v_userAgent := prop metadata "userAgent";
     v_queryParams := prop metadata "query";
     v_dataHash := data_digest (prop metadata "data") |}.

(** *** Verification (lines 116-127) *)

Definition blockchain_verifyTransaction (tx : JsVal) (hash : string) : Eff World bool :=
  fun w =>
    match verifyTransaction w tx hash with
    | Answer b => (Return b, w)
    | Unavailable msg => (Throw (AnchorError msg), w)
    end.

Definition verifyEntry (entryId : string) : Eff World bool :=
  bind (gets (findByPk entryId)) (fun found =>
  match found with
  | None => throw (Error "Entry not found")
  | Some entry =>
      if truthy (blockchainTxId entry)
      then blockchain_verifyTransaction (blockchainTxId entry) (_hashEntry entry)
      else ret false
  end).

(** *** Histories *)

(** What a row holds from its creation on: every column but the anchoring
    pair [blockchainTxId], [verified]. *)
Definition content (e : LogEntry) :=
  (id e, timestamp e, userId e, action e, resourceType e, resourceId e, ipAddress e,
   userAgent e, queryParams e, dataHash e).

(** The worlds an audit trail goes through: it starts with an empty table,
    [log] is called, and between calls anything but the table may change. *)
Inductive history : World -> Prop :=
| history_start (w : World) : rows w = [] -> history w
| history_log (u a : string) (m : JsVal) (w : World) :
    history w -> history (snd (log u a m w))
| history_env (w w' : World) : history w -> rows w' = rows w -> history w'.

(** *** The specification's reading of the Merkle root *)





(** *** The other queries (lines 129-150) *)

(** [Promise.all(ids.map(id => this.verifyEntry(id)))]: the answers in the
    order of the ids.  [verifyEntry] changes nothing, so the calls do not
    affect one another; of several that fail, the first in this order is
    taken to be the one that rejects the promise. *)
Fixpoint verify_each (ids : list string) : Eff World (list bool) :=
  match ids with
  | [] => ret []
  | entryId :: rest =>
      bind (verifyEntry entryId) (fun answer =>
      bind (verify_each rest) (fun answers =>
      ret (answer :: answers)))
  end.

(** [verifyAllRecent] (lines 129-132) *)
Definition verifyAllRecent : Eff World (list bool) :=
  bind (gets _getUnverifiedBatch) (fun unverified =>
  verify_each (List.map id unverified)).

Fixpoint insert_newest_first (e : LogEntry) (l : list LogEntry) : list LogEntry :=
  match l with
  | [] => [e]
  | x :: rest =>
      if timestamp x <=? timestamp e then e :: l else x :: insert_newest_first e rest
  end.

(** [order: [['timestamp', 'DESC']]]; rows with equal timestamps keep their
    insertion order. *)
Definition order_newest_first (l : list LogEntry) : list LogEntry :=
  fold_right insert_newest_first [] l.

(** [where: { resourceType, resourceId }] for two strings. *)
Definition about (type_ id_ : string) (e : LogEntry) : bool :=
  strict_eq (resourceType e) (JStr type_) && strict_eq (resourceId e) (JStr id_).

(** [getAccessHistory] (lines 135-141), called with two strings. *)
Definition getAccessHistory (type_ id_ : string) (w : World) : list LogEntry :=
  firstn 100 (order_newest_first (List.filter (about type_ id_) (rows w))).



Definition unverified (e : LogEntry) : bool := negb (verified e).

Definition older (a b : LogEntry) : Prop := timestamp a <= timestamp b.
Definition newer (a b : LogEntry) : Prop := timestamp b <= timestamp a.

(** A row that is not verified has no transaction id. *)
Definition unanchored (e : LogEntry) : Prop :=
  verified e = false -> blockchainTxId e = JNull.

End AuditLog.

(** ** [aesService.js] as bundled with [keyManagement.js]: chunked AES-256-GCM *)

Module AesService.
Import Js.

(** What [this.keyRegistry] holds for a key id (lines 523-531, 555-559,
    710-713). *)
Record KeyInfo : Type := {
  keySize : Z;
  keyType : string;
  ownerId : option string;
  quantumSalt : list Z;
  createdAt : Z;
  lastUsed : option Z;
  rotationSchedule : string;
  status : option string;       (* set by rotateKey only *)
  deprecatedAt : option Z
}.

(** Node's [aes-256-gcm].  [seal key iv aad text] is [createCipheriv],
    [setAAD], [update], [final] and [getAuthTag]: the ciphertext and the tag.
    [unseal key iv tag aad ciphertext] is [createDecipheriv], [setAuthTag],
    [setAAD], [update] and [final]: the text, or the failure [final] throws
    when the tag does not verify. *)
Record Gcm : Type := {
  seal : list Z -> list Z -> option string -> string -> Ext (list Z * list Z);
  unseal : list Z -> list Z -> list Z -> option string -> list Z -> Ext string
}.

Record World : Type := {
  keyRegistry : gmap string KeyInfo;
  now : Z;
  randomBytes : nat -> nat -> list Z;      (* draw number, size *)
  randomUUID : nat -> string;
  drawn : nat;
  cipher : Gcm;
  kd_generateKey : Z -> string -> option (list Z) -> Ext (list Z * list Z);
                                           (* length, context, salt: key, quantumSalt *)
  kd_deriveKey : Z -> list Z -> string -> Ext (list Z);
  audit_log : string -> JsVal -> Ext unit;
  audited : list (string * JsVal)
}.

Definition with_registry (f : gmap string KeyInfo -> gmap string KeyInfo) (w : World)
  : World :=
  {| keyRegistry := f (keyRegistry w); now := now w; randomBytes := randomBytes w;
     randomUUID := randomUUID w; drawn := drawn w; cipher := cipher w;
     kd_generateKey := kd_generateKey w; kd_deriveKey := kd_deriveKey w;
     audit_log := audit_log w; audited := audited w |}.

Definition next_draw (w : World) : World :=
  {| keyRegistry := keyRegistry w; now := now w; randomBytes := randomBytes w;
     randomUUID := randomUUID w; drawn := S (drawn w); cipher := cipher w;
     kd_generateKey := kd_generateKey w; kd_deriveKey := kd_deriveKey w;
     audit_log := audit_log w; audited := audited w |}.

Definition crypto_randomBytes (size : nat) : Eff World (list Z) :=
  fun w => (Return (randomBytes w (drawn w) size), next_draw w).

Definition crypto_randomUUID : Eff World string :=
  fun w => (Return (randomUUID w (drawn w)), next_draw w).

Definition audit (event : string) (details : JsVal) : Eff World unit :=
  fun w =>
    let w' := {| keyRegistry := keyRegistry w; now := now w; randomBytes := randomBytes w;
                 randomUUID := randomUUID w; drawn := drawn w; cipher := cipher w;
                 kd_generateKey := kd_generateKey w; kd_deriveKey := kd_deriveKey w;
                 audit_log := audit_log w;
                 audited := (audited w ++ [(event, details)])%list |} in
    match audit_log w event details with
    | Answer _ => (Return tt, w')
    | Unavailable msg => (Throw (AuditError msg), w)
    end.

Definition owner_or_system (ownerId : option string) : string :=
  match ownerId with
  | Some o => if String.eqb o "" then "system" else o
  | None => "system"
  end.

Definition context_of (info : KeyInfo) : string :=
  "aes-" +:+ keyType info +:+ "-" +:+ owner_or_system (ownerId info).

(** [_getRotationSchedule] (lines 721-729) *)
Definition _getRotationSchedule (keyType : string) : string :=
  if String.eqb keyType "patient-data" then "30d"
  else if String.eqb keyType "system-master" then "1y"
  else if String.eqb keyType "audit-logs" then "90d"
  else if String.eqb keyType "phi-temporary" then "24h"
  else "30d".

Record Metadata : Type := {
  m_keySize : option Z;
  m_keyType : option string;
  m_ownerId : option string
}.

(** [generateKey] (lines 512-541) *)
Definition generateKey (metadata : Metadata) : Eff World (list Z * string) :=
  let keySize := default 256 (m_keySize metadata) in
  let keyType := default "patient-data" (m_keyType metadata) in
  let ownerId := m_ownerId metadata in
  bind (gets (fun w => kd_generateKey w keySize
                         ("aes-" +:+ keyType +:+ "-" +:+ owner_or_system ownerId) None))
       (fun derived =>
  match derived with
  | Unavailable msg => throw (VaultError msg)
  | Answer (key, quantumSalt) =>
      bind crypto_randomUUID (fun keyId =>
      bind (gets now) (fun today =>
      bind (modify (with_registry
                      (insert keyId
                         {| keySize := keySize; keyType := keyType; ownerId := ownerId;
                            quantumSalt := quantumSalt; createdAt := today;
                            lastUsed := None;
                            rotationSchedule := _getRotationSchedule keyType;
                            status := None; deprecatedAt := None |}))) (fun _ =>
      bind (audit "KEY_GENERATED"
                  (JObj [("keyId", JStr keyId); ("keyType", JStr keyType);
                         ("ownerId", match ownerId with
                                     | Some o => JStr o
                                     | None => JUndefined
                                     end);
                         ("quantumSalt",
                          JStr (String.substring 0 8 (hex_encode quantumSalt) +:+ "..."))]))
           (fun _ =>
      ret (key, keyId)))))
  end).

(** [rotateKey] (lines 543-567) *)
Definition rotateKey (keyId : string) : Eff World (list Z * string) :=
  bind (gets (fun w => keyRegistry w !! keyId)) (fun found =>
  match found with
  | None => throw (Error "Key not found")
  | Some keyInfo =>
      bind (gets (fun w => kd_generateKey w (keySize keyInfo) (context_of keyInfo)
                             (Some (quantumSalt keyInfo)))) (fun derived =>
      match derived with
      | Unavailable msg => throw (VaultError msg)
      | Answer _ =>
          bind (gets now) (fun today =>
          bind (modify (with_registry
                          (insert keyId
                             {| keySize := keySize keyInfo; keyType := keyType keyInfo;
                                ownerId := ownerId keyInfo;
                                quantumSalt := quantumSalt keyInfo;
                                createdAt := createdAt keyInfo;
                                lastUsed := lastUsed keyInfo;
                                rotationSchedule := rotationSchedule keyInfo;
                                status := Some "deprecated";
                                deprecatedAt := Some today |}))) (fun _ =>
          generateKey {| m_keySize := Some (keySize keyInfo);
                         m_keyType := Some (keyType keyInfo);
                         m_ownerId := ownerId keyInfo |}))
      end)
  end).

(** [_prepareKeyAndIV] (lines 698-719) *)
Definition _prepareKeyAndIV (keyId : string) : Eff World (list Z * list Z) :=
  bind (gets (fun w => keyRegistry w !! keyId)) (fun found =>
  match found with
  | None => throw (Error "Invalid key ID")
  | Some keyInfo =>
      bind (gets (fun w => kd_deriveKey w (keySize keyInfo) (quantumSalt keyInfo)
                             (context_of keyInfo))) (fun derived =>
      match derived with
      | Unavailable msg => throw (VaultError msg)
      | Answer key =>
          bind (gets now) (fun today =>
          bind (modify (with_registry
                          (insert keyId
                             {| keySize := keySize keyInfo; keyType := keyType keyInfo;
                                ownerId := ownerId keyInfo;
                                quantumSalt := quantumSalt keyInfo;
                                createdAt := createdAt keyInfo; lastUsed := Some today;
                                rotationSchedule := rotationSchedule keyInfo;
                                status := status keyInfo;
                                deprecatedAt := deprecatedAt keyInfo |}))) (fun _ =>
          bind (crypto_randomBytes 12) (fun iv =>
          ret (key, iv))))
      end)
  end).

(** [_chunkData] (lines 732-738): the chunk starting at [i] and those after
    it.  The loop advances by [chunkSize], which is positive here. *)
Fixpoint chunks_from (fuel : nat) (data : string) (chunkSize : nat) (i : nat)
  : list string :=
  match fuel with
  | O => []
  | S fuel' =>
      if (i <? String.length data)%nat
      then String.substring i chunkSize data
           :: chunks_from fuel' data chunkSize (i + chunkSize)
      else []
  end.

Definition _chunkData (data : string) (chunkSize : positive) : list string :=
  chunks_from (String.length data) data (Pos.to_nat chunkSize) 0.

Record Options : Type := {
  chunkSize : option positive;       (* in KiB; a size that is not positive
                                        would keep [_chunkData] looping *)
  encodeOutput : option string;
  encodeInput : option string;
  contextData : JsVal
}.

(** One element of the envelope (lines 599-604). *)
Record Chunk : Type := {
  data : string;
  tag : string;
  iv : string;
  chunkInfo : nat * nat        (* index, total *)
}.

(** What [encrypt] returns and [decrypt] takes: one chunk, or an array. *)
Inductive Envelope : Type :=
| Single (chunk : Chunk)
| Many (chunks : list Chunk).

(** The associated data of chunk [index] (lines 587-592, 639-644). *)
Definition aad (index : nat) (contextData : JsVal) : option string :=
  if truthy contextData
  then stringify (JObj (spread [("chunkIndex", JNum (Z.of_nat index))] contextData))
  else None.

(** Lines 584-604: one pass of the loop up to the [push]. *)
Definition encrypt_chunk (key nonce : list Z) (contextData : JsVal) (encodeOutput : string)
           (index total : nat) (chunk : string) : Eff World Chunk :=
  bind (gets cipher) (fun gcm =>
  match seal gcm key nonce (aad index contextData) chunk with
  | Unavailable msg => throw (CipherError msg)
  | Answer (ciphertext, authTag) =>
      bind (lift (encode encodeOutput ciphertext)) (fun encrypted =>
      bind (lift (encode encodeOutput authTag)) (fun encodedTag =>
      ret {| data := encrypted; tag := encodedTag; iv := hex_encode nonce;
             chunkInfo := (index, total) |}))
  end).

(** The loop of lines 583-608.  [iv] was bound by the [const] destructuring
    of line 571, so the assignment of line 607 throws once the fresh bytes
    are drawn. *)
Fixpoint encrypt_chunks (key nonce : list Z) (contextData : JsVal) (encodeOutput : string)
         (index total : nat) (chunks : list string) (encryptedChunks : list Chunk)
         {struct chunks} : Eff World (list Chunk) :=
  match chunks with
  | [] => ret encryptedChunks
  | chunk :: rest =>
      bind (encrypt_chunk key nonce contextData encodeOutput index total chunk) (fun c =>
      bind (crypto_randomBytes 12) (fun fresh =>
      bind (lift (assign_const "iv" fresh)) (fun nonce' =>
      encrypt_chunks key nonce' contextData encodeOutput (S index) total rest
                     (encryptedChunks ++ [c])%list)))
  end.

Definition or_null (v : JsVal) : JsVal := if truthy v then v else JNull.

(** [encrypt] (lines 570-618); [data] is a string, so the check of line 575
    passes. *)
Definition encrypt (text : string) (keyId : string) (options : Options)
  : Eff World Envelope :=
  bind (_prepareKeyAndIV keyId) (fun key_iv =>
  let chunks := _chunkData text (default 64%positive (chunkSize options) * 1024) in
  bind (encrypt_chunks (fst key_iv) (snd key_iv) (contextData options)
                       (default "base64" (encodeOutput options))
                       0 (List.length chunks) chunks []) (fun encryptedChunks =>
  bind (audit "DATA_ENCRYPTED"
              (JObj [("keyId", JStr keyId);
                     ("dataLength", JNum (Z.of_nat (String.length text)));
                     ("chunks", JNum (Z.of_nat (List.length encryptedChunks)));
                     ("context", or_null (contextData options))])) (fun _ =>
  ret (match chunks, encryptedChunks with
       | [_], c :: _ => Single c
       | _, _ => Many encryptedChunks
       end)))).

(** Lines 629-647: one pass of the loop of [decrypt]. *)
Definition decrypt_chunk (key : list Z) (contextData : JsVal) (encodeInput : string)
           (chunk : Chunk) : Eff World string :=
  bind (lift (decode encodeInput (tag chunk))) (fun authTag =>
  bind (lift (decode encodeInput (data chunk))) (fun ciphertext =>
  bind (gets cipher) (fun gcm =>
  match unseal gcm key (hex_decode (iv chunk)) authTag
               (aad (fst (chunkInfo chunk)) contextData) ciphertext with
  | Unavailable msg => throw (CipherError msg)
  | Answer text => ret text
  end))).

Fixpoint decrypt_chunks (key : list Z) (contextData : JsVal) (encodeInput : string)
         (chunks : list Chunk) (decrypted : string) : Eff World string :=
  match chunks with
  | [] => ret decrypted
  | chunk :: rest =>
      bind (decrypt_chunk key contextData encodeInput chunk) (fun text =>
      decrypt_chunks key contextData encodeInput rest (decrypted +:+ text))
  end.

(** The cipher's verdict on a chunk, under a key and a context: the text it
    authenticates, or the message of its failure. *)
Definition accepts (gcm : Gcm) (key : list Z) (contextData : JsVal) (encodeInput : string)
           (chunk : Chunk) (text : string) : Prop :=
  exists authTag ciphertext,
    decode encodeInput (tag chunk) = Return authTag
    /\ decode encodeInput (data chunk) = Return ciphertext
    /\ unseal gcm key (hex_decode (iv chunk)) authTag
              (aad (fst (chunkInfo chunk)) contextData) ciphertext = Answer text.

Definition rejects (gcm : Gcm) (key : list Z) (contextData : JsVal) (encodeInput : string)
           (chunk : Chunk) (msg : string) : Prop :=
  exists authTag ciphertext,
    decode encodeInput (tag chunk) = Return authTag
    /\ decode encodeInput (data chunk) = Return ciphertext
    /\ unseal gcm key (hex_decode (iv chunk)) authTag
              (aad (fst (chunkInfo chunk)) contextData) ciphertext = Unavailable msg.

Definition chunks_of (encryptedData : Envelope) : list Chunk :=
  match encryptedData with
  | Single chunk => [chunk]
  | Many chunks => chunks
  end.

(** [decrypt] (lines 620-657) *)
Definition decrypt (encryptedData : Envelope) (keyId : string) (options : Options)
  : Eff World string :=
  bind (_prepareKeyAndIV keyId) (fun key_iv =>
  bind (decrypt_chunks (fst key_iv) (contextData options)
                       (default "base64" (encodeInput options))
                       (chunks_of encryptedData) "") (fun decrypted =>
  bind (audit "DATA_DECRYPTED"
              (JObj [("keyId", JStr keyId);
                     ("dataLength", JNum (Z.of_nat (String.length decrypted)));
                     ("context", or_null (contextData options))])) (fun _ =>
  ret decrypted))).

(** *** FHIR resources (lines 660-683) *)

Section Resources.

(** [_createProvenance] (lines 741-764) goes through the FHIR server and the
    signing service: what it does with a resource type, a resource id, a key
    id and an action. *)
Variable _createProvenance : JsVal -> JsVal -> string -> string -> Eff World JsVal.

(** The options [encryptResource] hands to [encrypt]. *)
Definition resource_options (resourceType : JsVal) : Options :=
  {| chunkSize := Some 32%positive; encodeOutput := None; encodeInput := None;
     contextData := JObj [("resourceType", resourceType); ("fhirVersion", JStr "R4");
                          ("securityTags", JArr [JStr "PHI"; JStr "CONFIDENTIAL"])] |}.

(** [encryptResource] (lines 660-683).  [JSON.stringify] answers [undefined]
    for a resource without a JSON form; [encrypt] then prepares the key and
    fails its [typeof] check (lines 570-577). *)
Definition encryptResource (resourceType resource : JsVal) (keyId : string)
  : Eff World (Envelope * JsVal) :=
  match stringify resource with
  | Some resourceStr =>
      bind (encrypt resourceStr keyId (resource_options resourceType)) (fun encrypted =>
      bind (lift (get resource "id")) (fun resourceId =>
      bind (_createProvenance resourceType resourceId keyId "encrypt") (fun provenance =>
      ret (encrypted, provenance))))
  | None =>
      bind (_prepareKeyAndIV keyId) (fun _ => throw (Error "Data must be a string"))
  end.

End Resources.

End AesService.

(** ** [src/backend/aesService.js]: the AES-256-CBC service *)

Module AesCbc.
Import Js.

(** Node's [aes-256-cbc] with its default PKCS#7 padding. *)
Definition pad (text : list Z) : list Z :=
  let n := 16 - Z.of_nat (List.length text) mod 16 in
  (text ++ repeat n (Z.to_nat n))%list.

Definition unpad (padded : list Z) : option (list Z) :=
  let n := List.last padded 0 in
  let len := List.length padded in
  if (1 <=? n) && (n <=? 16) && (Z.to_nat n <=? len)%nat
     && forallb (Z.eqb n) (skipn (len - Z.to_nat n) padded)
  then Some (firstn (len - Z.to_nat n) padded)
  else None.

Fixpoint cbc_encrypt (blocks : nat) (key previous text : list Z) : list Z :=
  match blocks with
  | O => []
  | S blocks' =>
      let block := Aes256.encrypt_block key (Aes256.xor_bytes (firstn 16 text) previous) in
      (block ++ cbc_encrypt blocks' key block (skipn 16 text))%list
  end.

Fixpoint cbc_decrypt (blocks : nat) (key previous ciphertext : list Z) : list Z :=
  match blocks with
  | O => []
  | S blocks' =>
      let block := firstn 16 ciphertext in
      (Aes256.xor_bytes (Aes256.decrypt_block key block) previous
       ++ cbc_decrypt blocks' key block (skipn 16 ciphertext))%list
  end.

(** [createCipheriv] and [createDecipheriv] check the sizes of key and
    initialisation vector. *)
Definition check_sizes (key iv : list Z) : Outcome unit :=
  if negb (List.length key =? 32)%nat then Throw (CipherError "Invalid key length")
  else if negb (List.length iv =? 16)%nat
       then Throw (CipherError "Invalid initialization vector")
  else Return tt.

(** The random bytes [encrypt] draws its initialisation vectors from. *)
Record World : Type := {
  randomBytes : nat -> nat -> list Z;     (* draw number, size *)
  drawn : nat
}.

(** [encrypt] (lines 15-21): the vector and the ciphertext, in hex. *)
Definition encrypt (text key : string) : Eff World (string * string) :=
  fun w =>
    let iv := randomBytes w (drawn w) 16 in
    let w' := {| randomBytes := randomBytes w; drawn := S (drawn w) |} in
    match check_sizes (hex_decode key) iv with
    | Throw x => (Throw x, w')
    | Return _ =>
        let padded := pad (bytes_of_string text) in
        (Return (hex_encode iv,
                 hex_encode (cbc_encrypt (List.length padded / 16) (hex_decode key) iv
                                         padded)), w')
    end.

(** [decrypt] (lines 23-32).  The text is given by its UTF-8 bytes; where
    these are not valid UTF-8, Node puts U+FFFD in their place. *)
Definition decrypt (encryptedData key iv : string) : Outcome string :=
  obind (check_sizes (hex_decode key) (hex_decode iv)) (fun _ =>
  let ciphertext := hex_decode encryptedData in
  if (List.length ciphertext =? 0)%nat || negb (List.length ciphertext mod 16 =? 0)%nat
  then Throw (CipherError "wrong final block length")
  else
    match unpad (cbc_decrypt (List.length ciphertext / 16) (hex_decode key)
                             (hex_decode iv) ciphertext) with
    | Some text => Return (string_of_bytes text)
    | None => Throw (CipherError "bad decrypt")
    end).

End AesCbc.

(** ** [keyManagement.js]: the key management service *)

Module KeyManagement.
Import Js.

(** What [this.keyCache] holds for a key id (lines 54-57, 170-173). *)
Record Cached : Type := {
  privateKey : JsVal;
  expiresAt : Z
}.

(** The service's cache and clock, the FHIR server's resources, and the
    behaviour of the key vault, the ledger and the audit log it calls. *)
Record World : Type := {
  keyCache : gmap string Cached;
  now : Z;                                   (* Date.now() *)
  resources : list JsVal;                    (* held by the FHIR server *)
  fhir_up : bool;
  randomUUID : nat -> string;
  randomBytes : nat -> nat -> list Z;        (* draw number, size *)
  drawn : nat;
  SYSTEM_DEVICE_ID : JsVal;                  (* process.env *)
  SYSTEM_SIGNING_KEY : JsVal;
  vault_generateKeyMaterial : JsVal -> JsVal -> Ext JsVal;      (* length, context *)
  vault_retrievePrivateKey : string -> JsVal -> string -> Ext JsVal;
  vault_sign : string -> JsVal -> Ext JsVal;
  chain_submitKeyGeneration : JsVal -> Ext JsVal;
  chain_revokeKey : string -> JsVal -> Ext unit;
  audit_log : string -> JsVal -> Ext unit
}.

Definition with_cache (f : gmap string Cached -> gmap string Cached) (w : World) : World :=
  {| keyCache := f (keyCache w); now := now w; resources := resources w;
     fhir_up := fhir_up w; randomUUID := randomUUID w; randomBytes := randomBytes w;
     drawn := drawn w; SYSTEM_DEVICE_ID := SYSTEM_DEVICE_ID w;
     SYSTEM_SIGNING_KEY := SYSTEM_SIGNING_KEY w;
     vault_generateKeyMaterial := vault_generateKeyMaterial w;
     vault_retrievePrivateKey := vault_retrievePrivateKey w; vault_sign := vault_sign w;
     chain_submitKeyGeneration := chain_submitKeyGeneration w;
     chain_revokeKey := chain_revokeKey w; audit_log := audit_log w |}.

Definition with_resources (f : list JsVal -> list JsVal) (w : World) : World :=
  {| keyCache := keyCache w; now := now w; resources := f (resources w);
     fhir_up := fhir_up w; randomUUID := randomUUID w; randomBytes := randomBytes w;
     drawn := drawn w; SYSTEM_DEVICE_ID := SYSTEM_DEVICE_ID w;
     SYSTEM_SIGNING_KEY := SYSTEM_SIGNING_KEY w;
     vault_generateKeyMaterial := vault_generateKeyMaterial w;
     vault_retrievePrivateKey := vault_retrievePrivateKey w; vault_sign := vault_sign w;
     chain_submitKeyGeneration := chain_submitKeyGeneration w;
     chain_revokeKey := chain_revokeKey w; audit_log := audit_log w |}.

Definition next_draw (w : World) : World :=
  {| keyCache := keyCache w; now := now w; resources := resources w;
     fhir_up := fhir_up w; randomUUID := randomUUID w; randomBytes := randomBytes w;
     drawn := S (drawn w); SYSTEM_DEVICE_ID := SYSTEM_DEVICE_ID w;
     SYSTEM_SIGNING_KEY := SYSTEM_SIGNING_KEY w;
     vault_generateKeyMaterial := vault_generateKeyMaterial w;
     vault_retrievePrivateKey := vault_retrievePrivateKey w; vault_sign := vault_sign w;
     chain_submitKeyGeneration := chain_submitKeyGeneration w;
     chain_revokeKey := chain_revokeKey w; audit_log := audit_log w |}.

(** *** The collaborators *)

(** A call to a collaborator: its answer, or its failure as an exception. *)
Definition call {A} (failure : string -> Exn) (request : World -> Ext A) : Eff World A :=
  fun w => match request w with
           | Answer a => (Return a, w)
           | Unavailable msg => (Throw (failure msg), w)
           end.

Definition crypto_randomUUID : Eff World string :=
  fun w => (Return (randomUUID w (drawn w)), next_draw w).

Definition crypto_randomBytes (size : nat) : Eff World (list Z) :=
  fun w => (Return (randomBytes w (drawn w) size), next_draw w).

(** The FHIR server: [create] stores the resource under a new id and answers
    what it stored; [search] answers the devices one of whose identifiers
    has the value asked for, oldest first; [update] replaces the resource
    that has the id. *)
Definition props_of (v : JsVal) : list (string * JsVal) :=
  match v with
  | JObj props => props
  | _ => []
  end.

Definition fhir_create (resourceType : string) (body : JsVal) : Eff World JsVal :=
  fun w =>
    if fhir_up w then
      let stored :=
        JObj (assign "id" (JStr (resourceType +:+ "-"
                                 +:+ dec (Z.of_nat (S (List.length (resources w))))))
                     (assign "resourceType" (JStr resourceType) (props_of body))) in
      (Return stored, with_resources (fun rs => (rs ++ [stored])%list) w)
    else (Throw (FhirError "FHIR server unreachable"), w).

Definition has_identifier (value : string) (resource : JsVal) : bool :=
  strict_eq (prop resource "resourceType") (JStr "Device")
  && match prop resource "identifier" with
     | JArr ids => existsb (fun i => strict_eq (prop i "value") (JStr value)) ids
     | _ => false
     end.

Definition fhir_search_device (identifier : string) : Eff World JsVal :=
  fun w =>
    if fhir_up w then
      (Return (JObj [("resourceType", JStr "Bundle");
                     ("entry",
                      JArr (List.map (fun r => JObj [("resource", r)])
                                     (List.filter (has_identifier identifier)
                                                  (resources w))))]), w)
    else (Throw (FhirError "FHIR server unreachable"), w).

Definition fhir_update (resource : JsVal) : Eff World JsVal :=
  fun w =>
    if fhir_up w then
      (Return resource,
       with_resources
         (List.map (fun r => if strict_eq (prop r "id") (prop resource "id")
                             then resource else r)) w)
    else (Throw (FhirError "FHIR server unreachable"), w).

(** *** Policies and tags (lines 410-443) *)

Definition policy (name : string) (maxLifetime : Z) (usageLimit : JsVal) : JsVal :=
  JObj [("name", JStr name); ("maxLifetime", JNum maxLifetime);
        ("usageLimit", usageLimit)].

Definition _getDefaultPolicy (keyType : JsVal) : JsVal :=
  if strict_eq keyType (JStr "data-encryption") then policy "default" 90 (JNum 1000)
  else if strict_eq keyType (JStr "authentication") then policy "strict" 30 (JNum 500)
  else if strict_eq keyType (JStr "audit-log") then policy "long-term" 365 JNull
  else policy "default" 90 (JNum 1000).

(** [policies[name] || this._getDefaultPolicy(keyType)], for names that are
    not members of [Object.prototype]. *)
Definition _getRotationPolicy (name keyType : JsVal) : JsVal :=
  if strict_eq name (JStr "default") then policy "default" 90 (JNum 1000)
  else if strict_eq name (JStr "strict") then policy "strict" 30 (JNum 500)
  else if strict_eq name (JStr "long-term") then policy "long-term" 365 JNull
  else if strict_eq name (JStr "ephemeral") then policy "ephemeral" 1 (JNum 10)
  else _getDefaultPolicy keyType.

Definition security_tag (code : string) : JsVal :=
  JArr [JObj [("system", JStr "http://hl7.org/fhir/security-tags"); ("code", JStr code)]].

Definition _getSecurityTags (keyType : JsVal) : JsVal :=
  if strict_eq keyType (JStr "data-encryption") then security_tag "CONFIDENTIAL"
  else if strict_eq keyType (JStr "authentication") then security_tag "AUTHENTICATION"
  else if strict_eq keyType (JStr "audit-log") then security_tag "INTEGRITY"
  else security_tag "CONFIDENTIAL".

(** *** Key metadata in the FHIR server (lines 304-408) *)

Definition key_metadata_url : string := "http://hl7.org/fhir/key-metadata".

(** [buffer.toString('base64')] *)
Definition to_base64 (v : JsVal) : Outcome JsVal :=
  match v with
  | JBuf bytes => Return (JStr (base64_encode bytes))
  | JUndefined =>
      Throw (TypeError "Cannot read properties of undefined (reading 'toString')")
  | JNull => Throw (TypeError "Cannot read properties of null (reading 'toString')")
  | _ => Return (JStr (to_string v))
  end.

(** [Buffer.from(text, 'base64')] *)
Definition from_base64 (v : JsVal) : Outcome JsVal :=
  match v with
  | JStr text => Return (JBuf (base64_decode text))
  | JBuf bytes => Return (JBuf bytes)
  | _ => Throw (TypeError "The first argument must be of type string or an instance of Buffer")
  end.

(** [_storeKeyMetadata] (lines 304-334) *)
Definition _storeKeyMetadata (keyMeta : JsVal) : Eff World JsVal :=
  bind (lift (get keyMeta "keyId")) (fun keyId =>
  bind (lift (get keyMeta "keyType")) (fun keyType =>
  bind (lift (get keyMeta "owner")) (fun owner =>
  bind (lift (get keyMeta "securityTags")) (fun securityTags =>
  bind (lift (get keyMeta "quantumFingerprint")) (fun quantumFingerprint =>
  bind (lift (obind (get keyMeta "rotationPolicy") (fun p => get p "name")))
       (fun policyName =>
  bind (lift (obind (get keyMeta "publicKey") to_base64)) (fun publicKey =>
  fhir_create "Device"
    (JObj [("resourceType", JStr "Device");
           ("identifier", JArr [JObj [("system", JStr "urn:ietf:rfc:3986");
                                      ("value", keyId)]]);
           ("type", JObj [("coding",
                           JArr [JObj [("system", JStr "http://hl7.org/fhir/key-types");
                                       ("code", keyType)]])]);
           ("owner", owner);
           ("meta", JObj [("tag", securityTags)]);
           ("extension",
            JArr [JObj [("url", JStr key_metadata_url);
                        ("extension",
                         JArr [JObj [("url", JStr "quantumFingerprint");
                                     ("valueString", quantumFingerprint)];
                               JObj [("url", JStr "rotationPolicy");
                                     ("valueString", policyName)];
                               JObj [("url", JStr "publicKey");
                                     ("valueString", publicKey)]])]])])))))))).

(** [keyExt.extension.find(e => e.url === url)] *)
Definition item (keyExt : JsVal) (url : string) : Outcome JsVal :=
  obind (get keyExt "extension") (fun items => find_by_url items url).

(** [_parseKeyMetadata] (lines 387-408) *)
Definition _parseKeyMetadata (device : JsVal) : Outcome JsVal :=
  obind (obind (get device "extension") (fun extension =>
           match extension with
           | JUndefined | JNull => Return JUndefined
           | _ => find_by_url extension key_metadata_url
           end)) (fun keyExt =>
  obind (get device "id") (fun deviceId =>
  obind (obind (obind (get device "identifier") (fun ids => index ids 0))
               (fun first => get first "value")) (fun keyId =>
  obind (obind (obind (obind (get device "type") (fun t => get t "coding"))
                      (fun coding => index coding 0))
               (fun first => get first "code")) (fun keyType =>
  obind (get device "owner") (fun owner =>
  obind (obind (obind (item keyExt "publicKey") (fun i => get i "valueString"))
               from_base64) (fun publicKey =>
  obind (obind (item keyExt "quantumFingerprint") (fun i => get i "valueString"))
        (fun quantumFingerprint =>
  obind (obind (item keyExt "rotationPolicy") (fun i => get i "valueString"))
        (fun policyName =>
  obind (obind (get device "meta") (fun meta => get meta "tag")) (fun securityTags =>
  obind (item keyExt "status") (fun statusItem =>
  Return
    (JObj [("deviceId", deviceId); ("keyId", keyId); ("keyType", keyType);
           ("owner", owner); ("publicKey", publicKey);
           ("quantumFingerprint", quantumFingerprint);
           ("rotationPolicy", _getRotationPolicy policyName JUndefined);
           ("securityTags", securityTags);
           ("status", if truthy (get_opt statusItem "valueString")
                      then get_opt statusItem "valueString"
                      else JStr "active")]))))))))))).

(** [_getKeyMetadata] (lines 336-346) *)
Definition _getKeyMetadata (keyId : string) : Eff World JsVal :=
  bind (fhir_search_device keyId) (fun result =>
  bind (lift (get result "entry")) (fun entry =>
  if negb (truthy entry) || negb (truthy (prop entry "length")) then ret JNull
  else
    bind (lift (obind (index entry 0) (fun first => get first "resource")))
         (fun device =>
    lift (_parseKeyMetadata device)))).

(** The callback of lines 358-371. *)
Definition updated_extension (updates : JsVal) (ext : JsVal) : Outcome JsVal :=
  obind (get ext "url") (fun url =>
  if strict_eq url (JStr key_metadata_url) then
    obind (get ext "extension") (fun items =>
    obind (map_array items (fun i =>
             obind (get i "url") (fun item_url =>
             if strict_eq item_url (JStr "status") && truthy (prop updates "status")
             then Return (JObj (assign "valueString" (prop updates "status") (props_of i)))
             else Return i))) (fun items' =>
    Return (JObj (assign "extension" items' (props_of ext)))))
  else Return ext).

(** [_updateKeyMetadata] (lines 348-385) *)
Definition _updateKeyMetadata (keyId : string) (updates : JsVal) : Eff World JsVal :=
  bind (_getKeyMetadata keyId) (fun current =>
  if negb (truthy current) then throw (Error "Key not found")
  else
    bind (lift (get current "deviceId")) (fun deviceId =>
    bind (lift (get current "securityTags")) (fun currentTags =>
    bind (lift (obind (get current "extensions")
                      (fun extensions =>
                         map_array extensions (updated_extension updates))))
         (fun extension =>
    let tags := if truthy (prop updates "securityTags")
                then prop updates "securityTags" else currentTags in
    let extension :=
      if strict_eq (prop updates "status") (JStr "retired")
      then match extension with
           | JArr exts =>
               JArr (exts ++ [JObj [("url", JStr "http://hl7.org/fhir/key-retirement");
                                    ("extension",
                                     JArr [JObj [("url", JStr "retiredAt");
                                                 ("valueDateTime",
                                                  prop updates "retiredAt")];
                                           JObj [("url", JStr "replacedBy");
                                                 ("valueReference",
                                                  prop updates "replacedBy")]])]])%list
           | _ => extension
           end
      else extension in
    fhir_update (JObj [("resourceType", JStr "Device"); ("id", deviceId);
                       ("meta", JObj [("tag", tags)]);
                       ("extension", extension)]))))).

(** *** Key lifecycle (lines 21-127) *)

(** The destructuring defaults of lines 22-28. *)
Definition or_default (v : JsVal) (d : JsVal) : JsVal :=
  match v with
  | JUndefined => d
  | _ => v
  end.

Definition or_else (v : JsVal) (d : JsVal) : JsVal := if truthy v then v else d.

(** The owner of line 40. *)
Definition owner_of (ownerType ownerId : JsVal) : JsVal :=
  if truthy ownerId
  then JObj [("reference", JStr (to_string ownerType +:+ "/" +:+ to_string ownerId))]
  else JNull.

(** The key metadata of lines 37-48, the parameters still without their
    defaults. *)
Definition key_meta (params : JsVal) (keyId : string) (publicKey quantumFingerprint : JsVal)
           (today : Z) : JsVal :=
  let keyType := or_default (prop params "keyType") (JStr "data-encryption") in
  let ownerType := or_default (prop params "ownerType") (JStr "Patient") in
  let rotationPolicy := or_default (prop params "rotationPolicy") (JStr "default") in
  JObj [("keyId", JStr keyId); ("keyType", keyType);
        ("owner", owner_of ownerType (prop params "ownerId"));
        ("publicKey", publicKey); ("quantumFingerprint", quantumFingerprint);
        ("generatedAt", JStr (to_iso_string today));
        ("rotationPolicy", _getRotationPolicy rotationPolicy keyType);
        ("status", JStr "active"); ("usage", JArr []);
        ("securityTags", _getSecurityTags keyType)].

(** [generateKey] (lines 21-71) *)
Definition generateKey (params : JsVal) : Eff World JsVal :=
  bind (lift (get params "keyType")) (fun keyType =>
  bind (lift (get params "ownerId")) (fun ownerId =>
  bind (lift (get params "ownerType")) (fun ownerType =>
  bind (lift (get params "keySize")) (fun keySize =>
  let keyType := or_default keyType (JStr "data-encryption") in
  let ownerType := or_default ownerType (JStr "Patient") in
  let keySize := or_default keySize (JNum 256) in
  bind (call VaultError (fun w =>
          vault_generateKeyMaterial w keySize
            (JStr (to_string ownerType +:+ "/" +:+ to_string (or_else ownerId (JStr "system"))
                   +:+ "/" +:+ to_string keyType)))) (fun keyMaterial =>
  bind crypto_randomUUID (fun keyId =>
  bind (lift (get keyMaterial "publicKey")) (fun publicKey =>
  bind (lift (get keyMaterial "quantumFingerprint")) (fun quantumFingerprint =>
  bind (gets now) (fun today =>
  let keyMeta := key_meta params keyId publicKey quantumFingerprint today in
  bind (call AnchorError (fun w => chain_submitKeyGeneration w keyMeta)) (fun tx =>
  bind (lift (get keyMaterial "privateKey")) (fun secret =>
  bind (modify (with_cache (insert keyId {| privateKey := secret;
                                            expiresAt := today + 5 * 60 * 1000 |})))
       (fun _ =>
  bind (lift (get tx "hash")) (fun txHash =>
  bind (call AuditError (fun w =>
          audit_log w "KEY_GENERATED"
            (JObj [("keyId", JStr keyId); ("keyType", keyType);
                   ("owner", owner_of ownerType ownerId); ("txHash", txHash)])))
       (fun _ =>
  bind (_storeKeyMetadata keyMeta) (fun meta =>
  ret (JObj [("keyId", JStr keyId); ("publicKey", publicKey);
             ("meta", meta)])))))))))))))))).

(** [oldKey.owner?.reference?.split('/')[i]] *)
Definition reference_part (owner : JsVal) (i : nat) : Outcome JsVal :=
  match get_opt owner "reference" with
  | JUndefined | JNull => Return JUndefined
  | JStr reference =>
      Return (match nth_error (split "/"%char reference) i with
              | Some part => JStr part
              | None => JUndefined
              end)
  | _ => Throw (TypeError "split is not a function")
  end.

Definition times8 (n : JsVal) : JsVal :=
  match n with
  | JNum k => JNum (k * 8)
  | _ => JUndefined
  end.

(** [_signProvenance] and [_createKeyProvenance] (lines 455-494) *)
Definition _createKeyProvenance (oldKey newKey : JsVal) (activity reason : string)
  : Eff World JsVal :=
  bind (lift (get oldKey "deviceId")) (fun oldDevice =>
  bind (lift (obind (get newKey "meta") (fun meta => get meta "id"))) (fun newDevice =>
  bind (gets now) (fun today =>
  bind (gets SYSTEM_DEVICE_ID) (fun systemDevice =>
  bind (lift (get oldKey "keyId")) (fun oldId =>
  bind (lift (get newKey "keyId")) (fun newId =>
  bind (gets SYSTEM_SIGNING_KEY) (fun signingKey =>
  bind (call VaultError (fun w =>
          vault_sign w (to_string oldId +:+ "|" +:+ to_string newId +:+ "|" +:+ activity
                        +:+ "|" +:+ dec today) signingKey)) (fun signature =>
  fhir_create "Provenance"
    (JObj [("resourceType", JStr "Provenance");
           ("target", JArr [JObj [("reference", JStr ("Device/" +:+ to_string oldDevice))];
                            JObj [("reference", JStr ("Device/" +:+ to_string newDevice))]]);
           ("recorded", JStr (to_iso_string today));
           ("activity",
            JObj [("coding",
                   JArr [JObj [("system",
                                JStr "http://hl7.org/fhir/key-management-activity");
                               ("code", JStr activity)]])]);
           ("reason", JArr [JObj [("text", JStr reason)]]);
           ("signature",
            JArr [JObj [("type",
                         JArr [JObj [("system",
                                      JStr "http://hl7.org/fhir/valueset-signature-type");
                                     ("code", JStr "1.2.840.10065.1.12.1.5")]]);
                        ("who",
                         JObj [("reference", JStr ("Device/" +:+ to_string systemDevice));
                               ("display", JStr "Key Management Service")]);
                        ("data", signature)]])]))))))))).

(** The update [rotateKey] asks for (lines 87-91). *)
Definition retirement (today : Z) (newKeyId : JsVal) : JsVal :=
  JObj [("status", JStr "retired"); ("retiredAt", JStr (to_iso_string today));
        ("replacedBy", JObj [("reference", JStr ("Key/" +:+ to_string newKeyId))])].

(** The parameters [rotateKey] generates the successor with (lines 78-84). *)
Definition successor_params (oldKey : JsVal) : Outcome JsVal :=
  obind (get oldKey "keyType") (fun keyType =>
  obind (obind (get oldKey "owner") (fun owner => reference_part owner 1)) (fun ownerId =>
  obind (obind (get oldKey "owner") (fun owner => reference_part owner 0))
        (fun ownerType =>
  obind (obind (get oldKey "publicKey") (fun k => get k "length")) (fun length =>
  obind (obind (get oldKey "rotationPolicy") (fun p => get p "name")) (fun policyName =>
  Return (JObj [("keyType", keyType); ("ownerId", ownerId); ("ownerType", ownerType);
                ("keySize", times8 length); ("rotationPolicy", policyName)])))))).

(** Lines 93-101: the end of [rotateKey]. *)
Definition record_rotation (oldKey newKey : JsVal) : Eff World JsVal :=
  bind (lift (obind (get oldKey "rotationPolicy") (fun p => get p "name")))
       (fun policyName =>
  bind (_createKeyProvenance oldKey newKey "key-rotation"
          ("Key rotated per policy " +:+ to_string policyName)) (fun _ =>
  ret newKey)).

(** [rotateKey] (lines 73-102) *)
Definition rotateKey (keyId : string) : Eff World JsVal :=
  bind (_getKeyMetadata keyId) (fun oldKey =>
  if negb (truthy oldKey) then throw (Error "Key not found")
  else
    bind (lift (successor_params oldKey)) (fun params =>
    bind (generateKey params) (fun newKey =>
    bind (gets now) (fun today =>
    bind (lift (get newKey "keyId")) (fun newKeyId =>
    bind (_updateKeyMetadata keyId (retirement today newKeyId)) (fun _ =>
    record_rotation oldKey newKey)))))).

(** An owner as [generateKey] writes it: none, or a reference [Type/id]
    whose two parts hold no slash. *)
Definition plain (s : string) : Prop :=
  forallb (fun c => negb (Ascii.eqb c "/"%char)) (list_ascii_of_string s) = true.


(** The update [revokeKey] asks for (lines 108-112). *)
Definition revocation (today : Z) (reason : JsVal) : JsVal :=
  JObj [("status", JStr "revoked"); ("revokedAt", JStr (to_iso_string today));
        ("revocationReason", reason)].

(** [revokeKey] (lines 104-127) *)
Definition revokeKey (keyId : string) (reason : JsVal) : Eff World bool :=
  let reason := or_default reason (JStr "security-incident") in
  bind (_getKeyMetadata keyId) (fun keyMeta =>
  bind (gets now) (fun today =>
  bind (_updateKeyMetadata keyId (revocation today reason)) (fun _ =>
  bind (call AnchorError (fun w => chain_revokeKey w keyId reason)) (fun _ =>
  bind (modify (with_cache (delete keyId))) (fun _ =>
  bind (lift (get keyMeta "owner")) (fun owner =>
  bind (call AuditError (fun w =>
          audit_log w "KEY_REVOKED"
            (JObj [("keyId", JStr keyId); ("reason", reason); ("owner", owner)])))
       (fun _ =>
  ret true))))))).

(** *** Key retrieval (lines 130-176) *)

Definition unusable (status : JsVal) : bool :=
  strict_eq status (JStr "revoked") || strict_eq status (JStr "retired").


(** Lines 155-175: the path of [getPrivateKey] past the cache. *)
Definition retrieve_from_vault (keyId : string) : Eff World JsVal :=
  bind (_getKeyMetadata keyId) (fun keyMeta =>
  if negb (truthy keyMeta) then throw (Error "Key not found")
  else
    bind (lift (get keyMeta "status")) (fun status =>
    if unusable status then throw (Error ("Cannot use " +:+ to_string status +:+ " key"))
    else
      bind (lift (get keyMeta "quantumFingerprint")) (fun quantumFingerprint =>
      bind (crypto_randomBytes 16) (fun token =>
      bind (call VaultError (fun w =>
              vault_retrievePrivateKey w keyId quantumFingerprint (hex_encode token)))
           (fun secret =>
      bind (gets now) (fun today =>
      bind (modify (with_cache (insert keyId {| privateKey := secret;
                                                expiresAt := today + 3 * 60 * 1000 |})))
           (fun _ =>
      ret secret))))))).

(** [getPrivateKey] (lines 145-176) *)
Definition getPrivateKey (keyId : string) : Eff World JsVal :=
  bind (gets (fun w => keyCache w !! keyId)) (fun hit =>
  match hit with
  | Some cached =>
      bind (gets now) (fun today =>
      if today <? expiresAt cached then ret (privateKey cached)
      else
        bind (modify (with_cache (delete keyId))) (fun _ =>
        retrieve_from_vault keyId))
  | None => retrieve_from_vault keyId
  end).

(** *** Compliance monitoring (lines 231-274) *)

Section Compliance.

(** [this.blockchain.checkKeyStatus(keyId)] *)
Variable chain_checkKeyStatus : string -> Ext JsVal.

(** [(Date.now() - new Date(generatedAt)) / (1000 * 60 * 60 * 24) > maxLifetime]
    for a [generatedAt] that gives a date, and [length >= usageLimit]. *)
Variable lifetime_exceeded : Z -> JsVal -> JsVal -> bool.
Variable at_least : JsVal -> JsVal -> bool.






End Compliance.

(** *** Emergency procedures (lines 277-301, 450-453) *)

Section Emergency.

(** [this.keyVault.emergencyRetrieve({ keyId, justificationHash })],
    [this.audit.logEmergencyAccess(details)] and
    [this.blockchain.recordEmergencyAccess(keyId, justification)] *)
Variable vault_emergencyRetrieve : string -> string -> Ext JsVal.
Variable audit_logEmergencyAccess : JsVal -> Ext unit.
Variable chain_recordEmergencyAccess : string -> string -> Ext unit.



End Emergency.

End KeyManagement.

(** ** [src/backend/keyManagement.js]: the in-memory key store *)

Module KeyStore.
Import Js.

(** [this.keys], the clock and the random bytes keys are made of. *)
Record World : Type := {
  keys : gmap string string;
  now : Z;                                   (* Date.now() *)
  randomBytes : nat -> nat -> list Z;        (* draw number, size *)
  drawn : nat
}.

Definition with_keys (f : gmap string string -> gmap string string) (w : World) : World :=
  {| keys := f (keys w); now := now w; randomBytes := randomBytes w; drawn := drawn w |}.

(** [generateKey] (lines 16-19) *)
Definition generateKey : Eff World string :=
  fun w => (Return (hex_encode (randomBytes w (drawn w) 32)),
            {| keys := keys w; now := now w; randomBytes := randomBytes w;
               drawn := S (drawn w) |}).

(** [initialize] (lines 10-14) *)
Definition initialize : Eff World unit :=
  bind generateKey (fun key => modify (with_keys (insert "default" key))).

(** [oldKeyId && this.keys[oldKeyId]], for an id that is a string or
    [undefined]: the id is not empty and a key that is not empty stands under
    it. *)
Definition held (oldKeyId : option string) (w : World) : bool :=
  match oldKeyId with
  | Some id =>
      negb (String.eqb id "")
      && match keys w !! id with
         | Some key => negb (String.eqb key "")
         | None => false
         end
  | None => false
  end.

(** [rotateKey] (lines 21-34): the new id and the new key. *)
Definition rotateKey (oldKeyId : option string) : Eff World (string * string) :=
  bind (gets now) (fun today =>
  let newKeyId := "key-" +:+ dec today in
  bind generateKey (fun newKey =>
  bind (modify (with_keys (insert newKeyId newKey))) (fun _ =>
  bind (gets (held oldKeyId)) (fun present =>
  bind (if present then modify (with_keys (delete (default "" oldKeyId))) else ret tt)
       (fun _ =>
  ret (newKeyId, newKey)))))).

(** [getKey] (lines 36-38), for an id that is not the name of a member of
    [Object.prototype]; [None] is [undefined]. *)
Definition getKey (keyId : string) (w : World) : option string := keys w !! keyId.

End KeyStore.

(** ** Scenarios of the audit trail *)

Module AuditScenario.
Import Js AuditLog.

Definition uuids : list string :=
  ["9b2f7c1e-5d3a-4e8b-a1c6-0f4d2e7b8a90"; "1c4e8a2b-7f6d-4b3c-9e5a-3d2c1b0a9f8e";
   "c3d4e5f6-1a2b-4c3d-8e9f-0a1b2c3d4e5f"; "5e6f7a8b-9c0d-4e1f-a2b3-c4d5e6f7a8b9";
   "0a1b2c3d-4e5f-4a6b-b7c8-d9e0f1a2b3c4"; "f0e1d2c3-b4a5-4968-8778-695a4b3c2d1e"].

(** 2026-11-03T08:15:30Z, anchoring switched on, the anchor reachable, nobody
    listening. *)
Definition idle : World :=
  {| rows := []; db_now := 1793693730000; app_now := 1793693730000;
     uuidv4 := fun n => nth n uuids (dec (Z.of_nat n)); uuid_drawn := O;
     BLOCKCHAIN_AUDIT := JStr "true"; HOSPITAL_ID := JStr "hospital-7";
     clients := [];
     submitAuditBatch := fun _ => Answer (JStr "0x5f2a");
     verifyTransaction := fun _ _ => Answer true;
     submitted := []; delivered := [] |}.

(** Time passes on both clocks. *)
Definition later (dt : Z) (w : World) : World :=
  {| rows := rows w; db_now := db_now w + dt; app_now := app_now w + dt;
     uuidv4 := uuidv4 w; uuid_drawn := uuid_drawn w;
     BLOCKCHAIN_AUDIT := BLOCKCHAIN_AUDIT w; HOSPITAL_ID := HOSPITAL_ID w;
     clients := clients w; submitAuditBatch := submitAuditBatch w;
     verifyTransaction := verifyTransaction w; submitted := submitted w;
     delivered := delivered w |}.



(** The anchor answers, and confirms nothing. *)
Definition anchor_denies (w : World) : World :=
  {| rows := rows w; db_now := db_now w; app_now := app_now w;
     uuidv4 := uuidv4 w; uuid_drawn := uuid_drawn w;
     BLOCKCHAIN_AUDIT := BLOCKCHAIN_AUDIT w; HOSPITAL_ID := HOSPITAL_ID w;
     clients := clients w; submitAuditBatch := submitAuditBatch w;
     verifyTransaction := fun _ _ => Answer false;
     submitted := submitted w; delivered := delivered w |}.

Definition with_flag (flag : JsVal) (w : World) : World :=
  {| rows := rows w; db_now := db_now w; app_now := app_now w;
     uuidv4 := uuidv4 w; uuid_drawn := uuid_drawn w;
     BLOCKCHAIN_AUDIT := flag; HOSPITAL_ID := HOSPITAL_ID w;
     clients := clients w; submitAuditBatch := submitAuditBatch w;
     verifyTransaction := verifyTransaction w; submitted := submitted w;
     delivered := delivered w |}.


Definition bp_reading : JsVal :=
  JObj [("resourceType", JStr "Observation"); ("resourceId", JStr "obs-118");
        ("ip", JStr "10.0.0.7"); ("data", JObj [("systolic", JNum 118)])].

(** The reading has been logged, and eleven minutes have passed. *)
Definition one_logged : World := snd (log "dr.smith" "READ" bp_reading idle).

Definition first_entry : LogEntry :=
  {| id := "9b2f7c1e-5d3a-4e8b-a1c6-0f4d2e7b8a90"; timestamp := 1793693730000;
     userId := "dr.smith"; action := "READ"; resourceType := JStr "Observation";
     resourceId := JStr "obs-118"; ipAddress := JStr "10.0.0.7"; userAgent := JNull;
     queryParams := JNull;
     dataHash := JStr "8f210aac10f4a4954a9d92ea0707491e8dccba8962202859f32ab4c1d920f172";
     blockchainTxId := JNull; verified := false |}.





Definition two_logged : World := snd (log "nurse.lee" "WRITE" bp_reading one_logged).





End AuditScenario.

(** ** Scenarios of the AES service *)

Module AesScenario.
Import Js AesService.

(** A stand-in for AES-256-GCM that leaves the text as it is and tags it
    with sixteen zero bytes.  The scenarios below end the same way under
    every cipher that answers. *)
Definition toy_gcm : Gcm :=
  {| seal := fun _ _ _ text => Answer (bytes_of_string text, repeat 0 16);
     unseal := fun _ _ authTag _ ciphertext =>
                 if forallb (Z.eqb 0) authTag then Answer (string_of_bytes ciphertext)
                 else Unavailable "Unsupported state or unable to authenticate data" |}.

Definition fresh : World :=
  {| keyRegistry := ∅; now := 1793693730000;
     randomBytes := fun n size => repeat (Z.of_nat n) size;
     randomUUID := fun n => nth n AuditScenario.uuids (dec (Z.of_nat n));
     drawn := O; cipher := toy_gcm;
     kd_generateKey := fun _ _ _ => Answer (repeat 7 32, repeat 9 16);
     kd_deriveKey := fun _ _ _ => Answer (repeat 7 32);
     audit_log := fun _ _ => Answer tt; audited := [] |}.

Definition no_options : Options :=
  {| chunkSize := None; encodeOutput := None; encodeInput := None;
     contextData := JUndefined |}.

(** Key k1 of type data-encryption has been generated for patient-42. *)
Definition with_k1 : World :=
  snd (generateKey {| m_keySize := None; m_keyType := Some "data-encryption";
                      m_ownerId := Some "patient-42" |} fresh).

Definition k1 : string := "9b2f7c1e-5d3a-4e8b-a1c6-0f4d2e7b8a90".

(** An envelope of one chunk as the stand-in cipher would have sealed
    "systolic-bp:118", and the same with the first bit of its tag flipped. *)
Definition sealed : Envelope :=
  Single {| data := "c3lzdG9saWMtYnA6MTE4"; tag := "AAAAAAAAAAAAAAAAAAAAAA==";
            iv := "000000000000000000000000"; chunkInfo := (O, 1%nat) |}.

Definition tampered : Envelope :=
  Single {| data := "c3lzdG9saWMtYnA6MTE4"; tag := "gAAAAAAAAAAAAAAAAAAAAA==";
            iv := "000000000000000000000000"; chunkInfo := (O, 1%nat) |}.

(** The CBC service: a 256-bit key, the vector the service draws, a text of
    forty-five bytes and its ciphertext of three blocks. *)
Definition cbc_key : string :=
  "000102030405060708090a0b0c0d0e0f101112131415161718191a1b1c1d1e1f".

Definition cbc_world : AesCbc.World :=
  {| AesCbc.randomBytes := fun _ _ => hex_decode "0f0e0d0c0b0a09080706050403020100";
     AesCbc.drawn := O |}.

Definition vitals : string := "systolic-bp:118 diastolic-bp:76 heart-rate:64".

Definition vitals_ciphertext : string :=
  "59e83016365a39f00098ba87c0ba67d686a529339f4fb14e463fc56bc57bb6fcf434843f3ff123d048b2c6195b064d9a".


(** The derivation service answers for a salt it is given and is down for
    new keys. *)
Definition no_new_keys : World :=
  {| keyRegistry := keyRegistry with_k1; now := now with_k1;
     randomBytes := randomBytes with_k1; randomUUID := randomUUID with_k1;
     drawn := drawn with_k1; cipher := cipher with_k1;
     kd_generateKey := fun _ _ salt =>
                         match salt with
                         | Some _ => Answer (repeat 7 32, repeat 9 16)
                         | None => Unavailable "key derivation unavailable"
                         end;
     kd_deriveKey := kd_deriveKey with_k1;
     audit_log := audit_log with_k1; audited := audited with_k1 |}.

(** What the registry holds for k1. *)
Definition k1_info : KeyInfo :=
  {| keySize := 256; keyType := "data-encryption"; ownerId := Some "patient-42";
     quantumSalt := repeat 9 16; createdAt := 1793693730000; lastUsed := None;
     rotationSchedule := "30d"; status := None; deprecatedAt := None |}.

End AesScenario.

(** ** Scenarios of the key management service *)

Module KmsScenario.
Import Js KeyManagement.

(** 2026-11-03T08:15:30Z: nothing cached, no key known to the FHIR server,
    every collaborator reachable. *)
Definition fresh : World :=
  {| keyCache := ∅; now := 1793693730000; resources := []; fhir_up := true;
     randomUUID := fun n => nth n AuditScenario.uuids (dec (Z.of_nat n));
     randomBytes := fun n size => repeat (Z.of_nat n) size;
     drawn := O;
     SYSTEM_DEVICE_ID := JStr "kms-1"; SYSTEM_SIGNING_KEY := JStr "signing-key";
     vault_generateKeyMaterial :=
       fun _ context =>
         Answer (JObj [("publicKey", JBuf (repeat 171 32));
                       ("quantumFingerprint", JStr "qf-31c7");
                       ("privateKey", JStr ("secret of " +:+ to_string context))]);
     vault_retrievePrivateKey := fun keyId _ _ => Answer (JStr ("secret of " +:+ keyId));
     vault_sign := fun _ _ => Answer (JStr "signature");
     chain_submitKeyGeneration := fun _ => Answer (JObj [("hash", JStr "0x77aa")]);
     chain_revokeKey := fun _ _ => Answer tt;
     audit_log := fun _ _ => Answer tt |}.

(** Time passes. *)
Definition later (dt : Z) (w : World) : World :=
  {| keyCache := keyCache w; now := now w + dt; resources := resources w;
     fhir_up := fhir_up w; randomUUID := randomUUID w; randomBytes := randomBytes w;
     drawn := drawn w; SYSTEM_DEVICE_ID := SYSTEM_DEVICE_ID w;
     SYSTEM_SIGNING_KEY := SYSTEM_SIGNING_KEY w;
     vault_generateKeyMaterial := vault_generateKeyMaterial w;
     vault_retrievePrivateKey := vault_retrievePrivateKey w; vault_sign := vault_sign w;
     chain_submitKeyGeneration := chain_submitKeyGeneration w;
     chain_revokeKey := chain_revokeKey w; audit_log := audit_log w |}.

(** [generateKey({ keyType: 'data-encryption', ownerId: 'patient-42' })] *)
Definition k1_params : JsVal :=
  JObj [("keyType", JStr "data-encryption"); ("ownerId", JStr "patient-42")].

Definition k1 : string := "9b2f7c1e-5d3a-4e8b-a1c6-0f4d2e7b8a90".
Definition k2 : string := "1c4e8a2b-7f6d-4b3c-9e5a-3d2c1b0a9f8e".

(** Key k1 has been generated; its private key is cached for five minutes. *)
Definition with_k1 : World := snd (generateKey k1_params fresh).

(** What the cache holds for k1 then, until 08:20:30. *)
Definition k1_cached : Cached :=
  {| privateKey := JStr "secret of Patient/patient-42/data-encryption";
     expiresAt := 1793694030000 |}.

(** What [_getKeyMetadata] answers for k1 then. *)
Definition k1_meta : JsVal :=
  JObj [("deviceId", JStr "Device-1"); ("keyId", JStr k1);
        ("keyType", JStr "data-encryption");
        ("owner", JObj [("reference", JStr "Patient/patient-42")]);
        ("publicKey", JBuf (repeat 171 32)); ("quantumFingerprint", JStr "qf-31c7");
        ("rotationPolicy", policy "default" 90 (JNum 1000));
        ("securityTags", security_tag "CONFIDENTIAL"); ("status", JStr "active")].

(** The parameters [rotateKey(k1)] hands to [generateKey], and the successor
    and the world that come back. *)
Definition k2_params : JsVal :=
  match successor_params k1_meta with
  | Return params => params
  | Throw _ => JUndefined
  end.

Definition k2_generated : JsVal * World :=
  match generateKey k2_params with_k1 with
  | (Return newKey, w) => (newKey, w)
  | (Throw _, w) => (JUndefined, w)
  end.



(** What [generateKey(k1_params)] returns at 08:15:30. *)
Definition k1_generated : JsVal :=
  match fst (generateKey k1_params fresh) with
  | Return newKey => newKey
  | Throw _ => JUndefined
  end.

End KmsScenario.

Module KeyStoreScenario.
Import KeyStore.

(** 08:15:30 again: the store as [initialize] leaves it. *)
Definition empty : World :=
  {| keys := ∅; now := 1793693730000;
     randomBytes := fun n size => repeat (Z.of_nat n) size; drawn := O |}.

Definition started : World := snd (initialize empty).

(** A first rotation, of no key in particular. *)
Definition rotated : World := snd (rotateKey None started).

End KeyStoreScenario.

(* ===================================================================== *)
(** * Part II: properties                                                  *)
(* ===================================================================== *)

(** ** Strings *)

Module StringFacts.

Lemma append_cons (c : ascii) (s t : string) : String c s +:+ t = String c (s +:+ t).
Proof. reflexivity. Qed.

Lemma append_empty (s : string) : s +:+ "" = s.
Proof.
  induction s as [|c s IH]; [reflexivity|]. now rewrite append_cons, IH.
Qed.

Lemma append_associative (s t u : string) : (s +:+ t) +:+ u = s +:+ (t +:+ u).
Proof.
  induction s as [|c s IH]; [reflexivity|]. now rewrite !append_cons, IH.
Qed.

End StringFacts.

(** ** The primitives against their test vectors *)

Example sha256_abc :
  Sha256.sha256_hex "abc" = "ba7816bf8f01cfea414140de5dae2223b00361a396177a9cb410ff61f20015ad".
Proof. vm_compute. reflexivity. Qed.

(** FIPS 197, appendix C.3. *)
Example aes256_fips197 :
  Js.hex_encode
    (Aes256.encrypt_block
       (Js.hex_decode "000102030405060708090a0b0c0d0e0f101112131415161718191a1b1c1d1e1f")
       (Js.hex_decode "00112233445566778899aabbccddeeff"))
  = "8ea2b7ca516745bfeafc49904b496089"
  /\ Js.hex_encode
       (Aes256.decrypt_block
          (Js.hex_decode "000102030405060708090a0b0c0d0e0f101112131415161718191a1b1c1d1e1f")
          (Js.hex_decode "8ea2b7ca516745bfeafc49904b496089"))
     = "00112233445566778899aabbccddeeff".
Proof. vm_compute. split; reflexivity. Qed.

(** ** The audit trail *)

Module AuditLogProps.
Import Js AuditLog.

#[local] Opaque Sha256.sha256_hex.
#[local] Arguments valid_action : simpl never.


Lemma calculateMerkleRoot_single (e : LogEntry) :
  _calculateMerkleRoot [e] = Return (JStr (_hashEntry e)).
Proof. reflexivity. Qed.

(** With two entries or more the first pass of the loop ends in the
    assignment to [hashes]. *)
Lemma calculateMerkleRoot_throws (e e' : LogEntry) (rest : list LogEntry) :
  _calculateMerkleRoot (e :: e' :: rest)
  = Throw (TypeError "Assignment to constant variable.").
Proof. reflexivity. Qed.





(** *** How [log] changes the table *)

Lemma mark_verified_content (tx : JsVal) (ids : list string) (e : LogEntry) :
  content (mark_verified tx ids e) = content e.
Proof. unfold mark_verified. destruct (existsb _ _); reflexivity. Qed.

Lemma truthy_stringify (v : JsVal) :
  truthy v = true -> exists json, stringify v = Some json.
Proof. destruct v as [| |[]| | | | |]; simpl; try discriminate; eauto. Qed.

(** The batcher leaves the content of every row, the clients and the
    generator alone. *)
Lemma anchor_frame (entry : LogEntry) (w : World) :
  List.map content (rows (snd (_anchorToBlockchain entry w))) = List.map content (rows w)
  /\ clients (snd (_anchorToBlockchain entry w)) = clients w.
Proof.
  unfold _anchorToBlockchain, bind, gets, lift, ret. simpl.
  destruct (strict_eq _ _); simpl; auto.
  destruct (batch_due _ _); simpl; auto.
  destruct (_calculateMerkleRoot _); simpl; auto.
  unfold blockchain_submitAuditBatch, modify.
  destruct (submitAuditBatch w _); simpl; auto.
  split; auto. rewrite List.map_map. apply List.map_ext.
  intros e. apply mark_verified_content.
Qed.

(** A batcher that throws has not touched the table. *)
Lemma anchor_throw_rows (entry : LogEntry) (w : World) (x : Exn) :
  fst (_anchorToBlockchain entry w) = Throw x ->
  rows (snd (_anchorToBlockchain entry w)) = rows w.
Proof.
  unfold _anchorToBlockchain, bind, gets, lift, ret. simpl.
  destruct (strict_eq _ _); simpl; auto.
  destruct (batch_due _ _); simpl; auto.
  destruct (_calculateMerkleRoot _); simpl; auto.
  unfold blockchain_submitAuditBatch, modify.
  destruct (submitAuditBatch w _); simpl; auto. discriminate.
Qed.

Lemma notify_rows (cs : list WsClient) (i : nat) (ev : string) (d : LogEntry) (w : World) :
  rows (snd (notify_from i cs ev d w)) = rows w
  /\ submitted (snd (notify_from i cs ev d w)) = submitted w.
Proof.
  revert i w. induction cs as [|c cs IH]; intros i w; simpl; auto.
  destruct (_ && _); [|apply IH].
  destruct (send c _); simpl; auto.
  unfold bind, modify. simpl.
  destruct (IH (S i) (record_delivery i (frame ev d) w)) as [-> ->]. auto.
Qed.

(** [log] on a metadata that is not [null] is [create] followed by the
    notification. *)
Lemma log_unfold (u a : string) (m : JsVal) (w : World) :
  m <> JNull ->
  log u a m w
  = bind (LogEntry_create (values_of u a m))
         (fun entry => bind (_notifyClients "NEW_ENTRY" entry) (fun _ => ret entry)) w.
Proof.
  intros Hm. unfold log, values_of.
  assert (Hget : forall k, get (or_empty m) k = Return (prop (or_empty m) k))
    by (destruct m; try congruence; reflexivity).
  unfold bind at 1. unfold lift at 1. rewrite Hget.
  unfold bind at 1. unfold lift at 1. rewrite Hget.
  unfold bind at 1. unfold lift at 1. rewrite Hget.
  unfold bind at 1. unfold lift at 1. rewrite Hget.
  unfold bind at 1. unfold lift at 1. rewrite Hget.
  unfold bind at 1. unfold lift at 1. rewrite Hget.
  unfold data_digest, _hashData.
  destruct (truthy (prop (or_empty m) "data")) eqn:T.
  - destruct (truthy_stringify _ T) as [json ->]. reflexivity.
  - reflexivity.
Qed.

Lemma log_null (u a : string) (w : World) :
  log u a JNull w
  = (Throw (TypeError "Cannot read properties of null (reading 'resourceType')"), w).
Proof. reflexivity. Qed.

Lemma create_unfold (v : Values) (w : World) :
  valid_action (v_action v) = true ->
  existsb (fun e => String.eqb (id e) (uuidv4 w (uuid_drawn w))) (rows w) = false ->
  LogEntry_create v w
  = let e := new_entry v (uuidv4 w (uuid_drawn w)) (db_now w) in
    match _anchorToBlockchain e (inserted e w) with
    | (Return _, w') => (Return e, w')
    | (Throw x, w') => (Throw x, w')
    end.
Proof.
  intros Ha Hid. unfold LogEntry_create, bind, gets, draw_uuid, modify, ret. simpl.
  rewrite Ha, Hid. simpl. reflexivity.
Qed.

Lemma create_rejects (v : Values) (w : World) :
  valid_action (v_action v) = false
  \/ existsb (fun e => String.eqb (id e) (uuidv4 w (uuid_drawn w))) (rows w) = true ->
  exists x, fst (LogEntry_create v w) = Throw x
            /\ rows (snd (LogEntry_create v w)) = rows w.
Proof.
  intros H. unfold LogEntry_create, bind, gets, draw_uuid, modify, ret, throw. simpl.
  destruct (valid_action (v_action v)); simpl; eauto.
  destruct H as [H|H]; [discriminate|]. rewrite H. simpl. eauto.
Qed.

Lemma existsb_id_false (uuid : string) (table : list LogEntry) :
  existsb (fun e => String.eqb (id e) uuid) table = false ->
  ~ In uuid (List.map id table).
Proof.
  intros H Hin. apply in_map_iff in Hin as (e & <- & He).
  assert (existsb (fun e0 => String.eqb (id e0) (id e)) table = true).
  { apply existsb_exists. exists e. split; auto. apply String.eqb_refl. }
  congruence.
Qed.

Lemma anchor_ids (entry : LogEntry) (w : World) :
  List.map id (rows (snd (_anchorToBlockchain entry w))) = List.map id (rows w).
Proof.
  destruct (anchor_frame entry w) as [H _].
  apply (f_equal (List.map (fun c => fst (fst (fst (fst (fst (fst (fst (fst (fst c))))))))))) in H.
  rewrite !List.map_map in H. exact H.
Qed.

Lemma anchor_not_due (entry : LogEntry) (w : World) :
  anchoring_due w = false -> _anchorToBlockchain entry w = (Return tt, w).
Proof.
  unfold anchoring_due, _anchorToBlockchain, bind, gets, ret. simpl.
  destruct (strict_eq _ _); simpl; auto. intros ->. reflexivity.
Qed.

(** When [log] gets as far as inserting the row. *)
Lemma log_inserts (u a : string) (m : JsVal) (w : World) :
  m <> JNull ->
  valid_action a = true ->
  existsb (fun e => String.eqb (id e) (uuidv4 w (uuid_drawn w))) (rows w) = false ->
  log u a m w
  = let e := new_entry (values_of u a m) (uuidv4 w (uuid_drawn w)) (db_now w) in
    match _anchorToBlockchain e (inserted e w) with
    | (Throw x, w1) => (Throw x, w1)
    | (Return _, w1) =>
        match notify_from 0 (clients w) "NEW_ENTRY" e w1 with
        | (Return _, w2) => (Return e, w2)
        | (Throw x, w2) => (Throw x, w2)
        end
    end.
Proof.
  intros Hm Ha Hid. rewrite log_unfold by assumption.
  unfold bind at 1. rewrite create_unfold by assumption. cbv zeta.
  pose proof (anchor_frame (new_entry (values_of u a m) (uuidv4 w (uuid_drawn w)) (db_now w))
                (inserted (new_entry (values_of u a m) (uuidv4 w (uuid_drawn w)) (db_now w)) w))
    as [_ Hc].
  destruct (_anchorToBlockchain _ _) as [[[]|x] w1]; [|reflexivity].
  simpl in Hc. unfold _notifyClients, bind, gets, ret. simpl. rewrite Hc.
  destruct (notify_from _ _ _ _ _) as [[[]|x] w2]; reflexivity.
Qed.

(** When it does not. *)
Lemma log_rejects (u a : string) (m : JsVal) (w : World) :
  m = JNull \/ valid_action a = false
  \/ existsb (fun e => String.eqb (id e) (uuidv4 w (uuid_drawn w))) (rows w) = true ->
  exists x, fst (log u a m w) = Throw x /\ rows (snd (log u a m w)) = rows w.
Proof.
  intros H.
  assert (Hm : m = JNull \/ m <> JNull) by (destruct m; auto; right; discriminate).
  destruct Hm as [->|Hm].
  - rewrite log_null. simpl. eauto.
  - assert (H' : valid_action a = false
                 \/ existsb (fun e => String.eqb (id e) (uuidv4 w (uuid_drawn w))) (rows w)
                    = true)
      by (destruct H as [?|?]; [contradiction|auto]).
    destruct (create_rejects (values_of u a m) w H') as (x & Hx & Hr).
    rewrite log_unfold by assumption. unfold bind.
    destruct (LogEntry_create _ _) as [[e|x'] w']; simpl in *; [discriminate|]. eauto.
Qed.

Lemma log_decide (u a : string) (m : JsVal) (w : World) :
  (m <> JNull /\ valid_action a = true
   /\ existsb (fun e => String.eqb (id e) (uuidv4 w (uuid_drawn w))) (rows w) = false)
  \/ (m = JNull \/ valid_action a = false
      \/ existsb (fun e => String.eqb (id e) (uuidv4 w (uuid_drawn w))) (rows w) = true).
Proof.
  destruct (valid_action a); [|auto].
  destruct (existsb _ _); [auto|].
  destruct m; auto; left; repeat split; discriminate.
Qed.

(** The table after [log]: unchanged, or one new row with a fresh id behind
    rows of unchanged content. *)
Lemma log_table (u a : string) (m : JsVal) (w : World) :
  let e := new_entry (values_of u a m) (uuidv4 w (uuid_drawn w)) (db_now w) in
  (rows (snd (log u a m w)) = rows w /\ exists x, fst (log u a m w) = Throw x)
  \/ (~ In (id e) (List.map id (rows w))
      /\ List.map content (rows (snd (log u a m w)))
         = (List.map content (rows w) ++ [content e])%list
      /\ List.map id (rows (snd (log u a m w))) = (List.map id (rows w) ++ [id e])%list
      /\ (fst (log u a m w) = Return e \/ exists x, fst (log u a m w) = Throw x)).
Proof.
  intros e. destruct (log_decide u a m w) as [(Hm & Ha & Hid)|H].
  - right. split; [now apply existsb_id_false|].
    rewrite log_inserts by assumption. cbv zeta. fold e.
    destruct (anchor_frame e (inserted e w)) as [Hc _].
    pose proof (anchor_ids e (inserted e w)) as Hi.
    destruct (_anchorToBlockchain e (inserted e w)) as [[[]|x] w1]; simpl in Hc, Hi.
    + destruct (notify_rows (clients w) 0 "NEW_ENTRY" e w1) as [Hr _].
      destruct (notify_from _ _ _ _ _) as [[[]|x] w2]; simpl in *;
        rewrite Hr, Hc, Hi, !List.map_app; simpl; eauto.
    + simpl. rewrite Hc, Hi, !List.map_app; simpl; eauto.
  - left. destruct (log_rejects u a m w H) as (x & Hx & Hr). eauto.
Qed.

Lemma log_Return (u a : string) (m : JsVal) (w : World) (e : LogEntry) :
  fst (log u a m w) = Return e ->
  e = new_entry (values_of u a m) (uuidv4 w (uuid_drawn w)) (db_now w)
  /\ List.map content (rows (snd (log u a m w)))
     = (List.map content (rows w) ++ [content e])%list.
Proof.
  intros H. destruct (log_table u a m w) as [[_ [x Hx]]|(_ & Hc & _ & [He|[x Hx]])];
    try congruence.
  assert (e = new_entry (values_of u a m) (uuidv4 w (uuid_drawn w)) (db_now w))
    by congruence.
  subst e. auto.
Qed.





(** *** What [log] persists *)




(** *** Failures during [log] *)




(** *** Entry ids *)

Lemma log_ids (u a : string) (m : JsVal) (w : World) :
  NoDup (List.map id (rows w)) -> NoDup (List.map id (rows (snd (log u a m w)))).
Proof.
  intros H. destruct (log_table u a m w) as [[-> _]|(Hfresh & _ & -> & _)]; auto.
  apply NoDup_app. repeat split.
  - assumption.
  - intros x Hx Hx'. apply list_elem_of_In in Hx.
    apply list_elem_of_singleton in Hx'. subst x. auto.
  - apply NoDup_singleton.
Qed.

(** C8 (amended): along every history of the audit trail the ids in the
    table are pairwise distinct.  (They are UUIDs drawn at random, in no
    order.) *)
Theorem entry_ids_unique (w : World) :
  history w -> NoDup (List.map id (rows w)).
Proof.
  induction 1 as [w H|u a m w _ IH|w w' _ IH H].
  - rewrite H. apply NoDup_nil_2.
  - now apply log_ids.
  - now rewrite H.
Qed.

Lemma entry_ids_unique_witness :
  NoDup (List.map id (rows AuditScenario.two_logged)).
Proof.
  apply entry_ids_unique. unfold AuditScenario.two_logged, AuditScenario.one_logged.
  apply history_log, history_log, history_start. reflexivity.
Defined.

(** C8 as stated fails: the second entry logged gets an id that sorts before
    the id of the first. *)
Lemma second_id_below_first :
  List.map id (rows AuditScenario.two_logged)
  = ["9b2f7c1e-5d3a-4e8b-a1c6-0f4d2e7b8a90"; "1c4e8a2b-7f6d-4b3c-9e5a-3d2c1b0a9f8e"]
  /\ String.ltb "1c4e8a2b-7f6d-4b3c-9e5a-3d2c1b0a9f8e"
                "9b2f7c1e-5d3a-4e8b-a1c6-0f4d2e7b8a90" = true.
Proof. vm_compute. split; reflexivity. Qed.

(** *** Verification *)




End AuditLogProps.

(** ** The AES service *)

Module AesProps.
Import Js AesService StringFacts.

Lemma chunkData_empty (chunkSize : positive) : _chunkData "" chunkSize = [].
Proof. reflexivity. Qed.

Lemma chunkData_nonempty (text : string) (chunkSize : positive) :
  text <> "" -> _chunkData text chunkSize <> [].
Proof.
  destruct text as [|c rest]; [congruence|]. intros _. unfold _chunkData. simpl.
  discriminate.
Qed.

(** The loop of [encrypt] does not get past its first chunk. *)
Lemma encrypt_chunks_throws (key nonce : list Z) (ctx : JsVal) (enc : string)
      (index total : nat) (chunk : string) (rest : list string) (acc : list Chunk)
      (w : World) :
  exists x, fst (encrypt_chunks key nonce ctx enc index total (chunk :: rest) acc w)
            = Throw x.
Proof.
  cbn [encrypt_chunks]. unfold bind, crypto_randomBytes, lift, assign_const.
  destruct (encrypt_chunk key nonce ctx enc index total chunk w) as [[c|x] w1];
    simpl; eauto.
Qed.

(** With a registered key, a key derivation and a cipher that answer, and a
    known encoding, what [encrypt] throws on a text that is not empty is the
    TypeError of the assignment to [iv]. *)
Lemma encrypt_throws_on_iv (text keyId : string) (options : Options) (w : World)
      (info : KeyInfo) (key ciphertext authTag : list Z) (enc : string) :
  text <> "" ->
  keyRegistry w !! keyId = Some info ->
  kd_deriveKey w (keySize info) (quantumSalt info) (context_of info) = Answer key ->
  (forall nonce a chunk, seal (cipher w) key nonce a chunk = Answer (ciphertext, authTag)) ->
  default "base64" (encodeOutput options) = enc ->
  enc = "hex" \/ enc = "base64" ->
  fst (encrypt text keyId options w)
  = Throw (TypeError "Assignment to constant variable.").
Proof.
  intros Htext Hkey Hderive Hseal Henc Hknown.
  unfold encrypt, bind at 1. unfold _prepareKeyAndIV, bind, gets, modify, ret. simpl.
  rewrite Hkey, Hderive. simpl.
  pose proof (chunkData_nonempty text (default 64%positive (chunkSize options) * 1024) Htext)
    as Hne.
  destruct (_chunkData _ _) as [|chunk rest]; [congruence|].
  cbn [encrypt_chunks]. unfold encrypt_chunk.
  unfold bind, gets, lift, ret, crypto_randomBytes, assign_const. simpl.
  rewrite Hseal, Henc.
  destruct Hknown as [-> | ->]; reflexivity.
Qed.

(** C3: what the code does.  [encrypt] returns for the empty text only, and
    then returns the empty array; for every other text it throws, so no
    ciphertext exists that [decrypt] could turn back into the text. *)
Theorem encrypt_returns_only_for_empty_text (text keyId : string) (options : Options)
        (w : World) :
  match fst (encrypt text keyId options w) with
  | Return envelope => text = "" /\ envelope = Many []
  | Throw _ => True
  end.
Proof.
  unfold encrypt, bind at 1.
  destruct (_prepareKeyAndIV keyId w) as [[[key nonce]|x] w1]; simpl; [|exact I].
  destruct text as [|c rest].
  - rewrite chunkData_empty. simpl. unfold bind, audit. simpl.
    destruct (audit_log w1 _ _); simpl; auto.
  - pose proof (chunkData_nonempty (String c rest)
                  (default 64%positive (chunkSize options) * 1024)) as Hne.
    destruct (_chunkData _ _) as [|chunk chunks]; [now exfalso; apply Hne|].
    unfold bind at 1.
    destruct (encrypt_chunks_throws key nonce (contextData options)
                (default "base64" (encodeOutput options)) 0
                (List.length (chunk :: chunks)) chunk chunks [] w1) as [x Hx].
    destruct (encrypt_chunks _ _ _ _ _ _ _ _ _) as [[cs|x'] w2]; simpl in *;
      [discriminate|exact I].
Qed.

(** The scenario of the specification: "systolic-bp:118" under k1. *)
Lemma encrypt_systolic_bp_throws :
  keyRegistry AesScenario.with_k1 !! AesScenario.k1 <> None
  /\ fst (encrypt "systolic-bp:118" AesScenario.k1 AesScenario.no_options
                 AesScenario.with_k1)
     = Throw (TypeError "Assignment to constant variable.")
  /\ fst (encrypt "" AesScenario.k1 AesScenario.no_options AesScenario.with_k1)
     = Return (Many []).
Proof. vm_compute. repeat split; try reflexivity. discriminate. Qed.

(** [_prepareKeyAndIV] hands out the key of every registered key, whatever
    the status of its registry entry. *)
Lemma prepareKeyAndIV_any_status (keyId : string) (w : World) (info : KeyInfo)
      (key : list Z) :
  keyRegistry w !! keyId = Some info ->
  kd_deriveKey w (keySize info) (quantumSalt info) (context_of info) = Answer key ->
  fst (_prepareKeyAndIV keyId w) = Return (key, randomBytes w (drawn w) 12).
Proof.
  intros Hinfo Hkey.
  unfold _prepareKeyAndIV, bind, gets, modify, ret, crypto_randomBytes. simpl.
  rewrite Hinfo. simpl. rewrite Hkey. reflexivity.
Qed.

(** The rotation of this service: k1 is marked deprecated in the registry, a
    successor is registered, and k1 goes on being handed out. *)
Example rotated_key_deprecated_and_in_use :
  fst (rotateKey AesScenario.k1 AesScenario.with_k1)
  = Return (repeat 7 32, "1c4e8a2b-7f6d-4b3c-9e5a-3d2c1b0a9f8e")
  /\ status <$> keyRegistry (snd (rotateKey AesScenario.k1 AesScenario.with_k1))
                 !! AesScenario.k1
     = Some (Some "deprecated")
  /\ fst (_prepareKeyAndIV AesScenario.k1
            (snd (rotateKey AesScenario.k1 AesScenario.with_k1)))
     = Return (repeat 7 32, repeat 2 12).
Proof. vm_compute. repeat split; reflexivity. Qed.

(** [_prepareKeyAndIV] leaves the cipher as it is, and what it throws is no
    failure of the cipher. *)
Lemma prepareKeyAndIV_cipher (keyId : string) (w : World) :
  cipher (snd (_prepareKeyAndIV keyId w)) = cipher w
  /\ match fst (_prepareKeyAndIV keyId w) with
     | Throw (CipherError _) => False
     | _ => True
     end.
Proof.
  unfold _prepareKeyAndIV, bind, gets, modify, ret, throw, crypto_randomBytes. simpl.
  destruct (keyRegistry w !! keyId) as [info|]; [|now split]. simpl.
  destruct (kd_deriveKey w _ _ _); now split.
Qed.

(** One pass of the loop of [decrypt] changes nothing, returns what the
    cipher accepts, and throws the cipher's failure as it is. *)
Lemma decrypt_chunk_run (key : list Z) (ctx : JsVal) (enc : string) (chunk : Chunk)
      (w : World) :
  snd (decrypt_chunk key ctx enc chunk w) = w
  /\ match fst (decrypt_chunk key ctx enc chunk w) with
     | Return text => accepts (cipher w) key ctx enc chunk text
     | Throw (CipherError msg) => rejects (cipher w) key ctx enc chunk msg
     | Throw _ => True
     end.
Proof.
  unfold decrypt_chunk, accepts, rejects, bind, lift, gets, ret, throw.
  destruct (decode enc (tag chunk)) as [authTag|x] eqn:Htag; simpl.
  - destruct (decode enc (data chunk)) as [ciphertext|y] eqn:Hdata; simpl.
    + destruct (unseal _ _ _ _ _ _) as [text|msg] eqn:Hunseal; simpl; eauto 6.
    + split; [reflexivity|].
      unfold decode in Hdata.
      destruct (String.eqb enc "hex"); [discriminate|].
      destruct (String.eqb enc "base64"); [discriminate|].
      now inversion Hdata.
  - split; [reflexivity|].
    unfold decode in Htag.
    destruct (String.eqb enc "hex"); [discriminate|].
    destruct (String.eqb enc "base64"); [discriminate|].
    now inversion Htag.
Qed.

Lemma concat_cons (t : string) (texts : list string) :
  String.concat "" (t :: texts) = t +:+ String.concat "" texts.
Proof.
  destruct texts as [|t' texts]; [simpl; now rewrite append_empty|reflexivity].
Qed.

(** The loop of [decrypt]: it returns the texts of its chunks one after the
    other when the cipher accepts them all, and a failure of the cipher that
    it throws is the cipher's verdict on one of them. *)
Lemma decrypt_chunks_run (key : list Z) (ctx : JsVal) (enc : string) (chunks : list Chunk) :
  forall (decrypted : string) (w : World),
    snd (decrypt_chunks key ctx enc chunks decrypted w) = w
    /\ match fst (decrypt_chunks key ctx enc chunks decrypted w) with
       | Return text =>
           exists texts, Forall2 (accepts (cipher w) key ctx enc) chunks texts
                         /\ text = decrypted +:+ String.concat "" texts
       | Throw (CipherError msg) =>
           exists chunk, In chunk chunks /\ rejects (cipher w) key ctx enc chunk msg
       | Throw _ => True
       end.
Proof.
  induction chunks as [|chunk rest IH]; intros decrypted w.
  - simpl. split; [reflexivity|]. exists []. split; [constructor|].
    simpl. now rewrite append_empty.
  - cbn [decrypt_chunks]. unfold bind.
    destruct (decrypt_chunk_run key ctx enc chunk w) as [Hw Hfirst].
    destruct (decrypt_chunk key ctx enc chunk w) as [[text|x] w1]; simpl in Hw, Hfirst;
      subst w1.
    + destruct (IH (decrypted +:+ text) w) as [Hw Hrest].
      split; [exact Hw|].
      destruct (fst (decrypt_chunks key ctx enc rest (decrypted +:+ text) w))
        as [result|[]]; try exact I.
      * destruct Hrest as (texts & Hall & ->).
        exists (text :: texts). split; [now constructor|].
        now rewrite append_associative, concat_cons.
      * destruct Hrest as (c & Hin & Hrej). exists c. split; [now right|exact Hrej].
    + simpl. split; [reflexivity|].
      destruct x; try exact I.
      exists chunk. split; [now left|exact Hfirst].
Qed.


(** A chunk the cipher rejects is not among the accepted ones. *)
Lemma accepted_not_rejected (gcm : Gcm) (key : list Z) (ctx : JsVal) (enc : string)
      (chunk : Chunk) (text msg : string) :
  accepts gcm key ctx enc chunk text -> rejects gcm key ctx enc chunk msg -> False.
Proof.
  intros (authTag & ciphertext & Htag & Hdata & Hanswer)
         (authTag' & ciphertext' & Htag' & Hdata' & Hrefusal).
  congruence.
Qed.

(** Once the key is there, a chunk the cipher rejects keeps [decrypt] from
    returning anything. *)
Lemma decrypt_fails_on_rejected_chunk (encryptedData : Envelope) (keyId : string)
      (options : Options) (w : World) (key_iv : list Z * list Z) (chunk : Chunk)
      (msg : string) :
  fst (_prepareKeyAndIV keyId w) = Return key_iv ->
  In chunk (chunks_of encryptedData) ->
  rejects (cipher w) (fst key_iv) (contextData options)
          (default "base64" (encodeInput options)) chunk msg ->
  exists x, fst (decrypt encryptedData keyId options w) = Throw x.
Proof.
  intros Hkey Hin Hrej.
  unfold decrypt, bind at 1.
  destruct (prepareKeyAndIV_cipher keyId w) as [Hcipher _].
  destruct (_prepareKeyAndIV keyId w) as [[key_iv'|x] w1]; simpl in Hkey, Hcipher |- *;
    [|discriminate].
  injection Hkey as ->.
  unfold bind at 1.
  destruct (decrypt_chunks_run (fst key_iv) (contextData options)
              (default "base64" (encodeInput options)) (chunks_of encryptedData) "" w1)
    as [_ Hrun].
  destruct (decrypt_chunks _ _ _ _ _ w1) as [[text|y] w2]; simpl in Hrun |- *; [|eauto].
  exfalso. destruct Hrun as (texts & Hall & _). rewrite Hcipher in Hall.
  clear - Hall Hin Hrej.
  induction Hall as [|c t cs ts Hc _ IH]; [contradiction|].
  destruct Hin as [<-|Hin]; [|now apply IH].
  exact (accepted_not_rejected _ _ _ _ _ _ _ Hc Hrej).
Qed.

(** The scenario of the specification under the stand-in cipher: the sealed
    chunk comes back as its text, and with one bit of its tag flipped the
    cipher's failure reaches the caller. *)
Lemma decrypt_sealed_and_tampered :
  fst (decrypt AesScenario.sealed AesScenario.k1 AesScenario.no_options AesScenario.with_k1)
  = Return "systolic-bp:118"
  /\ fst (decrypt AesScenario.tampered AesScenario.k1 AesScenario.no_options
                  AesScenario.with_k1)
     = Throw (CipherError "Unsupported state or unable to authenticate data").
Proof. vm_compute. split; reflexivity. Qed.

End AesProps.

(** ** The AES-256-CBC service *)

Module AesCbcProps.
Import Js AesCbc.

(** The service against OpenSSL's [enc -aes-256-cbc] on the same key, vector
    and text. *)
Example encrypt_vitals :
  fst (encrypt AesScenario.vitals AesScenario.cbc_key AesScenario.cbc_world)
  = Return ("0f0e0d0c0b0a09080706050403020100", AesScenario.vitals_ciphertext).
Proof. vm_compute. reflexivity. Qed.

(** A last block whose padding does not check is refused. *)
Example decrypt_bad_padding :
  decrypt "59e83016365a39f00098ba87c0ba67d686a529339f4fb14e463fc56bc57bb6fcf434843f3ff123d048b2c6195b064d9c"
          AesScenario.cbc_key "0f0e0d0c0b0a09080706050403020100"
  = Throw (CipherError "bad decrypt").
Proof. vm_compute. reflexivity. Qed.


End AesCbcProps.

(** ** The key management service *)

Module KmsProps.
Import Js KeyManagement StringFacts.

#[local] Opaque to_iso_string base64_encode base64_decode hex_encode dec to_string.
#[local] Opaque key_meta owner_of _getRotationPolicy _getSecurityTags or_default or_else.

(** *** Key metadata *)

(** The object [_parseKeyMetadata] builds has these nine properties and no
    other. *)
Lemma parse_shape (device meta : JsVal) :
  _parseKeyMetadata device = Return meta ->
  exists deviceId keyId keyType owner publicKey fingerprint policyName tags status,
    meta = JObj [("deviceId", deviceId); ("keyId", keyId); ("keyType", keyType);
                 ("owner", owner); ("publicKey", JBuf publicKey);
                 ("quantumFingerprint", fingerprint);
                 ("rotationPolicy", _getRotationPolicy policyName JUndefined);
                 ("securityTags", tags); ("status", status)].
Proof.
  unfold _parseKeyMetadata. intros H.
  repeat match type of H with
         | obind ?x _ = Return _ => destruct x eqn:?; cbn [obind] in H; [|discriminate]
         end.
  injection H as <-.
  match goal with
  | E : obind _ from_base64 = Return ?pk |- _ =>
      assert (exists bytes, pk = JBuf bytes) as [bytes ->]
  end.
  { match goal with
    | E : obind ?x from_base64 = Return _ |- _ =>
        destruct x as [[]|]; simpl in E; try discriminate; injection E as <-; eauto
    end. }
  repeat eexists.
Qed.

(** [_getKeyMetadata] changes nothing, and answers [null] or a parsed
    device. *)
Lemma getKeyMetadata_world (keyId : string) (w : World) :
  snd (_getKeyMetadata keyId w) = w.
Proof.
  unfold _getKeyMetadata, bind, fhir_search_device, lift, ret.
  destruct (fhir_up w); [|reflexivity]. cbn [get prop assoc String.eqb Ascii.eqb Bool.eqb].
  simpl.
  destruct (List.filter _ _) as [|device rest]; simpl; [reflexivity|].
  destruct (_parseKeyMetadata device); reflexivity.
Qed.

Lemma getKeyMetadata_answer (keyId : string) (w : World) (meta : JsVal) :
  fst (_getKeyMetadata keyId w) = Return meta ->
  meta = JNull \/ exists device, In device (resources w)
                                 /\ has_identifier keyId device = true
                                 /\ _parseKeyMetadata device = Return meta.
Proof.
  unfold _getKeyMetadata, bind, fhir_search_device, lift, ret.
  destruct (fhir_up w); [|discriminate]. simpl.
  destruct (List.filter _ _) as [|device rest] eqn:F; simpl.
  - intros [= <-]. auto.
  - assert (Hin : In device (List.filter (has_identifier keyId) (resources w)))
      by (rewrite F; left; reflexivity).
    apply filter_In in Hin as [Hin Hid].
    destruct (_parseKeyMetadata device) eqn:P; simpl; [|discriminate].
    intros [= <-]. eauto.
Qed.

(** [_updateKeyMetadata] reads [current.extensions], a property the parsed
    metadata does not have: it throws whatever the key and the update, and
    changes nothing. *)
Lemma updateKeyMetadata_throws (keyId : string) (updates : JsVal) (w : World) :
  exists x, _updateKeyMetadata keyId updates w = (Throw x, w).
Proof.
  unfold _updateKeyMetadata, bind.
  pose proof (getKeyMetadata_world keyId w) as Hw.
  pose proof (getKeyMetadata_answer keyId w) as Ha.
  destruct (_getKeyMetadata keyId w) as [[meta|x] w1]; simpl in Hw, Ha; subst w1;
    [|eauto].
  destruct (Ha meta eq_refl) as [->|(device & _ & _ & P)]; [simpl; eauto|].
  apply parse_shape in P
    as (deviceId & kid & keyType & owner & publicKey & fp & policyName & tags & status & ->).
  simpl. eauto.
Qed.

(** *** Revocation *)

(** C2: what the code does.  [revokeKey] never completes: whether the key is
    known or not it throws before the status is written and before the cache
    entry is deleted, and leaves the cache, like everything else, as it
    was. *)
Theorem revokeKey_never_completes (keyId : string) (reason : JsVal) (w : World) :
  exists x, revokeKey keyId reason w = (Throw x, w).
Proof.
  unfold revokeKey, bind at 1.
  pose proof (getKeyMetadata_world keyId w) as Hw.
  destruct (_getKeyMetadata keyId w) as [[meta|x] w1]; simpl in Hw; subst w1; [|eauto].
  unfold bind at 1, gets at 1. unfold bind at 1.
  destruct (updateKeyMetadata_throws keyId
              (revocation (now w) (or_default reason (JStr "security-incident"))) w)
    as [x ->].
  eauto.
Qed.

(** *** The cache *)

Lemma cache_hit (keyId : string) (w : World) (cached : Cached) :
  keyCache w !! keyId = Some cached ->
  now w < expiresAt cached ->
  getPrivateKey keyId w = (Return (privateKey cached), w).
Proof.
  intros Hhit Hlive. unfold getPrivateKey, bind, gets, ret. simpl. rewrite Hhit.
  destruct (Z.ltb_spec (now w) (expiresAt cached)); [reflexivity|lia].
Qed.





(** *** Running a method step by step *)

Lemma bind_run {A B} (m : Eff World A) (k : A -> Eff World B) (w : World) :
  bind m k w = match m w with
               | (Return a, w') => k a w'
               | (Throw x, w') => (Throw x, w')
               end.
Proof. reflexivity. Qed.

Lemma bind_lift {A B} (o : Outcome A) (k : A -> Eff World B) (w : World) :
  bind (lift o) k w = match o with
                      | Return a => k a w
                      | Throw x => (Throw x, w)
                      end.
Proof. unfold bind, lift. destruct o; reflexivity. Qed.

Lemma bind_call {A B} (failure : string -> Exn) (request : World -> Ext A)
      (k : A -> Eff World B) (w : World) :
  bind (call failure request) k w = match request w with
                                    | Answer a => k a w
                                    | Unavailable msg => (Throw (failure msg), w)
                                    end.
Proof. unfold bind, call. destruct (request w); reflexivity. Qed.

Lemma bind_gets {A B} (f : World -> A) (k : A -> Eff World B) (w : World) :
  bind (gets f) k w = k (f w) w.
Proof. reflexivity. Qed.

Lemma bind_modify {B} (f : World -> World) (k : unit -> Eff World B) (w : World) :
  bind (modify f) k w = k tt (f w).
Proof. reflexivity. Qed.

Lemma bind_randomUUID {B} (k : string -> Eff World B) (w : World) :
  bind crypto_randomUUID k w = k (randomUUID w (drawn w)) (next_draw w).
Proof. reflexivity. Qed.

(** One step of a method: a pure step or a call that throws ends the goal
    through [tac]. *)
Ltac step tac :=
  first
    [ rewrite bind_gets
    | rewrite bind_modify
    | rewrite bind_randomUUID
    | rewrite bind_lift;
      match goal with
      | |- context [match ?o with Return _ => _ | Throw _ => _ end] =>
          destruct o eqn:?; [|solve [tac]]
      end
    | rewrite bind_call;
      match goal with
      | |- context [match ?r with Answer _ => _ | Unavailable _ => _ end] =>
          destruct r eqn:?; [|solve [tac]]
      end ];
  cbv beta zeta.

Lemma storeKeyMetadata_cache (keyMeta : JsVal) (w : World) :
  keyCache (snd (_storeKeyMetadata keyMeta w)) = keyCache w.
Proof.
  unfold _storeKeyMetadata. repeat step ltac:(reflexivity).
  unfold fhir_create. destruct (fhir_up w); reflexivity.
Qed.



(** C2 at the failing input: k1 has just been generated, so its private key
    is cached; [revokeKey(k1)] throws and the next [getPrivateKey(k1)] hands
    out the cached key. *)
Lemma revoked_key_still_served :
  revokeKey KmsScenario.k1 JUndefined KmsScenario.with_k1
  = (Throw (TypeError "Cannot read properties of undefined (reading 'map')"),
     KmsScenario.with_k1)
  /\ getPrivateKey KmsScenario.k1 KmsScenario.with_k1
     = (Return (JStr "secret of Patient/patient-42/data-encryption"), KmsScenario.with_k1).
Proof. split; vm_compute; reflexivity. Qed.

(** *** The cache against the stored status *)



(** *** Rotation *)



#[local] Transparent _getRotationPolicy or_default.



#[local] Transparent owner_of to_string.


#[local] Transparent key_meta.



(** Once the successor is generated, [rotateKey] goes on to ask for the
    predecessor's retirement. *)
Lemma rotateKey_known (keyId : string) (w w1 : World) (oldKey params newKey newId : JsVal) :
  fst (_getKeyMetadata keyId w) = Return oldKey ->
  oldKey <> JNull ->
  successor_params oldKey = Return params ->
  generateKey params w = (Return newKey, w1) ->
  get newKey "keyId" = Return newId ->
  rotateKey keyId w
  = bind (_updateKeyMetadata keyId (retirement (now w1) newId))
         (fun _ => record_rotation oldKey newKey) w1.
Proof.
  intros Hold Hnn Hparams Hgen Hid. unfold rotateKey. rewrite bind_run.
  pose proof (getKeyMetadata_world keyId w) as Hw.
  destruct (getKeyMetadata_answer keyId w oldKey Hold) as [->|(device & _ & _ & P)];
    [congruence|].
  destruct (_getKeyMetadata keyId w) as [[meta|x] w0]; simpl in *; [|discriminate].
  injection Hold as ->. subst w0.
  apply parse_shape in P
    as (deviceId & kid & keyType & owner & publicKey & fp & policyName & tags & status & ->).
  cbn [truthy negb].
  rewrite bind_lift, Hparams, bind_run, Hgen, bind_gets, bind_lift, Hid. reflexivity.
Qed.




End KmsProps.

(** ** The block cipher *)

Module Aes256Props.
Import Bytes Aes256.


Lemma in_all_bytes (b : Z) : byte b -> In b all_bytes.
Proof.
  intros H. unfold byte in H. unfold all_bytes. apply in_map_iff. exists (Z.to_nat b).
  split; [lia|]. apply in_seq. lia.
Qed.

(** A check that holds of all 256 bytes holds of every byte. *)
Lemma byte_check (f : Z -> bool) :
  forallb f all_bytes = true -> forall b, byte b -> f b = true.
Proof.
  intros H b Hb. rewrite forallb_forall in H. apply H. now apply in_all_bytes.
Qed.

Lemma byte_check2 (f : Z -> Z -> bool) :
  forallb (fun a => forallb (f a) all_bytes) all_bytes = true ->
  forall a b, byte a -> byte b -> f a b = true.
Proof.
  intros H a b Ha Hb.
  apply (byte_check (f a)); [|assumption].
  now apply (byte_check (fun a => forallb (f a) all_bytes)).
Qed.

Lemma sbox_inverse (b : Z) :
  byte b -> nth (Z.to_nat (nth (Z.to_nat b) sbox 0)) inv_sbox 0 = b.
Proof.
  intros H. apply Z.eqb_eq.
  apply (byte_check (fun b => nth (Z.to_nat (nth (Z.to_nat b) sbox 0)) inv_sbox 0 =? b));
    [vm_compute; reflexivity|assumption].
Qed.


Lemma is_byte_spec (b : Z) : is_byte b = true <-> byte b.
Proof. unfold is_byte, byte. rewrite andb_true_iff, Z.leb_le, Z.ltb_lt. tauto. Qed.

Lemma sbox_byte (b : Z) : byte b -> byte (nth (Z.to_nat b) sbox 0).
Proof.
  intros H. apply is_byte_spec.
  apply (byte_check (fun b => is_byte (nth (Z.to_nat b) sbox 0)));
    [vm_compute; reflexivity|assumption].
Qed.

Lemma xor_byte (a b : Z) : byte a -> byte b -> byte (Z.lxor a b).
Proof.
  intros Ha Hb. apply is_byte_spec.
  apply (byte_check2 (fun a b => is_byte (Z.lxor a b)));
    [vm_compute; reflexivity|assumption|assumption].
Qed.


(** *** The columns *)

Lemma xtime_byte (a : Z) : byte a -> byte (xtime a).
Proof.
  intros H. apply is_byte_spec.
  apply (byte_check (fun a => is_byte (xtime a))); [vm_compute; reflexivity|assumption].
Qed.

Lemma xtime_lxor (a b : Z) :
  byte a -> byte b -> xtime (Z.lxor a b) = Z.lxor (xtime a) (xtime b).
Proof.
  intros Ha Hb. apply Z.eqb_eq.
  apply (byte_check2 (fun a b => xtime (Z.lxor a b) =? Z.lxor (xtime a) (xtime b)));
    [vm_compute; reflexivity|assumption|assumption].
Qed.

Lemma lxor_swap (p p' q q' : Z) :
  Z.lxor (Z.lxor p p') (Z.lxor q q') = Z.lxor (Z.lxor p q) (Z.lxor p' q').
Proof.
  rewrite !Z.lxor_assoc. f_equal.
  rewrite <- !Z.lxor_assoc. f_equal. apply Z.lxor_comm.
Qed.

Lemma gmul_bits_byte (bits : nat) :
  forall a b, byte a -> byte (gmul_bits bits a b).
Proof.
  induction bits as [|bits IH]; intros a b Ha; simpl.
  - unfold byte. lia.
  - apply xor_byte; [destruct (Z.odd b); [assumption|unfold byte; lia]|].
    apply IH. now apply xtime_byte.
Qed.

(** Multiplication distributes over the sum of GF(2^8). *)
Lemma gmul_bits_lxor (bits : nat) :
  forall a a' b, byte a -> byte a' ->
    gmul_bits bits (Z.lxor a a') b = Z.lxor (gmul_bits bits a b) (gmul_bits bits a' b).
Proof.
  induction bits as [|bits IH]; intros a a' b Ha Ha'; simpl; [reflexivity|].
  rewrite xtime_lxor, IH by auto using xtime_byte.
  rewrite <- lxor_swap. f_equal.
  destruct (Z.odd b); [reflexivity|]. reflexivity.
Qed.

Lemma gmul_byte (a k : Z) : byte a -> byte (gmul a k).
Proof. apply gmul_bits_byte. Qed.

Lemma gmul_sum (a b c d k : Z) :
  byte a -> byte b -> byte c -> byte d ->
  gmul (Z.lxor (Z.lxor a b) (Z.lxor c d)) k
  = Z.lxor (Z.lxor (gmul a k) (gmul b k)) (Z.lxor (gmul c k) (gmul d k)).
Proof.
  intros Ha Hb Hc Hd. unfold gmul.
  rewrite gmul_bits_lxor, (gmul_bits_lxor 8 a b), (gmul_bits_lxor 8 c d);
    auto using xor_byte.
Qed.

Lemma lxor_swap_pairs (a b c d a' b' c' d' : Z) :
  Z.lxor (Z.lxor (Z.lxor a b) (Z.lxor c d)) (Z.lxor (Z.lxor a' b') (Z.lxor c' d'))
  = Z.lxor (Z.lxor (Z.lxor a a') (Z.lxor b b')) (Z.lxor (Z.lxor c c') (Z.lxor d d')).
Proof.
  rewrite (lxor_swap (Z.lxor a b) (Z.lxor c d) (Z.lxor a' b') (Z.lxor c' d')).
  now rewrite (lxor_swap a b a' b'), (lxor_swap c d c' d').
Qed.

(** Four sums of four, summed by rows or by columns. *)
Lemma lxor_transpose (a0 b0 c0 d0 a1 b1 c1 d1 a2 b2 c2 d2 a3 b3 c3 d3 : Z) :
  Z.lxor (Z.lxor (Z.lxor (Z.lxor a0 b0) (Z.lxor c0 d0))
                 (Z.lxor (Z.lxor a1 b1) (Z.lxor c1 d1)))
         (Z.lxor (Z.lxor (Z.lxor a2 b2) (Z.lxor c2 d2))
                 (Z.lxor (Z.lxor a3 b3) (Z.lxor c3 d3)))
  = Z.lxor (Z.lxor (Z.lxor (Z.lxor a0 a1) (Z.lxor a2 a3))
                   (Z.lxor (Z.lxor b0 b1) (Z.lxor b2 b3)))
           (Z.lxor (Z.lxor (Z.lxor c0 c1) (Z.lxor c2 c3))
                   (Z.lxor (Z.lxor d0 d1) (Z.lxor d2 d3))).
Proof.
  rewrite (lxor_swap_pairs a0 b0 c0 d0 a1 b1 c1 d1).
  rewrite (lxor_swap_pairs a2 b2 c2 d2 a3 b3 c3 d3).
  apply lxor_swap_pairs.
Qed.

(** The product of the inverse matrix with the matrix of [mix_columns], one
    entry at a time: what byte [x] of a column, in each of its four places,
    contributes to a byte of the result. *)
Ltac entry :=
  intros x Hx; apply Z.eqb_eq; revert x Hx; apply byte_check; vm_compute; reflexivity.

Lemma entry_0a (x : Z) : byte x ->
  Z.lxor (Z.lxor (gmul (gmul x 2) 14) (gmul x 11)) (Z.lxor (gmul x 13) (gmul (gmul x 3) 9)) = x.
Proof. revert x. entry. Qed.

Lemma entry_0b (x : Z) : byte x ->
  Z.lxor (Z.lxor (gmul (gmul x 3) 14) (gmul (gmul x 2) 11)) (Z.lxor (gmul x 13) (gmul x 9)) = 0.
Proof. revert x. entry. Qed.

Lemma entry_0c (x : Z) : byte x ->
  Z.lxor (Z.lxor (gmul x 14) (gmul (gmul x 3) 11)) (Z.lxor (gmul (gmul x 2) 13) (gmul x 9)) = 0.
Proof. revert x. entry. Qed.

Lemma entry_0d (x : Z) : byte x ->
  Z.lxor (Z.lxor (gmul x 14) (gmul x 11)) (Z.lxor (gmul (gmul x 3) 13) (gmul (gmul x 2) 9)) = 0.
Proof. revert x. entry. Qed.

Lemma entry_1a (x : Z) : byte x ->
  Z.lxor (Z.lxor (gmul (gmul x 2) 9) (gmul x 14)) (Z.lxor (gmul x 11) (gmul (gmul x 3) 13)) = 0.
Proof. revert x. entry. Qed.

Lemma entry_1b (x : Z) : byte x ->
  Z.lxor (Z.lxor (gmul (gmul x 3) 9) (gmul (gmul x 2) 14)) (Z.lxor (gmul x 11) (gmul x 13)) = x.
Proof. revert x. entry. Qed.

Lemma entry_1c (x : Z) : byte x ->
  Z.lxor (Z.lxor (gmul x 9) (gmul (gmul x 3) 14)) (Z.lxor (gmul (gmul x 2) 11) (gmul x 13)) = 0.
Proof. revert x. entry. Qed.

Lemma entry_1d (x : Z) : byte x ->
  Z.lxor (Z.lxor (gmul x 9) (gmul x 14)) (Z.lxor (gmul (gmul x 3) 11) (gmul (gmul x 2) 13)) = 0.
Proof. revert x. entry. Qed.

Lemma entry_2a (x : Z) : byte x ->
  Z.lxor (Z.lxor (gmul (gmul x 2) 13) (gmul x 9)) (Z.lxor (gmul x 14) (gmul (gmul x 3) 11)) = 0.
Proof. revert x. entry. Qed.

Lemma entry_2b (x : Z) : byte x ->
  Z.lxor (Z.lxor (gmul (gmul x 3) 13) (gmul (gmul x 2) 9)) (Z.lxor (gmul x 14) (gmul x 11)) = 0.
Proof. revert x. entry. Qed.

Lemma entry_2c (x : Z) : byte x ->
  Z.lxor (Z.lxor (gmul x 13) (gmul (gmul x 3) 9)) (Z.lxor (gmul (gmul x 2) 14) (gmul x 11)) = x.
Proof. revert x. entry. Qed.

Lemma entry_2d (x : Z) : byte x ->
  Z.lxor (Z.lxor (gmul x 13) (gmul x 9)) (Z.lxor (gmul (gmul x 3) 14) (gmul (gmul x 2) 11)) = 0.
Proof. revert x. entry. Qed.

Lemma entry_3a (x : Z) : byte x ->
  Z.lxor (Z.lxor (gmul (gmul x 2) 11) (gmul x 13)) (Z.lxor (gmul x 9) (gmul (gmul x 3) 14)) = 0.
Proof. revert x. entry. Qed.

Lemma entry_3b (x : Z) : byte x ->
  Z.lxor (Z.lxor (gmul (gmul x 3) 11) (gmul (gmul x 2) 13)) (Z.lxor (gmul x 9) (gmul x 14)) = 0.
Proof. revert x. entry. Qed.

Lemma entry_3c (x : Z) : byte x ->
  Z.lxor (Z.lxor (gmul x 11) (gmul (gmul x 3) 13)) (Z.lxor (gmul (gmul x 2) 9) (gmul x 14)) = 0.
Proof. revert x. entry. Qed.

Lemma entry_3d (x : Z) : byte x ->
  Z.lxor (Z.lxor (gmul x 11) (gmul x 13)) (Z.lxor (gmul (gmul x 3) 9) (gmul (gmul x 2) 14)) = x.
Proof. revert x. entry. Qed.

Lemma lxor_diagonal (x : Z) :
  Z.lxor (Z.lxor x 0) (Z.lxor 0 0) = x
  /\ Z.lxor (Z.lxor 0 x) (Z.lxor 0 0) = x
  /\ Z.lxor (Z.lxor 0 0) (Z.lxor x 0) = x
  /\ Z.lxor (Z.lxor 0 0) (Z.lxor 0 x) = x.
Proof.
  rewrite ?Z.lxor_0_r, ?Z.lxor_0_l, ?Z.lxor_0_r. auto.
Qed.

#[local] Opaque gmul.
Lemma inv_mix_column (a b c d : Z) (rest : list Z) :
  byte a -> byte b -> byte c -> byte d ->
  inv_mix_columns (mix_columns (a :: b :: c :: d :: rest))
  = a :: b :: c :: d :: inv_mix_columns (mix_columns rest).
Proof.
  intros Ha Hb Hc Hd.
  assert (H2 : forall x, byte x -> byte (gmul x 2)) by (intros; apply gmul_byte; assumption).
  assert (H3 : forall x, byte x -> byte (gmul x 3)) by (intros; apply gmul_byte; assumption).
  cbn [mix_columns].
  cbn [inv_mix_columns].
  rewrite (gmul_sum (gmul a 2) (gmul b 3) c d 14) by auto.
  rewrite (gmul_sum (gmul a 2) (gmul b 3) c d 11) by auto.
  rewrite (gmul_sum (gmul a 2) (gmul b 3) c d 13) by auto.
  rewrite (gmul_sum (gmul a 2) (gmul b 3) c d 9) by auto.
  rewrite (gmul_sum a (gmul b 2) (gmul c 3) d 14) by auto.
  rewrite (gmul_sum a (gmul b 2) (gmul c 3) d 11) by auto.
  rewrite (gmul_sum a (gmul b 2) (gmul c 3) d 13) by auto.
  rewrite (gmul_sum a (gmul b 2) (gmul c 3) d 9) by auto.
  rewrite (gmul_sum a b (gmul c 2) (gmul d 3) 14) by auto.
  rewrite (gmul_sum a b (gmul c 2) (gmul d 3) 11) by auto.
  rewrite (gmul_sum a b (gmul c 2) (gmul d 3) 13) by auto.
  rewrite (gmul_sum a b (gmul c 2) (gmul d 3) 9) by auto.
  rewrite (gmul_sum (gmul a 3) b c (gmul d 2) 14) by auto.
  rewrite (gmul_sum (gmul a 3) b c (gmul d 2) 11) by auto.
  rewrite (gmul_sum (gmul a 3) b c (gmul d 2) 13) by auto.
  rewrite (gmul_sum (gmul a 3) b c (gmul d 2) 9) by auto.
  f_equal; [|f_equal; [|f_equal; [|f_equal]]]; rewrite lxor_transpose.
  - rewrite entry_0a, entry_0b, entry_0c, entry_0d by assumption. apply lxor_diagonal.
  - rewrite entry_1a, entry_1b, entry_1c, entry_1d by assumption. apply lxor_diagonal.
  - rewrite entry_2a, entry_2b, entry_2c, entry_2d by assumption. apply lxor_diagonal.
  - rewrite entry_3a, entry_3b, entry_3c, entry_3d by assumption. apply lxor_diagonal.
Qed.

(** *** States *)

Lemma bytes_app (xs ys : list Z) : bytes xs -> bytes ys -> bytes (xs ++ ys)%list.
Proof. intros Hx Hy. apply List.Forall_app. now split. Qed.

Lemma state_cases (st : list Z) :
  List.length st = 16%nat ->
  exists a0 a1 a2 a3 b0 b1 b2 b3 c0 c1 c2 c3 d0 d1 d2 d3,
    st = [a0; a1; a2; a3; b0; b1; b2; b3; c0; c1; c2; c3; d0; d1; d2; d3].
Proof.
  intros H.
  do 16 (destruct st as [|? st]; [discriminate|]).
  destruct st; [|discriminate]. repeat eexists.
Qed.

Lemma sub_bytes_state (st : list Z) : state st -> state (sub_bytes st).
Proof.
  intros [Hlen Hb]. split; unfold sub_bytes.
  - now rewrite List.length_map.
  - apply List.Forall_map. eapply List.Forall_impl; [|exact Hb].
    intros b. apply sbox_byte.
Qed.

Lemma inv_sub_bytes_sub_bytes (st : list Z) : bytes st -> inv_sub_bytes (sub_bytes st) = st.
Proof.
  intros Hb. unfold inv_sub_bytes, sub_bytes. rewrite List.map_map.
  induction Hb as [|b st Hb _ IH]; [reflexivity|].
  cbn [List.map]. rewrite sbox_inverse by assumption. now rewrite IH.
Qed.

Lemma shift_rows_state (st : list Z) : state st -> state (shift_rows st).
Proof.
  intros [Hlen Hb]. destruct (state_cases st Hlen) as (? & ? & ? & ? & ? & ? & ? & ? & ? & ? & ? & ? & ? & ? & ? & ? & ->).
  split; [reflexivity|].
  unfold bytes in *. rewrite List.Forall_forall in *. intros elt Helt. apply Hb.
  simpl in Helt |- *. tauto.
Qed.

Lemma inv_shift_rows_shift_rows (st : list Z) :
  List.length st = 16%nat -> inv_shift_rows (shift_rows st) = st.
Proof.
  intros Hlen. destruct (state_cases st Hlen) as (? & ? & ? & ? & ? & ? & ? & ? & ? & ? & ? & ? & ? & ? & ? & ? & ->).
  reflexivity.
Qed.

Lemma mix_columns_state (st : list Z) : state st -> state (mix_columns st).
Proof.
  intros [Hlen Hb]. destruct (state_cases st Hlen) as (? & ? & ? & ? & ? & ? & ? & ? & ? & ? & ? & ? & ? & ? & ? & ? & ->).
  split; [reflexivity|].
  unfold bytes in *.
  repeat match goal with
         | H : List.Forall byte (_ :: _) |- _ => inversion H; subst; clear H
         end.
  cbn [mix_columns].
  repeat (apply List.Forall_cons;
          [apply xor_byte; apply xor_byte; auto using gmul_byte|]).
  apply List.Forall_nil.
Qed.

Lemma inv_mix_columns_mix_columns (st : list Z) :
  state st -> inv_mix_columns (mix_columns st) = st.
Proof.
  intros [Hlen Hb]. destruct (state_cases st Hlen) as (? & ? & ? & ? & ? & ? & ? & ? & ? & ? & ? & ? & ? & ? & ? & ? & ->).
  unfold bytes in *.
  repeat match goal with
         | H : List.Forall byte (_ :: _) |- _ => inversion H; subst; clear H
         end.
  rewrite !inv_mix_column by assumption. reflexivity.
Qed.

Lemma xor_bytes_length (a b : list Z) :
  List.length a = List.length b -> List.length (xor_bytes a b) = List.length a.
Proof.
  intros H. unfold xor_bytes. rewrite List.length_map, List.length_combine. lia.
Qed.

Lemma xor_bytes_bytes (a b : list Z) : bytes a -> bytes b -> bytes (xor_bytes a b).
Proof.
  intros Ha. revert b. induction Ha as [|x a Hx _ IH]; intros b Hb; [constructor|].
  destruct Hb as [|y b Hy Hb]; [constructor|].
  unfold xor_bytes. simpl. constructor; [now apply xor_byte|]. now apply IH.
Qed.

Lemma xor_bytes_state (a b : list Z) : state a -> state b -> state (xor_bytes a b).
Proof.
  intros [La Ba] [Lb Bb]. split; [|now apply xor_bytes_bytes].
  rewrite xor_bytes_length; congruence.
Qed.

Lemma xor_bytes_cancel (a b : list Z) :
  List.length a = List.length b -> xor_bytes (xor_bytes a b) b = a.
Proof.
  revert b. induction a as [|x a IH]; intros [|y b] H; try discriminate; [reflexivity|].
  unfold xor_bytes in *. simpl. injection H as H.
  rewrite IH by assumption. f_equal.
  now rewrite Z.lxor_assoc, Z.lxor_nilpotent, Z.lxor_0_r.
Qed.


(** *** The key schedule *)


Lemma sub_bytes_bytes (bs : list Z) : bytes bs -> bytes (sub_bytes bs).
Proof.
  intros Hb. unfold sub_bytes. apply List.Forall_map.
  eapply List.Forall_impl; [|exact Hb]. intros b. apply sbox_byte.
Qed.

Lemma sub_bytes_word (w : list Z) : word w -> word (sub_bytes w).
Proof.
  intros [Hlen Hb]. split; [|now apply sub_bytes_bytes].
  unfold sub_bytes. now rewrite List.length_map.
Qed.

Lemma xor_bytes_word (a b : list Z) : word a -> word b -> word (xor_bytes a b).
Proof.
  intros [La Ba] [Lb Bb]. split; [|now apply xor_bytes_bytes].
  rewrite xor_bytes_length; congruence.
Qed.

Lemma nth_word (n : nat) (ws : list (list Z)) :
  List.Forall word ws -> (n < List.length ws)%nat -> word (nth n ws []).
Proof.
  intros H Hn. rewrite List.Forall_forall in H. apply H. now apply nth_In.
Qed.

Lemma rotated_word (w : list Z) : word w -> word (skipn 1 w ++ firstn 1 w)%list.
Proof.
  intros [Hlen Hb].
  do 4 (destruct w as [|? w]; [discriminate|]). destruct w; [|discriminate].
  split; [reflexivity|].
  unfold bytes in *. rewrite List.Forall_forall in *. intros elt Helt. apply Hb.
  simpl in Helt |- *. tauto.
Qed.

Lemma round_constant_word (i : nat) : word [nth i [1; 2; 4; 8; 16; 32; 64] 0; 0; 0; 0].
Proof.
  split; [reflexivity|].
  assert (Hrc : byte (nth i [1; 2; 4; 8; 16; 32; 64] 0)).
  { unfold byte. do 7 (destruct i as [|i]; [simpl; lia|]).
    rewrite nth_overflow by (simpl; lia). lia. }
  assert (Hzero : byte 0) by (unfold byte; lia).
  repeat (apply List.Forall_cons; [assumption|]). apply List.Forall_nil.
Qed.

Lemma expand_words (words : nat) :
  forall (i : nat) (rev_w : list (list Z)),
    List.Forall word rev_w -> (8 <= List.length rev_w)%nat ->
    List.Forall word (expand words i rev_w)
    /\ List.length (expand words i rev_w) = (words + List.length rev_w)%nat.
Proof.
  induction words as [|words IH]; intros i rev_w Hw Hlen; [now split|].
  cbn [expand].
  assert (Hprevious : word (nth 0 rev_w [])) by (apply nth_word; [assumption|lia]).
  assert (Hold : word (nth 7 rev_w [])) by (apply nth_word; [assumption|lia]).
  match goal with
  | |- context [expand words (S i) (?new :: rev_w)] =>
      assert (Hnew : word new)
  end.
  { apply xor_bytes_word; [assumption|].
    destruct (i mod 8 =? 0)%nat.
    - apply xor_bytes_word; [|apply round_constant_word].
      apply sub_bytes_word. now apply rotated_word.
    - destruct (i mod 8 =? 4)%nat; [now apply sub_bytes_word|assumption]. }
  edestruct (IH (S i)) as [Hall Hn];
    [apply List.Forall_cons; [exact Hnew|exact Hw]|simpl; lia|].
  split; [exact Hall|]. rewrite Hn. simpl. lia.
Qed.

Lemma words_of_words (n : nat) :
  forall bs, bytes bs -> List.length bs = (4 * n)%nat ->
    List.Forall word (words_of n bs) /\ List.length (words_of n bs) = n.
Proof.
  induction n as [|n IH]; intros bs Hb Hlen; [now split|].
  cbn [words_of].
  destruct (IH (skipn 4 bs)) as [Hall Hn].
  - unfold bytes. now apply list.Forall_drop.
  - rewrite List.length_skipn. lia.
  - split; [|simpl; now rewrite Hn].
    constructor; [|assumption]. split.
    + rewrite List.length_firstn. lia.
    + unfold bytes. now apply list.Forall_take.
Qed.

Lemma round_keys_of_states (n : nat) :
  forall schedule, List.Forall word schedule -> (4 * n <= List.length schedule)%nat ->
    List.Forall state (round_keys_of n schedule)
    /\ List.length (round_keys_of n schedule) = n.
Proof.
  induction n as [|n IH]; intros schedule Hw Hlen; [now split|].
  cbn [round_keys_of].
  destruct (IH (skipn 4 schedule)) as [Hall Hn].
  - now apply list.Forall_drop.
  - rewrite List.length_skipn. lia.
  - split; [|simpl; now rewrite Hn].
    constructor; [|assumption].
    do 4 (destruct schedule as [|? schedule]; [simpl in Hlen; lia|]).
    repeat match goal with
           | H : List.Forall word (_ :: _) |- _ => inversion H; subst; clear H
           end.
    repeat match goal with H : word _ |- _ => destruct H end.
    cbn [firstn List.concat]. split.
    + rewrite !List.length_app. simpl. lia.
    + rewrite List.app_nil_r. repeat apply bytes_app; assumption.
Qed.

(** A key of 32 bytes has fifteen round keys of sixteen bytes each. *)
Lemma round_keys_states (key : list Z) :
  bytes key -> List.length key = 32%nat ->
  List.Forall state (round_keys key) /\ List.length (round_keys key) = 15%nat.
Proof.
  intros Hb Hlen. unfold round_keys.
  destruct (words_of_words 8 key Hb Hlen) as [Hw Hn].
  destruct (expand_words 52 8 (List.rev (words_of 8 key))) as [He Hl].
  - now apply List.Forall_rev.
  - rewrite List.length_rev. lia.
  - rewrite List.length_rev, Hn in Hl.
    apply round_keys_of_states; [now apply List.Forall_rev|].
    rewrite List.length_rev. lia.
Qed.

(** *** The block cipher *)


Lemma round_state (st rk : list Z) : state st -> state rk -> state (round st rk).
Proof.
  intros Hs Hk. unfold round.
  auto using xor_bytes_state, mix_columns_state, shift_rows_state, sub_bytes_state.
Qed.

Lemma rounds_state (rks : list (list Z)) :
  forall st, state st -> List.Forall state rks -> state (fold_left round rks st).
Proof.
  induction rks as [|rk rks IH]; intros st Hs Hk; [assumption|].
  inversion Hk; subst. simpl. apply IH; [now apply round_state|assumption].
Qed.

Lemma inv_final (st : list Z) :
  state st -> inv_sub_bytes (inv_shift_rows (shift_rows (sub_bytes st))) = st.
Proof.
  intros [Hlen Hb].
  rewrite inv_shift_rows_shift_rows, inv_sub_bytes_sub_bytes; auto.
  unfold sub_bytes. now rewrite List.length_map.
Qed.

Lemma inv_round_round (st rk : list Z) :
  state st -> state rk ->
  inv_round (shift_rows (sub_bytes (round st rk))) rk = shift_rows (sub_bytes st).
Proof.
  intros Hs Hk. unfold inv_round.
  rewrite inv_final by now apply round_state.
  unfold round. rewrite xor_bytes_cancel.
  - apply inv_mix_columns_mix_columns.
    auto using shift_rows_state, sub_bytes_state.
  - destruct Hk as [-> _].
    apply (mix_columns_state (shift_rows (sub_bytes st))).
    auto using shift_rows_state, sub_bytes_state.
Qed.

Lemma inv_rounds_rounds (rks : list (list Z)) :
  forall st, state st -> List.Forall state rks ->
    fold_left inv_round (List.rev rks) (shift_rows (sub_bytes (fold_left round rks st)))
    = shift_rows (sub_bytes st).
Proof.
  induction rks as [|rk rks IH]; intros st Hs Hk; [reflexivity|].
  inversion Hk; subst. cbn [List.rev fold_left].
  rewrite List.fold_left_app. cbn [fold_left].
  rewrite IH by auto using round_state.
  now apply inv_round_round.
Qed.

(** Under a key of 32 bytes, a block of 16 bytes is enciphered to 16 bytes,
    and deciphering them gives the block back. *)
Lemma decrypt_block_encrypt_block (key block : list Z) :
  bytes key -> List.length key = 32%nat -> state block ->
  state (encrypt_block key block)
  /\ decrypt_block key (encrypt_block key block) = block.
Proof.
  intros Hb Hlen Hs.
  destruct (round_keys_states key Hb Hlen) as [Hk Hn].
  unfold encrypt_block, decrypt_block.
  destruct (round_keys key) as [|first rest]; [discriminate|].
  inversion Hk as [|? ? Hfirst Hrest]; subst.
  injection Hn as Hn.
  assert (Hmiddle : List.Forall state (firstn 13 rest)) by now apply list.Forall_take.
  assert (Hlast : state (nth 13 rest [])).
  { rewrite List.Forall_forall in Hrest. apply Hrest. apply nth_In. lia. }
  change (fun st rk => xor_bytes (mix_columns (shift_rows (sub_bytes st))) rk) with round.
  change (fun st rk => inv_mix_columns (xor_bytes (inv_sub_bytes (inv_shift_rows st)) rk))
    with inv_round.
  assert (H0 : state (xor_bytes block first)) by now apply xor_bytes_state.
  pose proof (rounds_state (firstn 13 rest) _ H0 Hmiddle) as Hst.
  set (st := fold_left round (firstn 13 rest) (xor_bytes block first)) in *.
  split.
  - auto using xor_bytes_state, shift_rows_state, sub_bytes_state.
  - rewrite xor_bytes_cancel.
    + unfold st. rewrite inv_rounds_rounds by assumption.
      rewrite inv_final by assumption.
      apply xor_bytes_cancel. destruct Hs as [-> _]. now destruct Hfirst as [-> _].
    + destruct Hlast as [-> _].
      apply (shift_rows_state (sub_bytes st)). now apply sub_bytes_state.
Qed.

End Aes256Props.

(** ** Encodings *)

Module CodecProps.
Import Js Bytes StringFacts Aes256Props.

Lemma append_nil_l (s : string) : "" +:+ s = s.
Proof. reflexivity. Qed.

Lemma list_ascii_length (s : string) :
  List.length (list_ascii_of_string s) = String.length s.
Proof. induction s as [|c s IH]; [reflexivity|]. simpl. now rewrite IH. Qed.

Lemma append_length (s t : string) :
  String.length (s +:+ t) = (String.length s + String.length t)%nat.
Proof.
  induction s as [|c s IH]; [reflexivity|].
  rewrite append_cons. simpl. now rewrite IH.
Qed.

(** *** Text and bytes *)

Lemma bytes_of_string_bytes (s : string) : bytes (bytes_of_string s).
Proof.
  unfold bytes_of_string, bytes. apply List.Forall_map, List.Forall_forall.
  intros c _. unfold byte. pose proof (nat_ascii_bounded c). lia.
Qed.

Lemma string_of_bytes_of_string (s : string) : string_of_bytes (bytes_of_string s) = s.
Proof.
  unfold string_of_bytes, bytes_of_string. rewrite List.map_map.
  rewrite (List.map_ext _ (fun c => c)).
  - rewrite List.map_id. apply string_of_list_ascii_of_string.
  - intros c. rewrite Nat2Z.id. apply ascii_nat_embedding.
Qed.

Lemma bytes_of_string_of_bytes (bs : list Z) :
  bytes bs -> bytes_of_string (string_of_bytes bs) = bs.
Proof.
  intros Hb. unfold string_of_bytes, bytes_of_string.
  rewrite list_ascii_of_string_of_list_ascii, List.map_map.
  induction Hb as [|b bs Hb _ IH]; [reflexivity|].
  cbn [List.map]. rewrite IH. f_equal.
  unfold byte in Hb. rewrite nat_ascii_embedding by lia. lia.
Qed.

(** *** Hex *)

Lemma hex_digit_value (n : Z) :
  0 <= n < 16 ->
  exists c, hex_digit n = String c EmptyString /\ hex_value c = Some n.
Proof.
  intros H.
  assert (Hn : In n (List.map Z.of_nat (seq 0 16))).
  { apply in_map_iff. exists (Z.to_nat n). split; [lia|]. apply in_seq. lia. }
  clear H. cbv [seq List.map Z.of_nat Pos.of_succ_nat Pos.succ] in Hn.
  cbn [In] in Hn.
  repeat (destruct Hn as [<-|Hn]; [eexists; split; reflexivity|]).
  contradiction.
Qed.

Lemma hex_encode_cons (b : Z) (bs : list Z) :
  hex_encode (b :: bs) = hex_digit (b / 16) +:+ hex_digit (b mod 16) +:+ hex_encode bs.
Proof.
  unfold hex_encode. cbn [List.map]. rewrite AesProps.concat_cons.
  now rewrite append_associative.
Qed.

(** What [toString('hex')] writes, [Buffer.from(_, 'hex')] reads back. *)
Lemma hex_decode_encode (bs : list Z) : bytes bs -> hex_decode (hex_encode bs) = bs.
Proof.
  induction 1 as [|b bs Hb _ IH]; [reflexivity|].
  rewrite hex_encode_cons. unfold byte in Hb.
  destruct (hex_digit_value (b / 16)) as (c1 & -> & H1);
    [split; [apply Z.div_pos; lia|apply Z.div_lt_upper_bound; lia]|].
  destruct (hex_digit_value (b mod 16)) as (c2 & -> & H2);
    [apply Z.mod_pos_bound; lia|].
  rewrite !append_cons, !append_nil_l.
  cbn [hex_decode]. rewrite H1, H2, IH. f_equal.
  rewrite (Z.div_mod b 16) at 3 by lia. lia.
Qed.

Lemma hex_value_bound (c : ascii) (v : Z) : hex_value c = Some v -> 0 <= v < 16.
Proof.
  unfold hex_value.
  repeat match goal with
         | |- context [if ?b then _ else _] => destruct b eqn:?
         end; intros [= <-]; lia.
Qed.

Lemma hex_decode_bytes (s : string) : bytes (hex_decode s).
Proof.
  unfold bytes.
  assert (H : forall n s, (String.length s <= n)%nat -> List.Forall byte (hex_decode s)).
  { clear s. induction n as [|n IH]; intros s Hn.
    - destruct s; [constructor|simpl in Hn; lia].
    - destruct s as [|a [|b rest]]; try constructor.
      cbn [hex_decode].
      destruct (hex_value a) as [x|] eqn:Ha; [|constructor].
      destruct (hex_value b) as [y|] eqn:Hb; [|constructor].
      apply hex_value_bound in Ha, Hb.
      constructor; [unfold byte; lia|]. apply IH. simpl in Hn. lia. }
  now apply (H (String.length s)).
Qed.

Lemma hex_encode_length (bs : list Z) :
  String.length (hex_encode bs) = (2 * List.length bs)%nat.
Proof.
  induction bs as [|b bs IH]; [reflexivity|].
  rewrite hex_encode_cons. unfold hex_digit at 1 2.
  rewrite !append_cons, !append_nil_l.
  cbn [String.length]. rewrite IH. simpl. lia.
Qed.

End CodecProps.

(** ** Base64 *)

Module Base64Props.
Import Js Bytes StringFacts Aes256Props CodecProps.







End Base64Props.

(** ** The AES-256-CBC service: what [encrypt] writes, [decrypt] reads *)

Module AesCbcFacts.
Import Js Bytes Aes256 AesCbc StringFacts Aes256Props CodecProps.

(** *** Padding *)

Lemma pad_shape (text : list Z) :
  exists n : nat,
    (1 <= n <= 16)%nat
    /\ pad text = (text ++ repeat (Z.of_nat n) n)%list
    /\ ((List.length text + n) mod 16 = 0)%nat.
Proof.
  unfold pad.
  set (len := List.length text).
  exists (16 - len mod 16)%nat.
  assert (Hmod : (len mod 16 < 16)%nat) by (apply Nat.mod_upper_bound; lia).
  assert (Hz : 16 - Z.of_nat len mod 16 = Z.of_nat (16 - len mod 16)).
  { rewrite Nat2Z.inj_sub by lia.
    change 16 with (Z.of_nat 16) at 2. rewrite <- Nat2Z.inj_mod. reflexivity. }
  split; [lia|]. split.
  - rewrite Hz, Nat2Z.id. reflexivity.
  - rewrite (Nat.div_mod_eq len 16) at 1.
    replace (16 * (len / 16) + len mod 16 + (16 - len mod 16))%nat
      with ((len / 16 + 1) * 16)%nat by lia.
    apply Nat.Div0.mod_mul.
Qed.

Lemma last_repeat (l : list Z) (x : Z) (n : nat) :
  (0 < n)%nat -> List.last (l ++ repeat x n) 0 = x.
Proof.
  intros Hn. destruct n as [|n]; [lia|].
  replace (repeat x (S n)) with (repeat x n ++ [x])%list
    by (change [x] with (repeat x 1); rewrite <- repeat_app; f_equal; lia).
  rewrite List.app_assoc. apply List.last_last.
Qed.

(** What the cipher appends, the decipher takes off again. *)
Lemma unpad_pad (text : list Z) : unpad (pad text) = Some text.
Proof.
  destruct (pad_shape text) as (n & Hn & -> & _).
  unfold unpad.
  rewrite last_repeat by lia.
  rewrite List.length_app, repeat_length, Nat2Z.id.
  replace (List.length text + n - n)%nat with (List.length text) by lia.
  rewrite List.skipn_app, List.skipn_all, Nat.sub_diag, List.skipn_O. cbn [List.app].
  rewrite List.firstn_app, List.firstn_all, Nat.sub_diag, List.firstn_O, List.app_nil_r.
  assert (Hall : forallb (Z.eqb (Z.of_nat n)) (repeat (Z.of_nat n) n) = true).
  { apply forallb_forall. intros x Hx. apply repeat_spec in Hx. subst x.
    apply Z.eqb_refl. }
  rewrite Hall.
  replace (1 <=? Z.of_nat n) with true by (symmetry; apply Z.leb_le; lia).
  replace (Z.of_nat n <=? 16) with true by (symmetry; apply Z.leb_le; lia).
  replace (n <=? List.length text + n)%nat with true
    by (symmetry; apply Nat.leb_le; lia).
  reflexivity.
Qed.

Lemma pad_bytes (text : list Z) : bytes text -> bytes (pad text).
Proof.
  intros Hb. destruct (pad_shape text) as (n & Hn & -> & _).
  apply bytes_app; [assumption|].
  apply List.Forall_forall. intros x Hx. apply repeat_spec in Hx. subst x.
  unfold byte. lia.
Qed.

Lemma pad_length (text : list Z) :
  exists blocks : nat,
    (0 < blocks)%nat /\ List.length (pad text) = (16 * blocks)%nat
    /\ blocks = (List.length text / 16 + 1)%nat.
Proof.
  destruct (pad_shape text) as (n & Hn & -> & Hmod).
  rewrite List.length_app, repeat_length.
  exists (List.length text / 16 + 1)%nat.
  split; [lia|]. split; [|reflexivity].
  apply Nat.Div0.div_exact in Hmod.
  pose proof (Nat.div_mod_eq (List.length text) 16) as Hd.
  pose proof (Nat.mod_upper_bound (List.length text) 16 ltac:(lia)) as Hu.
  lia.
Qed.

(** *** Chaining *)

Lemma cbc_decrypt_encrypt (key : list Z) (blocks : nat) :
  bytes key -> List.length key = 32%nat ->
  forall previous text,
    state previous -> bytes text -> List.length text = (16 * blocks)%nat ->
    List.length (cbc_encrypt blocks key previous text) = (16 * blocks)%nat
    /\ bytes (cbc_encrypt blocks key previous text)
    /\ cbc_decrypt blocks key previous (cbc_encrypt blocks key previous text) = text.
Proof.
  intros Hk Hlen. induction blocks as [|blocks IH]; intros previous text Hp Hb Ht.
  - destruct text; [|discriminate]. repeat split. constructor.
  - cbn [cbc_encrypt cbc_decrypt].
    assert (Hfirst : state (firstn 16 text)).
    { split; [rewrite List.length_firstn; lia|now apply list.Forall_take]. }
    destruct (decrypt_block_encrypt_block key
                (Aes256.xor_bytes (firstn 16 text) previous) Hk Hlen)
      as [Hblock Hback]; [now apply xor_bytes_state|].
    set (block := Aes256.encrypt_block key (Aes256.xor_bytes (firstn 16 text) previous))
      in *.
    destruct (IH block (skipn 16 text)) as (Hl & Hbs & Hrt);
      [assumption|now apply list.Forall_drop|rewrite List.length_skipn; lia|].
    destruct Hblock as [Hblen Hbb].
    split; [rewrite List.length_app; lia|].
    split; [now apply bytes_app|].
    rewrite List.firstn_app, List.skipn_app, Hblen, Nat.sub_diag.
    rewrite (List.firstn_all2 block), (List.skipn_all2 block) by lia.
    rewrite List.firstn_O, List.skipn_O, List.app_nil_r. cbn [List.app].
    rewrite Hback, Hrt.
    rewrite xor_bytes_cancel.
    + apply List.firstn_skipn.
    + destruct Hfirst as [-> _]. now destruct Hp as [-> _].
Qed.


(** *** The service *)

(** X9: With a key of 64 hex digits and a vector of 16 random bytes, [encrypt]
    returns, and [decrypt] turns what it returned back into the text.  The
    vector is written with 32 hex digits and the ciphertext with 32 for each
    started block of 16 bytes of the text, padding included. *)
Theorem decrypt_encrypt (text key : string) (w : World) :
  List.length (hex_decode key) = 32%nat ->
  List.length (randomBytes w (drawn w) 16) = 16%nat ->
  bytes (randomBytes w (drawn w) 16) ->
  exists iv encryptedData,
    fst (encrypt text key w) = Return (iv, encryptedData)
    /\ decrypt encryptedData key iv = Return text
    /\ String.length iv = 32%nat
    /\ String.length encryptedData = (32 * (String.length text / 16 + 1))%nat.
Proof.
  intros Hkey Hiv Hivb.
  unfold encrypt, check_sizes. rewrite Hkey, Hiv. cbn [Nat.eqb negb fst].
  change ((32 =? 32)%nat) with true. change ((16 =? 16)%nat) with true. cbn [negb].
  eexists _, _. split; [reflexivity|].
  set (iv := randomBytes w (drawn w) 16) in *.
  set (plain := bytes_of_string text).
  destruct (pad_length plain) as (blocks & Hpos & Hlen & Hblocks).
  assert (Hdiv : (List.length (pad plain) / 16 = blocks)%nat).
  { rewrite Hlen. rewrite Nat.mul_comm. apply Nat.div_mul. lia. }
  rewrite Hdiv.
  destruct (cbc_decrypt_encrypt (hex_decode key) blocks (hex_decode_bytes key) Hkey
              iv (pad plain)) as (Hl & Hb & Hrt);
    [now split|apply pad_bytes, bytes_of_string_bytes|assumption|].
  split; [|split].
  - unfold decrypt, check_sizes.
    rewrite !hex_decode_encode by assumption.
    rewrite Hkey, Hiv, Hl.
    change ((32 =? 32)%nat) with true. change ((16 =? 16)%nat) with true.
    cbn [negb obind].
    replace (16 * blocks =? 0)%nat with false by (symmetry; apply Nat.eqb_neq; lia).
    replace ((16 * blocks) mod 16 =? 0)%nat with true
      by (symmetry; apply Nat.eqb_eq; rewrite Nat.mul_comm; apply Nat.Div0.mod_mul).
    cbn [negb orb].
    replace (16 * blocks / 16)%nat with blocks
      by (rewrite Nat.mul_comm; symmetry; apply Nat.div_mul; lia).
    rewrite Hrt, unpad_pad. unfold plain. now rewrite string_of_bytes_of_string.
  - rewrite hex_encode_length. lia.
  - rewrite hex_encode_length, Hl, Hblocks. unfold plain, bytes_of_string.
    rewrite List.length_map, list_ascii_length. lia.
Qed.

Lemma decrypt_encrypt_witness :
  exists iv encryptedData,
    fst (encrypt AesScenario.vitals AesScenario.cbc_key AesScenario.cbc_world)
    = Return (iv, encryptedData)
    /\ decrypt encryptedData AesScenario.cbc_key iv = Return AesScenario.vitals
    /\ String.length encryptedData = 96%nat.
Proof.
  destruct (decrypt_encrypt AesScenario.vitals AesScenario.cbc_key AesScenario.cbc_world)
    as (iv & encryptedData & Hrun & Hback & _ & Hlength).
  - vm_compute. reflexivity.
  - vm_compute. reflexivity.
  - exact (hex_decode_bytes "0f0e0d0c0b0a09080706050403020100").
  - exists iv, encryptedData. split; [exact Hrun|]. split; [exact Hback|].
    rewrite Hlength. reflexivity.
Defined.

(** *** The vector *)

Lemma xor_bytes_swap (a b : list Z) : xor_bytes a b = xor_bytes b a.
Proof.
  revert b. induction a as [|x a IH]; intros [|y b]; try reflexivity.
  unfold xor_bytes in *. cbn [combine List.map]. rewrite IH. f_equal.
  apply Z.lxor_comm.
Qed.

Lemma xor_bytes_same_left (p a b : list Z) :
  List.length a = List.length p -> List.length b = List.length p ->
  xor_bytes p a = xor_bytes p b -> a = b.
Proof.
  intros La Lb H. rewrite (xor_bytes_swap p a), (xor_bytes_swap p b) in H.
  rewrite <- (xor_bytes_cancel a p La), <- (xor_bytes_cancel b p Lb). now rewrite H.
Qed.

(** Two blocks that encrypt alike are alike. *)
Lemma encrypt_block_injective (key a b : list Z) :
  bytes key -> List.length key = 32%nat -> state a -> state b ->
  encrypt_block key a = encrypt_block key b -> a = b.
Proof.
  intros Hkb Hkl Ha Hb H.
  rewrite <- (proj2 (decrypt_block_encrypt_block key a Hkb Hkl Ha)).
  rewrite <- (proj2 (decrypt_block_encrypt_block key b Hkb Hkl Hb)).
  now rewrite H.
Qed.

Lemma cbc_encrypt_first (key : list Z) (blocks : nat) (iv text : list Z) :
  cbc_encrypt (S blocks) key iv text
  = (encrypt_block key (xor_bytes (firstn 16 text) iv)
     ++ cbc_encrypt blocks key (encrypt_block key (xor_bytes (firstn 16 text) iv))
                    (skipn 16 text))%list.
Proof. reflexivity. Qed.

(** The first block of the ciphertext tells the vectors apart. *)
Lemma cbc_encrypt_differs (key : list Z) (blocks : nat) (iv1 iv2 text : list Z) :
  bytes key -> List.length key = 32%nat ->
  state iv1 -> state iv2 -> iv1 <> iv2 ->
  bytes text -> List.length text = (16 * S blocks)%nat ->
  cbc_encrypt (S blocks) key iv1 text <> cbc_encrypt (S blocks) key iv2 text.
Proof.
  intros Hkb Hkl H1 H2 Hne Htb Htl. rewrite !cbc_encrypt_first. intros Heq. apply Hne.
  assert (Hfirst : state (firstn 16 text)).
  { split; [rewrite List.length_firstn; lia|now apply list.Forall_take]. }
  pose proof (xor_bytes_state _ _ Hfirst H1) as S1.
  pose proof (xor_bytes_state _ _ Hfirst H2) as S2.
  destruct (decrypt_block_encrypt_block key _ Hkb Hkl S1) as [[L1 _] _].
  destruct (decrypt_block_encrypt_block key _ Hkb Hkl S2) as [[L2 _] _].
  apply app_inj_1 in Heq as [Heq _]; [|congruence].
  apply (encrypt_block_injective key _ _ Hkb Hkl S1 S2) in Heq.
  apply (xor_bytes_same_left (firstn 16 text)); [| |exact Heq].
  - destruct H1 as [-> _], Hfirst as [-> _]. reflexivity.
  - destruct H2 as [-> _], Hfirst as [-> _]. reflexivity.
Qed.

Lemma hex_encode_differs (a b : list Z) :
  bytes a -> bytes b -> a <> b -> hex_encode a <> hex_encode b.
Proof.
  intros Ha Hb Hne Heq. apply Hne.
  rewrite <- (hex_decode_encode a Ha), <- (hex_decode_encode b Hb). now rewrite Heq.
Qed.

(** X10: Under the same key the same text is never encrypted to the same
    ciphertext with another vector: two calls of [encrypt] that draw
    different vectors return different ciphertexts. *)
Theorem encrypt_depends_on_the_vector (text key : string) (w1 w2 : World) :
  List.length (hex_decode key) = 32%nat ->
  state (randomBytes w1 (drawn w1) 16) ->
  state (randomBytes w2 (drawn w2) 16) ->
  randomBytes w1 (drawn w1) 16 <> randomBytes w2 (drawn w2) 16 ->
  exists iv1 data1 iv2 data2,
    fst (encrypt text key w1) = Return (iv1, data1)
    /\ fst (encrypt text key w2) = Return (iv2, data2)
    /\ iv1 <> iv2 /\ data1 <> data2.
Proof.
  intros Hkey H1 H2 Hne.
  unfold encrypt, check_sizes. rewrite Hkey, (proj1 H1), (proj1 H2).
  change ((32 =? 32)%nat) with true. change ((16 =? 16)%nat) with true. cbn [negb fst].
  eexists _, _, _, _. split; [reflexivity|]. split; [reflexivity|].
  split; [apply hex_encode_differs; [apply H1|apply H2|exact Hne]|].
  set (plain := bytes_of_string text).
  destruct (pad_length plain) as (blocks & Hpos & Hlen & _).
  assert (Hdiv : (List.length (pad plain) / 16 = blocks)%nat).
  { rewrite Hlen. rewrite Nat.mul_comm. apply Nat.div_mul. lia. }
  rewrite Hdiv.
  assert (Hpb : bytes (pad plain)) by apply pad_bytes, bytes_of_string_bytes.
  destruct (cbc_decrypt_encrypt (hex_decode key) blocks (hex_decode_bytes key) Hkey
              _ (pad plain) H1 Hpb Hlen) as (_ & B1 & _).
  destruct (cbc_decrypt_encrypt (hex_decode key) blocks (hex_decode_bytes key) Hkey
              _ (pad plain) H2 Hpb Hlen) as (_ & B2 & _).
  apply hex_encode_differs; [exact B1|exact B2|].
  destruct blocks as [|blocks]; [lia|].
  apply cbc_encrypt_differs; auto using hex_decode_bytes.
Qed.

Lemma encrypt_depends_on_the_vector_witness :
  exists iv1 data1 iv2 data2,
    fst (encrypt AesScenario.vitals AesScenario.cbc_key AesScenario.cbc_world)
    = Return (iv1, data1)
    /\ fst (encrypt AesScenario.vitals AesScenario.cbc_key
                    {| randomBytes := fun _ size => repeat 0 size; drawn := O |})
       = Return (iv2, data2)
    /\ iv1 <> iv2 /\ data1 <> data2.
Proof.
  apply encrypt_depends_on_the_vector.
  - vm_compute. reflexivity.
  - split; [vm_compute; reflexivity|].
    exact (hex_decode_bytes "0f0e0d0c0b0a09080706050403020100").
  - split; [reflexivity|]. apply List.Forall_forall. intros x Hx.
    apply repeat_spec in Hx. subst x. unfold byte. lia.
  - vm_compute. discriminate.
Defined.

End AesCbcFacts.

(** ** The audit trail: queries, the batcher and the subscribers *)

Module AuditLogFacts.
Import Js AuditLog AuditLogProps.

#[local] Opaque Sha256.sha256_hex.
#[local] Arguments valid_action : simpl never.

(** *** The queries *)

Lemma insert_by_timestamp_permutation (e : LogEntry) (l : list LogEntry) :
  Permutation (insert_by_timestamp e l) (e :: l).
Proof.
  induction l as [|x l IH]; [reflexivity|]. simpl.
  destruct (timestamp e <=? timestamp x); [reflexivity|].
  rewrite IH. apply perm_swap.
Qed.

Lemma order_by_timestamp_permutation (l : list LogEntry) :
  Permutation (order_by_timestamp l) l.
Proof.
  induction l as [|x l IH]; [reflexivity|].
  unfold order_by_timestamp in *. simpl.
  rewrite insert_by_timestamp_permutation. now constructor.
Qed.

Lemma insert_by_timestamp_sorted (e : LogEntry) (l : list LogEntry) :
  StronglySorted older l -> StronglySorted older (insert_by_timestamp e l).
Proof.
  induction 1 as [|x l Hs IH Hx]; simpl; [repeat constructor|].
  destruct (timestamp e <=? timestamp x) eqn:E.
  - apply Z.leb_le in E. constructor; [now constructor|].
    constructor; [exact E|].
    eapply List.Forall_impl; [|exact Hx]. unfold older. intros; lia.
  - apply Z.leb_gt in E. constructor; [exact IH|].
    rewrite insert_by_timestamp_permutation.
    constructor; [unfold older; lia|exact Hx].
Qed.

Lemma order_by_timestamp_sorted (l : list LogEntry) :
  StronglySorted older (order_by_timestamp l).
Proof.
  induction l as [|x l IH]; [constructor|].
  unfold order_by_timestamp in *. simpl. now apply insert_by_timestamp_sorted.
Qed.

Lemma insert_newest_first_permutation (e : LogEntry) (l : list LogEntry) :
  Permutation (insert_newest_first e l) (e :: l).
Proof.
  induction l as [|x l IH]; [reflexivity|]. simpl.
  destruct (timestamp x <=? timestamp e); [reflexivity|].
  rewrite IH. apply perm_swap.
Qed.

Lemma order_newest_first_permutation (l : list LogEntry) :
  Permutation (order_newest_first l) l.
Proof.
  induction l as [|x l IH]; [reflexivity|].
  unfold order_newest_first in *. simpl.
  rewrite insert_newest_first_permutation. now constructor.
Qed.

Lemma insert_newest_first_sorted (e : LogEntry) (l : list LogEntry) :
  StronglySorted newer l -> StronglySorted newer (insert_newest_first e l).
Proof.
  induction 1 as [|x l Hs IH Hx]; simpl; [repeat constructor|].
  destruct (timestamp x <=? timestamp e) eqn:E.
  - apply Z.leb_le in E. constructor; [now constructor|].
    constructor; [exact E|].
    eapply List.Forall_impl; [|exact Hx]. unfold newer. intros; lia.
  - apply Z.leb_gt in E. constructor; [exact IH|].
    rewrite insert_newest_first_permutation.
    constructor; [unfold newer; lia|exact Hx].
Qed.

Lemma order_newest_first_sorted (l : list LogEntry) :
  StronglySorted newer (order_newest_first l).
Proof.
  induction l as [|x l IH]; [constructor|].
  unfold order_newest_first in *. simpl. now apply insert_newest_first_sorted.
Qed.

Lemma firstn_sorted {A} (R : A -> A -> Prop) (n : nat) (l : list A) :
  StronglySorted R l -> StronglySorted R (firstn n l).
Proof.
  intros H. revert n. induction H as [|x l Hs IH Hx]; intros [|n]; simpl;
    try constructor; auto.
  now apply list.Forall_take.
Qed.

Lemma unverified_batch_rows (w : World) :
  List.Forall (fun e => In e (rows w) /\ verified e = false) (_getUnverifiedBatch w).
Proof.
  unfold _getUnverifiedBatch.
  change (fun e => negb (verified e)) with unverified.
  apply list.Forall_take.
  rewrite (order_by_timestamp_permutation (List.filter unverified (rows w))).
  apply List.Forall_forall. intros e He. apply List.filter_In in He as [Hin Hu].
  split; [assumption|]. unfold unverified in Hu. now destruct (verified e).
Qed.

(** X1: The batch the batcher works on: at most a hundred rows, each an
    unverified row of the table, the oldest first; all the unverified rows
    when there are no more than a hundred. *)
Theorem unverified_batch_oldest_first (w : World) :
  (List.length (_getUnverifiedBatch w) <= 100)%nat
  /\ List.Forall (fun e => In e (rows w) /\ verified e = false) (_getUnverifiedBatch w)
  /\ StronglySorted older (_getUnverifiedBatch w)
  /\ ((List.length (List.filter unverified (rows w)) <= 100)%nat ->
      Permutation (_getUnverifiedBatch w) (List.filter unverified (rows w))).
Proof.
  unfold _getUnverifiedBatch.
  change (fun e => negb (verified e)) with unverified.
  split; [rewrite List.length_firstn; lia|].
  split; [|split].
  - apply (unverified_batch_rows w).
  - apply firstn_sorted, order_by_timestamp_sorted.
  - intros Hlen. rewrite List.firstn_all2.
    + apply order_by_timestamp_permutation.
    + now rewrite (Permutation_length (order_by_timestamp_permutation _)).
Qed.

(** X2: What [getAccessHistory] answers for a resource: at most a hundred rows
    of the table, each about that resource, the newest first; all the rows
    about it when there are no more than a hundred. *)
Theorem access_history_newest_first (type_ id_ : string) (w : World) :
  (List.length (getAccessHistory type_ id_ w) <= 100)%nat
  /\ List.Forall (fun e => In e (rows w) /\ resourceType e = JStr type_
                           /\ resourceId e = JStr id_)
                 (getAccessHistory type_ id_ w)
  /\ StronglySorted newer (getAccessHistory type_ id_ w)
  /\ ((List.length (List.filter (about type_ id_) (rows w)) <= 100)%nat ->
      Permutation (getAccessHistory type_ id_ w) (List.filter (about type_ id_) (rows w))).
Proof.
  unfold getAccessHistory.
  split; [rewrite List.length_firstn; lia|].
  split; [|split].
  - apply list.Forall_take.
    rewrite (order_newest_first_permutation (List.filter (about type_ id_) (rows w))).
    apply List.Forall_forall. intros e He. apply List.filter_In in He as [Hin Ha].
    split; [assumption|]. unfold about in Ha. apply andb_true_iff in Ha as [Ht Hi].
    destruct (resourceType e); try discriminate.
    destruct (resourceId e); try discriminate.
    simpl in Ht, Hi. apply String.eqb_eq in Ht, Hi. now subst.
  - apply firstn_sorted, order_newest_first_sorted.
  - intros Hlen. rewrite List.firstn_all2.
    + apply order_newest_first_permutation.
    + now rewrite (Permutation_length (order_newest_first_permutation _)).
Qed.

(** *** The rows and the batcher *)

(** The batcher leaves the table as it is or marks rows as verified. *)
Lemma anchor_rows (entry : LogEntry) (w : World) :
  rows (snd (_anchorToBlockchain entry w)) = rows w
  \/ exists tx ids,
       rows (snd (_anchorToBlockchain entry w))
       = List.map (mark_verified tx ids) (rows w).
Proof.
  unfold _anchorToBlockchain, bind, gets, lift, ret. simpl.
  destruct (strict_eq _ _); simpl; auto.
  destruct (batch_due _ _); simpl; auto.
  destruct (_calculateMerkleRoot _); simpl; auto.
  unfold blockchain_submitAuditBatch, modify.
  destruct (submitAuditBatch w _); simpl; eauto.
Qed.

(** The table after [log]: as it was, or with the new row at its end, rows
    possibly marked as verified. *)
Lemma log_rows (u a : string) (m : JsVal) (w : World) :
  let e := new_entry (values_of u a m) (uuidv4 w (uuid_drawn w)) (db_now w) in
  rows (snd (log u a m w)) = rows w
  \/ (~ In (id e) (List.map id (rows w))
      /\ (rows (snd (log u a m w)) = (rows w ++ [e])%list
          \/ exists tx ids,
               rows (snd (log u a m w))
               = List.map (mark_verified tx ids) (rows w ++ [e])%list)).
Proof.
  intros e. destruct (log_decide u a m w) as [(Hm & Ha & Hid)|H].
  - right. split; [now apply existsb_id_false|].
    rewrite log_inserts by assumption. cbv zeta. fold e.
    pose proof (anchor_rows e (inserted e w)) as Hr.
    destruct (_anchorToBlockchain e (inserted e w)) as [[[]|x] w1]; simpl in Hr.
    + destruct (notify_rows (clients w) 0 "NEW_ENTRY" e w1) as [Hn _].
      destruct (notify_from _ _ _ _ _) as [[[]|x] w2]; simpl in *; rewrite Hn; exact Hr.
    + exact Hr.
  - left. destruct (log_rejects u a m w H) as (x & _ & Hr). exact Hr.
Qed.

Lemma mark_verified_unanchored (tx : JsVal) (ids : list string) (e : LogEntry) :
  unanchored e -> unanchored (mark_verified tx ids e).
Proof.
  unfold unanchored, mark_verified. destruct (existsb _ _); [discriminate|auto].
Qed.

Lemma mark_verified_id (tx : JsVal) (ids : list string) (e : LogEntry) :
  id (mark_verified tx ids e) = id e.
Proof. unfold mark_verified. destruct (existsb _ _); reflexivity. Qed.

(** Along a history the ids are distinct and the rows that are not verified
    have no transaction id. *)
Lemma history_rows (w : World) :
  history w ->
  NoDup (List.map id (rows w)) /\ List.Forall unanchored (rows w).
Proof.
  induction 1 as [w H|u a m w _ [IHid IHun]|w w' _ IH H].
  - rewrite H. split; [apply NoDup_nil_2|constructor].
  - split; [now apply log_ids|].
    destruct (log_rows u a m w) as [->|[_ [->|(tx & ids & ->)]]]; [assumption| |].
    + apply List.Forall_app. split; [assumption|].
      constructor; [|constructor]. intros _. reflexivity.
    + apply List.Forall_map.
      assert (Hall : List.Forall unanchored
                       (rows w ++ [new_entry (values_of u a m) (uuidv4 w (uuid_drawn w))
                                             (db_now w)])%list).
      { apply List.Forall_app. split; [assumption|].
        constructor; [|constructor]. intros _. reflexivity. }
      eapply List.Forall_impl; [|exact Hall].
      intros e. apply mark_verified_unanchored.
  - now rewrite H.
Qed.

Lemma find_by_id (e : LogEntry) (table : list LogEntry) :
  NoDup (List.map id table) -> In e table ->
  List.find (fun x => String.eqb (id x) (id e)) table = Some e.
Proof.
  induction table as [|x table IH]; intros Hnd Hin; [contradiction|].
  cbn [List.map] in Hnd. apply NoDup_cons in Hnd as [Hx Hnd].
  cbn [List.find]. destruct Hin as [->|Hin].
  - now rewrite String.eqb_refl.
  - destruct (String.eqb (id x) (id e)) eqn:E; [|now apply IH].
    apply String.eqb_eq in E. exfalso. apply Hx. rewrite E.
    apply list_elem_of_In, in_map. exact Hin.
Qed.

Lemma verify_each_unanchored (w : World) (batch : list LogEntry) :
  NoDup (List.map id (rows w)) ->
  List.Forall (fun e => In e (rows w) /\ verified e = false /\ unanchored e) batch ->
  verify_each (List.map id batch) w = (Return (repeat false (List.length batch)), w).
Proof.
  intros Hnd. induction 1 as [|e batch (Hin & Hv & Hun) _ IH]; [reflexivity|].
  cbn [List.map verify_each]. unfold bind at 1.
  unfold verifyEntry, bind at 1, gets at 1, findByPk.
  rewrite (find_by_id e (rows w) Hnd Hin).
  rewrite (Hun Hv). cbn [truthy]. unfold ret at 1.
  unfold bind at 1. rewrite IH. reflexivity.
Qed.

(** X3: Along a history [verifyAllRecent] answers [false] for every row of the
    unverified batch, whatever the anchor would say: it looks at rows that
    are not verified, and these have no transaction id to ask the anchor
    about. *)
Theorem verifyAllRecent_all_false (w : World) :
  history w ->
  verifyAllRecent w
  = (Return (repeat false (List.length (_getUnverifiedBatch w))), w).
Proof.
  intros H. destruct (history_rows w H) as [Hnd Hun].
  unfold verifyAllRecent, bind at 1, gets at 1.
  apply verify_each_unanchored; [assumption|].
  pose proof (unverified_batch_rows w) as Hb.
  rewrite List.Forall_forall in *. intros e He.
  destruct (Hb e He) as [Hin Hv]. auto.
Qed.

Lemma verifyAllRecent_all_false_witness :
  verifyAllRecent (AuditScenario.anchor_denies AuditScenario.two_logged)
  = (Return [false; false], AuditScenario.anchor_denies AuditScenario.two_logged).
Proof.
  apply (verifyAllRecent_all_false (AuditScenario.anchor_denies AuditScenario.two_logged)).
  apply (history_env AuditScenario.two_logged); [|reflexivity].
  unfold AuditScenario.two_logged, AuditScenario.one_logged.
  apply history_log, history_log, history_start. reflexivity.
Defined.

(** *** Anchoring switched off *)

Lemma anchor_off (entry : LogEntry) (w : World) :
  strict_eq (BLOCKCHAIN_AUDIT w) (JStr "true") = false ->
  _anchorToBlockchain entry w = (Return tt, w).
Proof.
  intros H. apply anchor_not_due. unfold anchoring_due. now rewrite H.
Qed.

(** X4: Unless BLOCKCHAIN_AUDIT is the string 'true', [log] sends nothing to the
    anchor and marks nothing as verified: the table is as it was, or has the
    new row at its end. *)
Theorem log_without_anchoring (u a : string) (m : JsVal) (w : World) :
  strict_eq (BLOCKCHAIN_AUDIT w) (JStr "true") = false ->
  submitted (snd (log u a m w)) = submitted w
  /\ (rows (snd (log u a m w)) = rows w
      \/ rows (snd (log u a m w))
         = (rows w ++ [new_entry (values_of u a m) (uuidv4 w (uuid_drawn w)) (db_now w)])%list).
Proof.
  intros Hoff. destruct (log_decide u a m w) as [(Hm & Ha & Hid)|H].
  - rewrite log_inserts by assumption. cbv zeta.
    set (e := new_entry (values_of u a m) (uuidv4 w (uuid_drawn w)) (db_now w)).
    rewrite (anchor_off e (inserted e w)) by exact Hoff.
    destruct (notify_rows (clients w) 0 "NEW_ENTRY" e (inserted e w)) as [Hr Hs].
    destruct (notify_from _ _ _ _ _) as [[[]|x] w2]; simpl in *;
      rewrite Hr, Hs; auto.
  - assert (Hm : m = JNull \/ m <> JNull) by (destruct m; auto; right; discriminate).
    destruct Hm as [->|Hm]; [rewrite log_null; auto|].
    rewrite log_unfold by assumption. unfold bind at 1.
    assert (H' : valid_action a = false
                 \/ existsb (fun e => String.eqb (id e) (uuidv4 w (uuid_drawn w))) (rows w)
                    = true)
      by (destruct H as [?|?]; [contradiction|auto]).
    unfold LogEntry_create, bind, gets, draw_uuid, modify, ret, throw. simpl.
    destruct (valid_action a); simpl; auto.
    destruct H' as [H'|H']; [discriminate|]. rewrite H'. simpl. auto.
Qed.

Lemma log_without_anchoring_witness :
  submitted (snd (log "dr.smith" "READ" AuditScenario.bp_reading
                     (AuditScenario.with_flag (JStr "TRUE")
                        (AuditScenario.later 660001 AuditScenario.one_logged))))
  = []
  /\ List.map verified
       (rows (snd (log "dr.smith" "READ" AuditScenario.bp_reading
                       (AuditScenario.with_flag (JStr "TRUE")
                          (AuditScenario.later 660001 AuditScenario.one_logged)))))
     = [false; false].
Proof.
  destruct (log_without_anchoring "dr.smith" "READ" AuditScenario.bp_reading
              (AuditScenario.with_flag (JStr "TRUE")
                 (AuditScenario.later 660001 AuditScenario.one_logged)))
    as [Hs Hr]; [reflexivity|].
  split; [rewrite Hs; reflexivity|].
  destruct Hr as [Hr|Hr]; rewrite Hr; [|reflexivity].
  exfalso. apply (f_equal (@List.length LogEntry)) in Hr. vm_compute in Hr. discriminate.
Defined.

(** *** The batch that cannot be hashed *)







(** *** What [log] leaves alone *)

(** X6: [log] never removes a row and never changes what a row says: the
    contents of the rows after the call are those before it, followed by at
    most one new row. *)
Theorem log_appends_only (u a : string) (m : JsVal) (w : World) :
  exists added,
    List.map content (rows (snd (log u a m w)))
    = (List.map content (rows w) ++ added)%list
    /\ (List.length added <= 1)%nat.
Proof.
  destruct (log_table u a m w) as [[-> _]|(_ & -> & _)].
  - exists []. rewrite List.app_nil_r. auto.
  - eexists. split; [reflexivity|]. simpl. lia.
Qed.

(** *** Notifications *)





(** *** From [log] to the history *)

Lemma last_content (table : list LogEntry) (contents : list _) (c : _) :
  List.map content table = (contents ++ [c])%list ->
  exists row, In row table /\ content row = c.
Proof.
  intros H.
  assert (Hin : In c (List.map content table)).
  { rewrite H. apply List.in_or_app. right. now left. }
  apply List.in_map_iff in Hin as (row & Hc & Hin). eauto.
Qed.

(** X8: An access that [log] has recorded is found by [getAccessHistory] under
    its resource, as long as no more than a hundred rows are about that
    resource: the history holds a row with the id, the time, the user, the
    action and everything else the returned entry says. *)
Theorem logged_access_is_in_the_history (u a : string) (m : JsVal) (w : World)
        (e : LogEntry) (type_ id_ : string) :
  fst (log u a m w) = Return e ->
  resourceType e = JStr type_ ->
  resourceId e = JStr id_ ->
  (List.length (List.filter (about type_ id_) (rows (snd (log u a m w)))) <= 100)%nat ->
  exists row,
    In row (getAccessHistory type_ id_ (snd (log u a m w)))
    /\ content row = content e.
Proof.
  intros Hlog Htype Hid Hfew.
  destruct (log_Return u a m w e Hlog) as [_ Hcontent].
  apply last_content in Hcontent as (row & Hin & Hrow).
  exists row. split; [|exact Hrow].
  unfold getAccessHistory. rewrite List.firstn_all2.
  - apply (Permutation_in row
             (Permutation_sym (order_newest_first_permutation
                                 (List.filter (about type_ id_)
                                              (rows (snd (log u a m w))))))).
    apply List.filter_In. split; [exact Hin|].
    unfold content in Hrow. injection Hrow as _ _ _ _ Ht Hi _ _ _ _.
    unfold about. rewrite Ht, Hi, Htype, Hid. cbn [strict_eq].
    now rewrite !String.eqb_refl.
  - now rewrite (Permutation_length (order_newest_first_permutation _)).
Qed.

Lemma logged_access_is_in_the_history_witness :
  exists row,
    In row (getAccessHistory "Observation" "obs-118" AuditScenario.one_logged)
    /\ content row = content AuditScenario.first_entry.
Proof.
  apply (logged_access_is_in_the_history "dr.smith" "READ" AuditScenario.bp_reading
           AuditScenario.idle AuditScenario.first_entry).
  - vm_compute. reflexivity.
  - reflexivity.
  - reflexivity.
  - vm_compute. lia.
Defined.

End AuditLogFacts.

(** ** Key management: the life of a generated key *)

Module KmsFacts.
Import Js Bytes KeyManagement StringFacts KmsProps CodecProps Base64Props.

#[local] Opaque to_iso_string base64_encode base64_decode hex_encode dec to_string.
#[local] Opaque _getSecurityTags or_default or_else owner_of.

(** *** Storing and finding a key *)





Lemma get_prop (o : JsVal) (k : string) (v : JsVal) :
  get o k = Return v -> v = prop o k.
Proof. destruct o; simpl; intros [= <-]; reflexivity. Qed.

(** When [generateKey] returns: the key it returns, and the world it
    leaves. *)
Lemma generateKey_returns (params newKey : JsVal) (w w1 : World) :
  generateKey params w = (Return newKey, w1) ->
  exists material stored,
    vault_generateKeyMaterial w (or_default (prop params "keySize") (JNum 256))
      (JStr (to_string (or_default (prop params "ownerType") (JStr "Patient")) +:+ "/"
             +:+ to_string (or_else (prop params "ownerId") (JStr "system")) +:+ "/"
             +:+ to_string (or_default (prop params "keyType") (JStr "data-encryption"))))
    = Answer material
    /\ newKey = JObj [("keyId", JStr (randomUUID w (drawn w)));
                      ("publicKey", prop material "publicKey"); ("meta", stored)]
    /\ _storeKeyMetadata
         (key_meta params (randomUUID w (drawn w)) (prop material "publicKey")
                   (prop material "quantumFingerprint") (now w))
         (with_cache (insert (randomUUID w (drawn w))
                             {| privateKey := prop material "privateKey";
                                expiresAt := now w + 5 * 60 * 1000 |})
                     (next_draw w))
       = (Return stored, w1).
Proof.
  unfold generateKey.
  repeat step ltac:(intros; discriminate).
  rewrite bind_run.
  match goal with
  | |- context [_storeKeyMetadata ?m ?w'] =>
      destruct (_storeKeyMetadata m w') as [[stored|x] w2] eqn:Hstore
  end; [|intros; discriminate].
  unfold ret. intros [= <- <-].
  repeat match goal with
         | H : get ?o ?k = Return ?v |- _ => apply get_prop in H; subst v
         end.
  change (now (next_draw w)) with (now w) in *.
  eauto 10.
Qed.






(** *** The cache *)

(** X12: The private key of a key [generateKey] has returned is in the cache
    until five minutes after the call: up to then [getPrivateKey] hands it
    out as it is, asking neither the FHIR server nor the vault, and from
    then on it drops the entry and takes the path through both. *)
Theorem generated_key_cached_five_minutes (params newKey : JsVal) (w w1 : World) :
  generateKey params w = (Return newKey, w1) ->
  exists secret,
    keyCache w1 !! randomUUID w (drawn w)
    = Some {| privateKey := secret; expiresAt := now w + 300000 |}
    /\ (forall w2, keyCache w2 = keyCache w1 -> now w2 < now w + 300000 ->
                   getPrivateKey (randomUUID w (drawn w)) w2 = (Return secret, w2))
    /\ (forall w2, keyCache w2 = keyCache w1 -> now w + 300000 <= now w2 ->
                   getPrivateKey (randomUUID w (drawn w)) w2
                   = retrieve_from_vault (randomUUID w (drawn w))
                       (with_cache (delete (randomUUID w (drawn w))) w2)).
Proof.
  intros Hgen.
  destruct (generateKey_returns params newKey w w1 Hgen)
    as (material & stored & _ & _ & Hstore).
  pose proof (storeKeyMetadata_cache
                (key_meta params (randomUUID w (drawn w)) (prop material "publicKey")
                          (prop material "quantumFingerprint") (now w))
                (with_cache (insert (randomUUID w (drawn w))
                                    {| privateKey := prop material "privateKey";
                                       expiresAt := now w + 5 * 60 * 1000 |})
                            (next_draw w))) as Hcache.
  rewrite Hstore in Hcache. cbn [snd keyCache with_cache next_draw] in Hcache.
  exists (prop material "privateKey").
  assert (Hhit : keyCache w1 !! randomUUID w (drawn w)
                 = Some {| privateKey := prop material "privateKey";
                           expiresAt := now w + 300000 |}).
  { rewrite Hcache, lookup_insert. destruct (decide _); [reflexivity|congruence]. }
  split; [exact Hhit|]. split.
  - intros w2 Hsame Hlive.
    apply (cache_hit _ w2 {| privateKey := prop material "privateKey";
                             expiresAt := now w + 300000 |});
      [now rewrite Hsame|exact Hlive].
  - intros w2 Hsame Hdead.
    unfold getPrivateKey. rewrite bind_gets, Hsame, Hhit, bind_gets.
    cbn [expiresAt privateKey].
    destruct (Z.ltb_spec (now w2) (now w + 300000)); [lia|].
    now rewrite bind_modify.
Qed.

Lemma generated_key_cached_five_minutes_witness :
  getPrivateKey KmsScenario.k1 (KmsScenario.later 299999 KmsScenario.with_k1)
  = (Return (JStr "secret of Patient/patient-42/data-encryption"),
     KmsScenario.later 299999 KmsScenario.with_k1).
Proof.
  destruct (generated_key_cached_five_minutes KmsScenario.k1_params
              KmsScenario.k1_generated KmsScenario.fresh KmsScenario.with_k1)
    as (secret & Hhit & Hlive & _).
  - vm_compute. reflexivity.
  - assert (secret = JStr "secret of Patient/patient-42/data-encryption") as ->.
    { assert (H : keyCache KmsScenario.with_k1 !! KmsScenario.k1
                  = Some KmsScenario.k1_cached) by (vm_compute; reflexivity).
      change (randomUUID KmsScenario.fresh (drawn KmsScenario.fresh))
        with KmsScenario.k1 in Hhit.
      rewrite H in Hhit. injection Hhit as <-. reflexivity. }
    apply (Hlive (KmsScenario.later 299999 KmsScenario.with_k1)).
    + reflexivity.
    + vm_compute. reflexivity.
Defined.

(** X13: What [getPrivateKey] returns it has in the cache afterwards, not yet
    expired; the clock has not moved, so the same call made again returns the
    same key and changes nothing. *)
Theorem getPrivateKey_caches_what_it_returns (keyId : string) (w : World)
        (secret : JsVal) :
  fst (getPrivateKey keyId w) = Return secret ->
  (exists cached,
      keyCache (snd (getPrivateKey keyId w)) !! keyId = Some cached
      /\ privateKey cached = secret
      /\ now w < expiresAt cached)
  /\ getPrivateKey keyId (snd (getPrivateKey keyId w))
     = (Return secret, snd (getPrivateKey keyId w)).
Proof.
  intros Hret.
  assert (Hcached : exists cached,
             keyCache (snd (getPrivateKey keyId w)) !! keyId = Some cached
             /\ privateKey cached = secret
             /\ now (snd (getPrivateKey keyId w)) < expiresAt cached
             /\ now (snd (getPrivateKey keyId w)) = now w).
  { revert Hret. unfold getPrivateKey. rewrite bind_gets.
    assert (Hvault : forall w0,
               now w0 = now w ->
               fst (retrieve_from_vault keyId w0) = Return secret ->
               exists cached,
                 keyCache (snd (retrieve_from_vault keyId w0)) !! keyId = Some cached
                 /\ privateKey cached = secret
                 /\ now (snd (retrieve_from_vault keyId w0)) < expiresAt cached
                 /\ now (snd (retrieve_from_vault keyId w0)) = now w).
    { intros w0 Hnow. unfold retrieve_from_vault. rewrite bind_run.
      pose proof (getKeyMetadata_world keyId w0) as Hw.
      destruct (_getKeyMetadata keyId w0) as [[meta|x] w'] eqn:Hmeta; simpl in Hw;
        subst w'; [|discriminate].
      destruct (negb (truthy meta)); [discriminate|].
      step ltac:(intros; discriminate).
      destruct (unusable _); [discriminate|].
      step ltac:(intros; discriminate).
      unfold crypto_randomBytes. rewrite bind_run. cbv beta iota.
      step ltac:(intros; discriminate).
      rewrite bind_gets, bind_modify. unfold ret. cbn [fst snd].
      intros [= <-]. eexists. split.
      + cbn [keyCache with_cache]. rewrite lookup_insert.
        destruct (decide _); [reflexivity|congruence].
      + cbn [privateKey expiresAt now with_cache next_draw].
        split; [reflexivity|split; lia]. }
    destruct (keyCache w !! keyId) as [cached|] eqn:Hhit.
    - rewrite bind_gets. destruct (Z.ltb_spec (now w) (expiresAt cached)).
      + unfold ret. cbn [fst snd]. intros [= <-]. exists cached. auto.
      + rewrite bind_modify. apply Hvault. reflexivity.
    - apply Hvault. reflexivity. }
  destruct Hcached as (cached & Hhit & Hkey & Hlive & Hnow).
  split; [exists cached; repeat split; auto; lia|].
  rewrite (cache_hit keyId _ cached Hhit Hlive). now rewrite Hkey.
Qed.

Lemma getPrivateKey_caches_what_it_returns_witness :
  let w := KmsScenario.later 300000 KmsScenario.with_k1 in
  fst (getPrivateKey KmsScenario.k1 w) = Return (JStr ("secret of " +:+ KmsScenario.k1))
  /\ getPrivateKey KmsScenario.k1 (snd (getPrivateKey KmsScenario.k1 w))
     = (Return (JStr ("secret of " +:+ KmsScenario.k1)),
        snd (getPrivateKey KmsScenario.k1 w)).
Proof.
  intros w.
  assert (H : fst (getPrivateKey KmsScenario.k1 w)
              = Return (JStr ("secret of " +:+ KmsScenario.k1)))
    by (vm_compute; reflexivity).
  split; [exact H|].
  exact (proj2 (getPrivateKey_caches_what_it_returns KmsScenario.k1 w _ H)).
Defined.

(** *** Rotation *)

(** X14: [rotateKey] never returns.  For a key it knows it throws after the
    successor has been generated: the successor stays behind, stored and
    cached, and the call leaves the world as [generateKey] left it. *)
Theorem rotateKey_never_returns (keyId : string) (w : World) :
  (exists x, fst (rotateKey keyId w) = Throw x)
  /\ (forall oldKey params newKey w1,
        fst (_getKeyMetadata keyId w) = Return oldKey ->
        oldKey <> JNull ->
        successor_params oldKey = Return params ->
        generateKey params w = (Return newKey, w1) ->
        snd (rotateKey keyId w) = w1).
Proof.
  split.
  - unfold rotateKey. rewrite bind_run.
    destruct (_getKeyMetadata keyId w) as [[oldKey|x] w0]; [|simpl; eauto].
    destruct (negb (truthy oldKey)); [simpl; eauto|].
    rewrite bind_lift. destruct (successor_params oldKey) as [params|x]; [|simpl; eauto].
    rewrite bind_run.
    destruct (generateKey params w0) as [[newKey|x] w1]; [|simpl; eauto].
    rewrite bind_gets, bind_lift.
    destruct (get newKey "keyId") as [newId|x]; [|simpl; eauto].
    rewrite bind_run.
    destruct (updateKeyMetadata_throws keyId (retirement (now w1) newId) w1) as [x ->].
    simpl. eauto.
  - intros oldKey params newKey w1 Hold Hnn Hparams Hgen.
    destruct (generateKey_returns params newKey w w1 Hgen)
      as (material & stored & _ & Hkey & _).
    rewrite (rotateKey_known keyId w w1 oldKey params newKey
               (JStr (randomUUID w (drawn w))) Hold Hnn Hparams Hgen)
      by (rewrite Hkey; reflexivity).
    rewrite bind_run.
    destruct (updateKeyMetadata_throws keyId
                (retirement (now w1) (JStr (randomUUID w (drawn w)))) w1) as [x ->].
    reflexivity.
Qed.

Lemma rotateKey_never_returns_witness :
  snd (rotateKey KmsScenario.k1 KmsScenario.with_k1) = snd KmsScenario.k2_generated
  /\ exists meta,
       fst (_getKeyMetadata KmsScenario.k2
              (snd (rotateKey KmsScenario.k1 KmsScenario.with_k1))) = Return meta
       /\ prop meta "status" = JStr "active".
Proof.
  split.
  - apply (proj2 (rotateKey_never_returns KmsScenario.k1 KmsScenario.with_k1)
             KmsScenario.k1_meta KmsScenario.k2_params (fst KmsScenario.k2_generated)).
    + vm_compute. reflexivity.
    + discriminate.
    + vm_compute. reflexivity.
    + vm_compute. reflexivity.
  - eexists. split; vm_compute; reflexivity.
Defined.

(** *** Compliance *)



(** *** Emergency access *)



End KmsFacts.

(** ** The AES-GCM service: chunks, the key registry, resources *)

Module AesServiceFacts.
Import Js AesService StringFacts AesProps CodecProps.

(** *** [substring] *)







(** *** [_chunkData] *)





(** *** The key registry *)

Lemma prepareKeyAndIV_unknown (keyId : string) (w : World) :
  keyRegistry w !! keyId = None ->
  _prepareKeyAndIV keyId w = (Throw (Error "Invalid key ID"), w).
Proof. intros H. unfold _prepareKeyAndIV, bind, gets, throw. simpl. now rewrite H. Qed.

(** X18: A key id the registry does not hold is refused before anything else
    happens: [_prepareKeyAndIV], [encrypt], [decrypt] and [encryptResource]
    throw 'Invalid key ID', [rotateKey] throws 'Key not found', and none of
    them draws random bytes, touches the registry or writes to the audit
    log. *)
Theorem unknown_key_is_refused (keyId : string) (w : World) :
  keyRegistry w !! keyId = None ->
  _prepareKeyAndIV keyId w = (Throw (Error "Invalid key ID"), w)
  /\ (forall text options,
         encrypt text keyId options w = (Throw (Error "Invalid key ID"), w))
  /\ (forall encryptedData options,
         decrypt encryptedData keyId options w = (Throw (Error "Invalid key ID"), w))
  /\ (forall provenance resourceType resource,
         encryptResource provenance resourceType resource keyId w
         = (Throw (Error "Invalid key ID"), w))
  /\ rotateKey keyId w = (Throw (Error "Key not found"), w).
Proof.
  intros H. pose proof (prepareKeyAndIV_unknown keyId w H) as Hp.
  assert (He : forall text options,
             encrypt text keyId options w = (Throw (Error "Invalid key ID"), w)).
  { intros text options. unfold encrypt, bind at 1. now rewrite Hp. }
  repeat split; auto.
  - intros encryptedData options. unfold decrypt, bind at 1. now rewrite Hp.
  - intros provenance resourceType resource. unfold encryptResource.
    destruct (stringify resource) as [resourceStr|].
    + unfold bind at 1. now rewrite He.
    + unfold bind. now rewrite Hp.
  - unfold rotateKey, bind, gets, throw. simpl. now rewrite H.
Qed.

Lemma unknown_key_is_refused_witness :
  encrypt "systolic-bp:118" "no-such-key" AesScenario.no_options AesScenario.with_k1
  = (Throw (Error "Invalid key ID"), AesScenario.with_k1).
Proof.
  apply (unknown_key_is_refused "no-such-key" AesScenario.with_k1).
  vm_compute. reflexivity.
Defined.

Lemma generateKey_registers (metadata : Metadata) (w w1 : World) (key : list Z)
      (keyId : string) :
  generateKey metadata w = (Return (key, keyId), w1) ->
  let size := default 256 (m_keySize metadata) in
  let type := default "patient-data" (m_keyType metadata) in
  let context := "aes-" +:+ type +:+ "-" +:+ owner_or_system (m_ownerId metadata) in
  keyId = randomUUID w (drawn w)
  /\ exists salt,
       kd_generateKey w size context None = Answer (key, salt)
       /\ keyRegistry w1
          = <[keyId := {| keySize := size; keyType := type;
                          ownerId := m_ownerId metadata; quantumSalt := salt;
                          createdAt := now w; lastUsed := None;
                          rotationSchedule := _getRotationSchedule type;
                          status := None; deprecatedAt := None |}]> (keyRegistry w)
       /\ now w1 = now w /\ kd_deriveKey w1 = kd_deriveKey w
       /\ randomBytes w1 = randomBytes w /\ drawn w1 = S (drawn w).
Proof.
  unfold generateKey, bind at 1, gets. cbn [fst snd].
  destruct (kd_generateKey w _ _ None) as [[k salt]|msg] eqn:Hkd; [|discriminate].
  unfold bind, crypto_randomUUID, gets, modify, audit, ret. cbn -[insert].
  destruct (audit_log w _ _); [|discriminate].
  intros [= <- <- <-]. cbn -[insert]. split; [reflexivity|].
  exists salt. repeat split; reflexivity.
Qed.

(** X19: A key [generateKey] has returned can be used at once: [_prepareKeyAndIV]
    finds it under the returned id and asks the derivation service for a key
    of the size, with the salt and under the context of its generation; the
    registry keeps the salt, never the key, and notes the use. *)
Theorem generated_key_is_prepared (metadata : Metadata) (w w1 : World) (key : list Z)
        (keyId : string) :
  generateKey metadata w = (Return (key, keyId), w1) ->
  exists info,
    keyRegistry w1 !! keyId = Some info
    /\ keySize info = default 256 (m_keySize metadata)
    /\ rotationSchedule info
       = _getRotationSchedule (default "patient-data" (m_keyType metadata))
    /\ kd_generateKey w (keySize info) (context_of info) None
       = Answer (key, quantumSalt info)
    /\ (forall derived,
          kd_deriveKey w1 (keySize info) (quantumSalt info) (context_of info)
          = Answer derived ->
          fst (_prepareKeyAndIV keyId w1) = Return (derived, randomBytes w1 (drawn w1) 12)
          /\ lastUsed <$> keyRegistry (snd (_prepareKeyAndIV keyId w1)) !! keyId
             = Some (Some (now w1)))
    /\ (forall msg,
          kd_deriveKey w1 (keySize info) (quantumSalt info) (context_of info)
          = Unavailable msg ->
          _prepareKeyAndIV keyId w1 = (Throw (VaultError msg), w1)).
Proof.
  intros Hgen. apply generateKey_registers in Hgen.
  cbv zeta in Hgen.
  destruct Hgen as (-> & salt & Hkd & Hreg & Hnow & Hderive & Hbytes & Hdrawn).
  eexists. split; [rewrite Hreg; apply lookup_insert_eq|].
  cbn [keySize rotationSchedule quantumSalt]. unfold context_of.
  cbn [keyType ownerId].
  split; [reflexivity|]. split; [reflexivity|]. split; [exact Hkd|]. split.
  - intros derived Hd.
    unfold _prepareKeyAndIV, bind, gets, modify, crypto_randomBytes, ret.
    cbn -[insert]. rewrite Hreg, lookup_insert_eq. cbn -[insert].
    unfold context_of. cbn -[insert]. rewrite Hd. cbn -[insert].
    split; [reflexivity|]. now rewrite lookup_insert_eq.
  - intros msg Hd.
    unfold _prepareKeyAndIV, bind, gets, modify, crypto_randomBytes, ret, throw.
    cbn -[insert]. rewrite Hreg, lookup_insert_eq. cbn -[insert].
    unfold context_of. cbn -[insert]. rewrite Hd. reflexivity.
Qed.

Lemma generated_key_is_prepared_witness :
  fst (_prepareKeyAndIV AesScenario.k1 AesScenario.with_k1)
  = Return (repeat 7 32, repeat 1 12).
Proof.
  destruct (generated_key_is_prepared
              {| m_keySize := None; m_keyType := Some "data-encryption";
                 m_ownerId := Some "patient-42" |}
              AesScenario.fresh AesScenario.with_k1 (repeat 7 32) AesScenario.k1)
    as (info & _ & _ & _ & _ & Hprepared & _).
  - vm_compute. reflexivity.
  - apply (Hprepared (repeat 7 32)). reflexivity.
Defined.

(** *** Rotation *)

(** X20: When [rotateKey] returns, the successor is registered under a new id
    with the size, type and owner of the predecessor, a salt of its own and
    the rotation schedule of its type; the predecessor is still registered,
    with everything it had, marked 'deprecated' as of now; no other key has
    changed. *)
Theorem rotateKey_keeps_the_predecessor (keyId : string) (w w1 : World) (info : KeyInfo)
        (key : list Z) (newId : string) :
  keyRegistry w !! keyId = Some info ->
  rotateKey keyId w = (Return (key, newId), w1) ->
  newId = randomUUID w (drawn w)
  /\ (exists salt,
        kd_generateKey w (keySize info) (context_of info) None = Answer (key, salt)
        /\ keyRegistry w1 !! newId
           = Some {| keySize := keySize info; keyType := keyType info;
                     ownerId := ownerId info; quantumSalt := salt;
                     createdAt := now w; lastUsed := None;
                     rotationSchedule := _getRotationSchedule (keyType info);
                     status := None; deprecatedAt := None |})
  /\ (newId <> keyId ->
      keyRegistry w1 !! keyId
      = Some {| keySize := keySize info; keyType := keyType info;
                ownerId := ownerId info; quantumSalt := quantumSalt info;
                createdAt := createdAt info; lastUsed := lastUsed info;
                rotationSchedule := rotationSchedule info;
                status := Some "deprecated"; deprecatedAt := Some (now w) |})
  /\ (forall other, other <> keyId -> other <> newId ->
                    keyRegistry w1 !! other = keyRegistry w !! other).
Proof.
  intros Hinfo. unfold rotateKey, bind at 1, gets. cbn [fst snd]. rewrite Hinfo.
  unfold bind at 1. cbn [fst snd].
  destruct (kd_generateKey w _ _ (Some _)) as [a|msg]; [|discriminate].
  unfold bind at 1, gets. cbn [fst snd]. unfold bind at 1, modify. cbn [fst snd].
  intros Hgen. apply generateKey_registers in Hgen. cbv zeta in Hgen.
  cbn [default m_keySize m_keyType m_ownerId] in Hgen.
  destruct Hgen as (-> & salt & Hkd & Hreg & _).
  cbn [randomUUID drawn with_registry kd_generateKey keyRegistry now] in *.
  split; [reflexivity|]. split; [|split].
  - exists salt. split; [exact Hkd|]. rewrite Hreg. apply lookup_insert_eq.
  - intros Hne. rewrite Hreg, lookup_insert_ne by congruence. apply lookup_insert_eq.
  - intros other H1 H2. rewrite Hreg, !lookup_insert_ne by congruence. reflexivity.
Qed.

Lemma rotateKey_keeps_the_predecessor_witness :
  status <$> keyRegistry (snd (rotateKey AesScenario.k1 AesScenario.with_k1))
               !! AesScenario.k1
  = Some (Some "deprecated").
Proof.
  destruct (rotateKey AesScenario.k1 AesScenario.with_k1) as [out w1] eqn:Hrun.
  assert (Hout : out = Return (repeat 7 32, "1c4e8a2b-7f6d-4b3c-9e5a-3d2c1b0a9f8e")).
  { change out with (fst (out, w1)). rewrite <- Hrun. vm_compute. reflexivity. }
  subst out.
  assert (Hinfo : keyRegistry AesScenario.with_k1 !! AesScenario.k1
                  = Some AesScenario.k1_info) by (vm_compute; reflexivity).
  destruct (rotateKey_keeps_the_predecessor _ _ _ _ _ _ Hinfo Hrun)
    as (_ & _ & Hold & _).
  cbn [snd]. rewrite Hold by discriminate. reflexivity.
Defined.

(** X21: [rotateKey] marks the predecessor before it generates the successor, and
    does not take the mark back: when the derivation service fails on the
    successor, the call throws and leaves the key deprecated with no
    successor.  When the service fails on the first request nothing has
    changed. *)
Theorem rotateKey_failure_leaves_the_mark (keyId : string) (w : World) (info : KeyInfo)
        (msg : string) :
  keyRegistry w !! keyId = Some info ->
  (kd_generateKey w (keySize info) (context_of info) (Some (quantumSalt info))
   = Unavailable msg ->
   rotateKey keyId w = (Throw (VaultError msg), w))
  /\ (forall again,
        kd_generateKey w (keySize info) (context_of info) (Some (quantumSalt info))
        = Answer again ->
        kd_generateKey w (keySize info) (context_of info) None = Unavailable msg ->
        rotateKey keyId w
        = (Throw (VaultError msg),
           with_registry
             (insert keyId
                {| keySize := keySize info; keyType := keyType info;
                   ownerId := ownerId info; quantumSalt := quantumSalt info;
                   createdAt := createdAt info; lastUsed := lastUsed info;
                   rotationSchedule := rotationSchedule info;
                   status := Some "deprecated"; deprecatedAt := Some (now w) |}) w)).
Proof.
  intros Hinfo. split.
  - intros Hfirst. unfold rotateKey, bind, gets, throw. cbn [fst snd].
    now rewrite Hinfo, Hfirst.
  - intros again Hfirst Hsecond.
    unfold rotateKey, bind at 1, gets. cbn [fst snd]. rewrite Hinfo.
    unfold bind at 1. cbn [fst snd]. rewrite Hfirst.
    unfold bind at 1, gets. cbn [fst snd]. unfold bind at 1, modify. cbn [fst snd].
    unfold generateKey, bind at 1, gets. cbn [fst snd].
    cbn [default m_keySize m_keyType m_ownerId kd_generateKey with_registry].
    change (kd_generateKey w (keySize info) (context_of info) None) with
      (kd_generateKey w (id (keySize info))
         ("aes-" +:+ id (keyType info) +:+ "-" +:+ owner_or_system (ownerId info)) None)
      in Hsecond.
    now rewrite Hsecond.
Qed.

Lemma rotateKey_failure_leaves_the_mark_witness :
  fst (rotateKey AesScenario.k1 AesScenario.no_new_keys)
  = Throw (VaultError "key derivation unavailable")
  /\ status <$> keyRegistry (snd (rotateKey AesScenario.k1 AesScenario.no_new_keys))
                  !! AesScenario.k1
     = Some (Some "deprecated").
Proof.
  assert (Hinfo : keyRegistry AesScenario.no_new_keys !! AesScenario.k1
                  = Some AesScenario.k1_info) by (vm_compute; reflexivity).
  rewrite (proj2 (rotateKey_failure_leaves_the_mark AesScenario.k1 AesScenario.no_new_keys
                    AesScenario.k1_info "key derivation unavailable" Hinfo)
             (repeat 7 32, repeat 9 16) eq_refl eq_refl).
  split; [reflexivity|]. cbn [snd keyRegistry with_registry].
  now rewrite lookup_insert_eq.
Defined.

(** *** [encryptResource] *)

Lemma dec_nonempty (n : Z) : dec n <> "".
Proof. unfold dec. destruct (Z.to_int n) as [[]|[]]; discriminate. Qed.

Lemma stringify_nonempty (v : JsVal) (s : string) : stringify v = Some s -> s <> "".
Proof.
  destruct v as [| |[]|n|t|b|xs|props]; cbn [stringify]; intros [= <-];
    try discriminate.
  apply dec_nonempty.
Qed.

Lemma prepareKeyAndIV_audited (keyId : string) (w : World) :
  audited (snd (_prepareKeyAndIV keyId w)) = audited w.
Proof.
  unfold _prepareKeyAndIV, bind, gets, modify, crypto_randomBytes, ret, throw.
  cbn [fst snd]. destruct (keyRegistry w !! keyId) as [info|]; [|reflexivity].
  destruct (kd_deriveKey w _ _ _); reflexivity.
Qed.

(** The loop of [encrypt] stops in its first pass, the audit log untouched. *)
Lemma encrypt_chunks_throws_unaudited (key nonce : list Z) (ctx : JsVal) (enc : string)
      (index total : nat) (chunk : string) (rest : list string) (acc : list Chunk)
      (w : World) :
  exists x w1,
    encrypt_chunks key nonce ctx enc index total (chunk :: rest) acc w = (Throw x, w1)
    /\ audited w1 = audited w.
Proof.
  cbn [encrypt_chunks].
  unfold encrypt_chunk, bind, gets, lift, ret, crypto_randomBytes, assign_const, throw.
  cbn [fst snd].
  destruct (seal _ _ _ _ _) as [[ciphertext authTag]|msg];
    [destruct (encode _ ciphertext); [destruct (encode _ authTag)|]|];
    eexists _, _; split; reflexivity.
Qed.

(** On a text that is not empty [encrypt] throws before it reaches the audit
    log. *)
Lemma encrypt_throws_unaudited (text keyId : string) (options : Options) (w : World) :
  text <> "" ->
  exists x w1, encrypt text keyId options w = (Throw x, w1) /\ audited w1 = audited w.
Proof.
  intros Htext. unfold encrypt, bind at 1.
  pose proof (prepareKeyAndIV_audited keyId w) as Haud.
  destruct (_prepareKeyAndIV keyId w) as [[key_iv|x] w1]; cbn [fst snd] in *;
    [|eauto].
  pose proof (chunkData_nonempty text (default 64%positive (chunkSize options) * 1024) Htext)
    as Hne.
  destruct (_chunkData _ _) as [|chunk rest]; [congruence|].
  unfold bind at 1.
  destruct (encrypt_chunks_throws_unaudited (fst key_iv) (snd key_iv) (contextData options)
              (default "base64" (encodeOutput options)) 0
              (List.length (chunk :: rest)) chunk rest [] w1)
    as (x & w2 & -> & Haud2).
  exists x, w2. split; [reflexivity|congruence].
Qed.

(** X22: [encryptResource] never returns: whatever the resource, the key and the
    collaborators, it throws before anything is written to the audit log and
    before a provenance record is asked for. *)
Theorem encryptResource_never_returns
        (_createProvenance : JsVal -> JsVal -> string -> string -> Eff World JsVal)
        (resourceType resource : JsVal) (keyId : string) (w : World) :
  (exists x,
      fst (encryptResource _createProvenance resourceType resource keyId w) = Throw x)
  /\ audited (snd (encryptResource _createProvenance resourceType resource keyId w))
     = audited w
  /\ (forall other,
         encryptResource other resourceType resource keyId w
         = encryptResource _createProvenance resourceType resource keyId w).
Proof.
  assert (H : forall provenance,
             exists x w1,
               encryptResource provenance resourceType resource keyId w = (Throw x, w1)
               /\ audited w1 = audited w
               /\ forall other,
                    encryptResource other resourceType resource keyId w = (Throw x, w1)).
  { intros provenance. unfold encryptResource.
    destruct (stringify resource) as [resourceStr|] eqn:Hjson.
    - destruct (encrypt_throws_unaudited resourceStr keyId (resource_options resourceType) w
                  (stringify_nonempty _ _ Hjson)) as (x & w1 & Hrun & Haud).
      exists x, w1. unfold bind at 1. rewrite Hrun. split; [reflexivity|].
      split; [exact Haud|]. intros other. unfold bind at 1. now rewrite Hrun.
    - pose proof (prepareKeyAndIV_audited keyId w) as Haud.
      unfold bind, throw.
      destruct (_prepareKeyAndIV keyId w) as [[key_iv|x] w1]; cbn [fst snd] in *;
        eexists _, w1; repeat split; auto. }
  destruct (H _createProvenance) as (x & w1 & Hrun & Haud & Hsame).
  rewrite Hrun. cbn [fst snd]. split; [eauto|]. split; [exact Haud|].
  intros other. apply Hsame.
Qed.

End AesServiceFacts.

(** ** Masking *)

Module PhiFacts.
Import Js PhiUtils StringFacts.

(** *** Social security numbers in a text *)

Lemma match_here_length (pattern : list (ascii -> bool)) :
  forall s rest, match_here pattern s = Some rest ->
                 String.length s = (List.length pattern + String.length rest)%nat.
Proof.
  induction pattern as [|p ps IH]; intros s rest; cbn [match_here].
  - intros [= ->]. reflexivity.
  - destruct s as [|c s]; [discriminate|]. destruct (p c); [|discriminate].
    intros H. apply IH in H. cbn [String.length List.length]. lia.
Qed.

Lemma replace_ssn_length (fuel : nat) :
  forall s, String.length (replace_ssn fuel s) = String.length s.
Proof.
  induction fuel as [|fuel IH]; intros s; cbn [replace_ssn]; [reflexivity|].
  destruct (match_here ssn_pattern s) as [rest|] eqn:M.
  - apply match_here_length in M. rewrite M.
    change ("***-**-****" +:+ replace_ssn fuel rest)
      with (String "*" (String "*" (String "*" (String "-" (String "*" (String "*"
           (String "-" (String "*" (String "*" (String "*" (String "*"
           (replace_ssn fuel rest)))))))))))).
    cbn [String.length List.length ssn_pattern]. rewrite IH. lia.
  - destruct s as [|c s]; [reflexivity|]. cbn [String.length]. now rewrite IH.
Qed.

(** A match depends on as many characters as the pattern has. *)
Lemma match_here_prefix (pattern : list (ascii -> bool)) :
  forall s s',
    String.substring 0 (List.length pattern) s
    = String.substring 0 (List.length pattern) s' ->
    match_here pattern s = None -> match_here pattern s' = None.
Proof.
  induction pattern as [|p ps IH]; intros s s'; cbn [match_here List.length].
  - discriminate.
  - destruct s as [|c s], s' as [|c' s']; cbn [String.substring]; try discriminate;
      try reflexivity.
    intros [= <- Hrest]. destruct (p c); [|reflexivity]. now apply IH.
Qed.

Lemma match_here_rejects (pattern : list (ascii -> bool)) (c : ascii) :
  List.Forall (fun p => p c = false) pattern ->
  forall s i, (i < List.length pattern)%nat -> String.get i s = Some c ->
              match_here pattern s = None.
Proof.
  induction 1 as [|p ps Hp _ IH]; intros s i Hi Hget; cbn [List.length] in Hi; [lia|].
  cbn [match_here]. destruct s as [|c' s]; [reflexivity|].
  destruct i as [|i]; cbn [String.get] in Hget.
  - injection Hget as ->. now rewrite Hp.
  - destruct (p c'); [|reflexivity]. apply (IH s i); [lia|assumption].
Qed.

Lemma prefix_none (s : string) : String.substring 0 0 s = "".
Proof. destruct s; reflexivity. Qed.

(** Where the text has changed, its first change is an asterisk. *)
Lemma replace_ssn_agrees (fuel : nat) :
  forall s n,
    String.substring 0 n (replace_ssn fuel s) = String.substring 0 n s
    \/ exists i, (i < n)%nat /\ String.get i (replace_ssn fuel s) = Some "*"%char.
Proof.
  induction fuel as [|fuel IH]; intros s n; cbn [replace_ssn]; [now left|].
  destruct n as [|n]; [left; now rewrite !prefix_none|].
  destruct (match_here ssn_pattern s) as [rest|].
  - right. exists O. split; [lia|reflexivity].
  - destruct s as [|c s]; [now left|].
    destruct (IH s n) as [Hsame|(i & Hi & Hstar)].
    + left. cbn [String.substring]. now rewrite Hsame.
    + right. exists (S i). split; [lia|exact Hstar].
Qed.

Lemma test_empty (pattern : list (ascii -> bool)) :
  pattern <> [] -> test pattern "" = false.
Proof. destruct pattern; [congruence|reflexivity]. Qed.

(** What [replace] returns has no match left. *)
Lemma replace_ssn_clean (fuel : nat) :
  forall s, (String.length s <= fuel)%nat ->
            test ssn_pattern (replace_ssn fuel s) = false.
Proof.
  induction fuel as [|fuel IH]; intros s Hfuel; cbn [replace_ssn].
  - destruct s; [reflexivity|simpl in Hfuel; lia].
  - destruct (match_here ssn_pattern s) as [rest|] eqn:M.
    + apply match_here_length in M. cbn [ssn_pattern List.length] in M.
      specialize (IH rest ltac:(lia)).
      change ("***-**-****" +:+ replace_ssn fuel rest)
        with (String "*" (String "*" (String "*" (String "-" (String "*" (String "*"
             (String "-" (String "*" (String "*" (String "*" (String "*"
             (replace_ssn fuel rest)))))))))))).
      remember (replace_ssn fuel rest) as masked. cbn. exact IH.
    + destruct s as [|c s]; [reflexivity|].
      cbn [String.length] in Hfuel. specialize (IH s ltac:(lia)).
      change (test ssn_pattern (String c (replace_ssn fuel s)))
        with (match match_here ssn_pattern (String c (replace_ssn fuel s)) with
              | Some _ => true
              | None => test ssn_pattern (replace_ssn fuel s)
              end).
      assert (Hnone : match_here ssn_pattern (String c (replace_ssn fuel s)) = None).
      { destruct (replace_ssn_agrees fuel s 10) as [Hsame|(i & Hi & Hstar)].
        - apply (match_here_prefix ssn_pattern (String c s)); [|exact M].
          cbn [ssn_pattern List.length String.substring]. now rewrite Hsame.
        - apply (match_here_rejects ssn_pattern "*"%char) with (i := S i).
          + repeat constructor.
          + cbn [ssn_pattern List.length]. lia.
          + exact Hstar. }
      now rewrite Hnone.
Qed.

(** A text without a match stays as it is. *)
Lemma replace_ssn_leaves (fuel : nat) :
  forall s, test ssn_pattern s = false -> replace_ssn fuel s = s.
Proof.
  induction fuel as [|fuel IH]; intros s Htest; cbn [replace_ssn]; [reflexivity|].
  destruct s as [|c s].
  - reflexivity.
  - change (test ssn_pattern (String c s))
      with (match match_here ssn_pattern (String c s) with
            | Some _ => true
            | None => test ssn_pattern s
            end) in Htest.
    destruct (match_here ssn_pattern (String c s)); [discriminate|].
    now rewrite IH.
Qed.

(** X23: On a string [maskPHI] works on social security numbers: what it returns
    is as long as the text, has no run of the form ddd-dd-dddd left in it,
    and is the text itself when there was none. *)
Theorem maskPHI_clears_ssn (text : string) :
  exists masked,
    maskPHI (JStr text) = Some masked
    /\ String.length masked = String.length text
    /\ test ssn_pattern masked = false
    /\ (test ssn_pattern text = false -> masked = text).
Proof.
  exists (replace_ssn (String.length text) text). split; [reflexivity|].
  split; [apply replace_ssn_length|]. split.
  - apply replace_ssn_clean. lia.
  - apply replace_ssn_leaves.
Qed.

(** *** Property names *)

Lemma JsVal_nested_ind (P : JsVal -> Prop) :
  P JUndefined -> P JNull -> (forall b, P (JBool b)) -> (forall n, P (JNum n)) ->
  (forall s, P (JStr s)) -> (forall b, P (JBuf b)) ->
  (forall xs, List.Forall P xs -> P (JArr xs)) ->
  (forall props, List.Forall (fun kv => P (snd kv)) props -> P (JObj props)) ->
  forall v, P v.
Proof.
  intros Hu Hn Hb Hz Hs Hbuf Harr Hobj.
  fix IH 1. intros [| |b|n|s|b|xs|props].
  - exact Hu.
  - exact Hn.
  - apply Hb.
  - apply Hz.
  - apply Hs.
  - apply Hbuf.
  - apply Harr. induction xs as [|x xs IHxs]; constructor; [apply IH|exact IHxs].
  - apply Hobj.
    induction props as [|[k x] props IHprops]; constructor; [apply IH|exact IHprops].
Qed.

Lemma redact_twice (v : JsVal) : redact (redact v) = redact v.
Proof.
  induction v as [| | | | | |xs IH|props IH] using JsVal_nested_ind; try reflexivity.
  - cbn [redact]. f_equal. rewrite List.map_map.
    induction IH as [|x xs Hx _ IHxs]; [reflexivity|].
    cbn [List.map]. now rewrite Hx, IHxs.
  - cbn [redact]. f_equal. rewrite List.map_map.
    induction IH as [|[k x] props Hx _ IHprops]; [reflexivity|].
    cbn [List.map fst snd] in *. rewrite IHprops. f_equal. f_equal.
    destruct (isPHIColumn k); [reflexivity|exact Hx].
Qed.

Lemma redact_no_phi_names (v : JsVal) : no_phi_names v = true -> redact v = v.
Proof.
  induction v as [| | | | | |xs IH|props IH] using JsVal_nested_ind; try reflexivity.
  - cbn [redact no_phi_names]. intros H. f_equal.
    induction IH as [|x xs Hx _ IHxs]; [reflexivity|].
    cbn [forallb] in H. apply andb_prop in H as [H1 H2].
    cbn [List.map]. now rewrite Hx, IHxs.
  - cbn [redact no_phi_names]. intros H. f_equal.
    induction IH as [|[k x] props Hx _ IHprops]; [reflexivity|].
    cbn [forallb fst snd] in *. apply andb_prop in H as [H1 H2].
    apply andb_prop in H1 as [Hk H1]. apply negb_true_iff in Hk.
    cbn [List.map fst snd]. now rewrite Hk, Hx, IHprops.
Qed.

(** X24: On anything but a string [maskPHI] goes by property names alone.  A
    value that has no property named like a PHI column, at any depth, is
    serialised as [JSON.stringify] would; a list of texts, such as the
    parameters of a query, is such a value, so the social security numbers in
    it are left in clear.  Masking what has been masked changes nothing. *)
Theorem maskPHI_goes_by_names :
  (forall v, (forall text, v <> JStr text) -> no_phi_names v = true ->
             maskPHI v = stringify v)
  /\ (forall texts,
         maskPHI (JArr (List.map JStr texts)) = stringify (JArr (List.map JStr texts)))
  /\ (forall v, redact (redact v) = redact v).
Proof.
  assert (H : forall v, (forall text, v <> JStr text) -> no_phi_names v = true ->
                        maskPHI v = stringify v).
  { intros v Hv Hfree. unfold maskPHI.
    destruct v; try (now rewrite redact_no_phi_names); now destruct (Hv s). }
  split; [exact H|]. split; [|exact redact_twice].
  intros texts. apply H; [discriminate|].
  cbn [no_phi_names]. induction texts as [|t texts IH]; [reflexivity|exact IH].
Qed.

Lemma maskPHI_goes_by_names_witness :
  maskPHI (JArr [JStr "078-05-1120"; JStr "patient-42"])
  = Some ("[" +:+ quote "078-05-1120" +:+ "," +:+ quote "patient-42" +:+ "]")
  /\ maskPHI (JStr "ssn 078-05-1120") = Some "ssn ***-**-****".
Proof.
  split; [|reflexivity].
  exact (proj1 (proj2 maskPHI_goes_by_names) ["078-05-1120"; "patient-42"]).
Defined.

End PhiFacts.

(** ** The in-memory key store *)

Module KeyStoreFacts.
Import Js KeyStore StringFacts CodecProps.

Lemma hex_encode_nonempty (bs : list Z) : bs <> [] -> hex_encode bs <> "".
Proof.
  intros Hbs Hhex. apply (f_equal String.length) in Hhex.
  rewrite hex_encode_length in Hhex. destruct bs; [congruence|]. simpl in Hhex. lia.
Qed.

(** X25: [rotateKey] returns the id 'key-' followed by the time in milliseconds,
    and a key of twice as many hex digits as the generator gave bytes.  The
    key stands under the id afterwards, unless the old id is that very id (a
    key made in the same millisecond): then the key just returned has been
    deleted again.  An old key that was held is gone, and no other key
    changes. *)
Theorem rotateKey_stores_the_new_key (oldKeyId : option string) (w : World) :
  let newKeyId := "key-" +:+ dec (now w) in
  let newKey := hex_encode (randomBytes w (drawn w) 32) in
  let after := snd (rotateKey oldKeyId w) in
  fst (rotateKey oldKeyId w) = Return (newKeyId, newKey)
  /\ String.length newKey = (2 * List.length (randomBytes w (drawn w) 32))%nat
  /\ (oldKeyId <> Some newKeyId -> getKey newKeyId after = Some newKey)
  /\ (oldKeyId = Some newKeyId -> randomBytes w (drawn w) 32 <> [] ->
      getKey newKeyId after = None)
  /\ (forall old, oldKeyId = Some old -> old <> newKeyId ->
                  getKey old after = if held oldKeyId w then None else getKey old w)
  /\ (forall other, other <> newKeyId -> oldKeyId <> Some other ->
                    getKey other after = getKey other w).
Proof.
  intros newKeyId newKey after. subst after.
  unfold rotateKey, bind, gets, modify, generateKey, ret. cbn [fst snd].
  fold newKeyId newKey.
  split; [destruct (held _ _); reflexivity|].
  split; [apply hex_encode_length|].
  unfold held, getKey. cbn [keys with_keys].
  split; [|split; [|split]].
  - intros Hother. destruct oldKeyId as [old|]; cbn [default from_option id].
    + destruct (negb (String.eqb old "") && _); cbn [snd keys with_keys].
      * rewrite lookup_delete_ne by congruence. apply lookup_insert_eq.
      * apply lookup_insert_eq.
    + apply lookup_insert_eq.
  - intros -> Hbytes. cbn [default from_option id]. rewrite lookup_insert_eq.
    assert (Hkey : newKey <> "") by now apply hex_encode_nonempty.
    assert (Hid : String.eqb newKeyId "" = false) by reflexivity.
    rewrite Hid. apply String.eqb_neq in Hkey. rewrite Hkey.
    cbn [negb andb snd keys with_keys]. apply lookup_delete_eq.
  - intros old -> Hne. cbn [default from_option id].
    rewrite lookup_insert_ne by congruence.
    destruct (negb (String.eqb old "") && _); cbn [snd keys with_keys].
    + apply lookup_delete_eq.
    + now rewrite lookup_insert_ne by congruence.
  - intros other Hne Hold. destruct oldKeyId as [old|]; cbn [default from_option id].
    + destruct (negb (String.eqb old "") && _); cbn [snd keys with_keys].
      * rewrite lookup_delete_ne, lookup_insert_ne by congruence. reflexivity.
      * now rewrite lookup_insert_ne by congruence.
    + cbn [snd keys with_keys]. now rewrite lookup_insert_ne by congruence.
Qed.

Lemma rotateKey_stores_the_new_key_witness :
  getKey "key-1793693730000" KeyStoreScenario.rotated = Some (hex_encode (repeat 1 32))
  /\ fst (rotateKey (Some "key-1793693730000") KeyStoreScenario.rotated)
     = Return ("key-1793693730000", hex_encode (repeat 2 32))
  /\ getKey "key-1793693730000"
            (snd (rotateKey (Some "key-1793693730000") KeyStoreScenario.rotated))
     = None.
Proof.
  split; [|split].
  - apply (proj1 (proj2 (proj2 (rotateKey_stores_the_new_key
                                  None KeyStoreScenario.started)))).
    discriminate.
  - apply (proj1 (rotateKey_stores_the_new_key (Some "key-1793693730000")
                    KeyStoreScenario.rotated)).
  - apply (proj1 (proj2 (proj2 (proj2 (rotateKey_stores_the_new_key
                                         (Some "key-1793693730000")
                                         KeyStoreScenario.rotated))))).
    + reflexivity.
    + discriminate.
Defined.

End KeyStoreFacts.
